(** * Slideflow: shallow embedding of the MIL data utilities, feature
    statistics, Studio MIL widget, TFRecord reader, SMAC search spaces and the
    legacy batch-file parser, with the properties checked against them.

    Part I holds the definitions, one module per source file.
    Part II holds the lemmas and theorems. *)

From Stdlib Require Import ZArith QArith Lia Ascii String.
From stdpp Require Import base option list gmap strings pretty sorting.

Local Open Scope Z_scope.

(** ** Python runtime conventions shared by all modules *)

Module Py.

(** The exceptions the modelled code can raise.  The payload is the message
    where the source builds one. *)
Inductive exn : Type :=
| IndexError
| AssertionError
| TypeError
| ValueError (msg : string)
| RuntimeError (msg : string)
| FileNotFoundError (path : string)
| KeyError (key : string)
| AttributeError
| FeaturesError (msg : string)
| OverflowError (msg : string).

(** A call either returns a value or raises. *)
Inductive result (A : Type) : Type :=
| Ok (a : A)
| Raise (e : exn).
Arguments Ok {A} a.
Arguments Raise {A} e.

#[export] Instance result_ret : MRet result := fun A a => Ok a.
#[export] Instance result_bind : MBind result := fun A B f m =>
  match m with
  | Ok a => f a
  | Raise e => Raise e
  end.

#[export] Instance result_fmap : FMap result := fun A B f m =>
  match m with
  | Ok a => Ok (f a)
  | Raise e => Raise e
  end.

Definition is_ok {A} (r : result A) : bool :=
  match r with Ok _ => true | Raise _ => false end.

(** [l[i]] with Python's negative indices. *)
Definition getitem {A} (l : list A) (i : Z) : result A :=
  let n := Z.of_nat (length l) in
  let j := if i <? 0 then i + n else i in
  if (j <? 0) || (n <=? j) then Raise IndexError
  else match l !! Z.to_nat j with
       | Some x => Ok x
       | None => Raise IndexError
       end.

(** [l[:k]] with Python's negative bounds. *)
Definition slice_to {A} (l : list A) (k : Z) : list A :=
  if k <? 0 then take (length l - Z.to_nat (- k))%nat l
  else take (Z.to_nat k) l.

(** An index handed to numpy is converted to a C long. *)
Definition fits_long (i : Z) : bool := (- 2 ^ 63 <=? i) && (i <? 2 ^ 63).

Definition long_overflow : exn :=
  OverflowError "Python int too large to convert to C long".

(** [a[i]] for a numpy array [a]: as [getitem], except that an index that
    does not fit a C long is refused with [OverflowError].  An array has
    fewer than 2^63 entries, so an index inside the array always fits, and
    the conversion decides nothing for it. *)
Definition np_getitem {A} (l : list A) (i : Z) : result A :=
  match getitem l i with
  | Ok x => Ok x
  | Raise e => if fits_long i then Raise e else Raise long_overflow
  end.

(** [mapM] over [result], left to right: the first exception wins. *)
Fixpoint mapM {A B} (f : A -> result B) (l : list A) : result (list B) :=
  match l with
  | [] => Ok []
  | x :: xs => y ← f x; ys ← mapM f xs; Ok (y :: ys)
  end.

End Py.
Import Py.

(** ** Tensors ([torch], [numpy])

    A dense array is its shape and its row-major contents.  Scalars are
    rationals: the operations used by the modelled code on the paths studied
    here only move scalars around, compare them or average them. *)

Module torch.

Record Tensor : Type := mkTensor { shape : list nat; data : list Q }.

Definition numel (s : list nat) : nat := foldr Nat.mul 1%nat s.

(** The contents fill the shape. *)
Definition wf (t : Tensor) : Prop := length (data t) = numel (shape t).

Definition dim (t : Tensor) : nat := length (shape t).

(** [t.shape[k]] *)
Definition shape_at (t : Tensor) (k : nat) : result nat :=
  match shape t !! k with
  | Some n => Ok n
  | None => Raise IndexError
  end.

(** [len(t)]: the size of the leading axis; a 0-d tensor has no length. *)
Definition len (t : Tensor) : result nat :=
  match shape t with
  | n :: _ => Ok n
  | [] => Raise TypeError
  end.

(** Number of scalars in one entry along the leading axis. *)
Definition stride (t : Tensor) : nat := numel (tail (shape t)).

(** The [i]-th entry along the leading axis, flattened. *)
Definition row (t : Tensor) (i : nat) : list Q :=
  take (stride t) (drop (i * stride t) (data t)).

(** [torch.zeros(r, c)]: a negative dimension is rejected. *)
Definition zeros (r : Z) (c : nat) : result Tensor :=
  if r <? 0 then Raise (RuntimeError "negative dimension")
  else Ok (mkTensor [Z.to_nat r; c] (replicate (Z.to_nat r * c) 0%Q)).

(** [t[idxs]] for an index vector: gathers entries along the leading axis. *)
Definition index_select (t : Tensor) (idxs : list nat) : result Tensor :=
  match shape t with
  | [] => Raise IndexError
  | n :: rest =>
      if forallb (fun i => (i <? n)%nat) idxs
      then Ok (mkTensor (length idxs :: rest) (flat_map (row t) idxs))
      else Raise IndexError
  end.

(** [torch.cat] skips 1-d empty operands (legacy behaviour). *)
Definition cat_skips (t : Tensor) : bool :=
  match shape t with
  | [O] => true
  | _ => false
  end.

(** [torch.cat((a, b))] along axis 0: both operands need the same number of
    dimensions and the same trailing shape. *)
Definition cat (a b : Tensor) : result Tensor :=
  if cat_skips a then Ok b
  else if cat_skips b then Ok a
  else match shape a, shape b with
       | na :: ra, nb :: rb =>
           if negb (length ra =? length rb)%nat
           then Raise (RuntimeError
                         "Tensors must have same number of dimensions")
           else if decide (ra = rb)
           then Ok (mkTensor ((na + nb)%nat :: ra) (data a ++ data b))
           else Raise (RuntimeError
                         "Sizes of tensors must match except in dimension 0")
       | _, _ =>
           Raise (RuntimeError
                    "zero-dimensional tensor cannot be concatenated")
       end.

(** [torch.cat(ts)] for a list of tensors. *)
Definition cat_list (ts : list Tensor) : result Tensor :=
  match ts with
  | [] => Raise (RuntimeError "torch.cat(): expected a non-empty list of Tensors")
  | t :: rest => foldl (fun acc x => a ← acc; cat a x) (Ok t) rest
  end.

Definition Qsum (l : list Q) : Q := foldr Qplus 0%Q l.

(** Mean of the [m] scalars found at offsets [base + j * r], [j < m]. *)
Definition strided_mean (d : list Q) (base r m : nat) : Q :=
  Qred (Qsum (map (fun j => default 0%Q (d !! (base + j * r)%nat)) (seq 0 m))
        / inject_Z (Z.of_nat m)).

(** [t.mean(dim=[2, 3])]: axes 2 and 3 must exist; they are averaged out and
    the other axes are kept. *)
Definition mean_23 (t : Tensor) : result Tensor :=
  match shape t with
  | n0 :: n1 :: n2 :: n3 :: rest =>
      let r := numel rest in
      let m := (n2 * n3)%nat in
      Ok (mkTensor (n0 :: n1 :: rest)
            (flat_map (fun o =>
               map (fun k => strided_mean (data t) (o * m * r + k) r m) (seq 0 r))
               (seq 0 (n0 * n1))))
  | _ => Raise IndexError
  end.

End torch.
Import torch.

(** ** [slideflow/mil/data.py] *)

Module MilData.

Section Sampling.

(** One draw of [torch.randperm], as a function of its argument. *)
Variable randperm : nat -> list nat.

Definition _to_fixed_size_bag (bag : Tensor) (bag_size : Z)
  : result (Tensor * Z) :=
  bag_flattened ← (if (2 <? dim bag)%nat then mean_23 bag else Ok bag);
  n ← shape_at bag 0;
  let bag_idxs := slice_to (randperm n) bag_size in
  bag_samples ← index_select bag bag_idxs;
  r ← shape_at bag_samples 0;
  c ← shape_at bag_samples 1;
  z ← zeros (bag_size - Z.of_nat r) c;
  zero_padded ← cat bag_samples z;
  l ← len bag;
  Ok (zero_padded, Z.min bag_size (Z.of_nat l)).

(** The sampling as the specification words it: the rows are drawn from the
    2-d reduction. *)
Definition fixed_size_bag_spec (bag : Tensor) (bag_size : Z)
  : result (Tensor * Z) :=
  bag_flattened ← (if (2 <? dim bag)%nat then mean_23 bag else Ok bag);
  n ← shape_at bag_flattened 0;
  let bag_idxs := slice_to (randperm n) bag_size in
  bag_samples ← index_select bag_flattened bag_idxs;
  r ← shape_at bag_samples 0;
  c ← shape_at bag_samples 1;
  z ← zeros (bag_size - Z.of_nat r) c;
  zero_padded ← cat bag_samples z;
  l ← len bag;
  Ok (zero_padded, Z.min bag_size (Z.of_nat l)).

(** What one bag can be: a path, an array, a tensor, a list of paths (the
    slides of a patient), or something else. *)
Inductive bag_item : Type :=
| ItemStr (path : string)
| ItemNdarray (a : Tensor)
| ItemTensor (t : Tensor)
| ItemPaths (paths : list string)
| ItemOther (type_name : string).

(** [self.bags[index]] itself: a Python list of items, a numpy array (whose
    iteration yields its entries) or a tensor (whose iteration yields
    tensors). *)
Inductive slide_bags : Type :=
| BagsList (items : list bag_item)
| BagsNdarray (items : list bag_item)
| BagsTensor (items : list Tensor).

Definition bags_items (b : slide_bags) : list bag_item :=
  match b with
  | BagsList l => l
  | BagsNdarray l => l
  | BagsTensor l => map ItemTensor l
  end.

Definition is_ndarray (b : slide_bags) : bool :=
  match b with BagsNdarray _ => true | _ => false end.

Definition is_tensor (b : slide_bags) : bool :=
  match b with BagsTensor _ => true | _ => false end.

(** [type(bag)] as printed by [format]. *)
Definition type_repr (it : bag_item) : string :=
  match it with
  | ItemStr _ => "<class 'str'>"
  | ItemNdarray _ => "<class 'numpy.ndarray'>"
  | ItemTensor _ => "<class 'torch.Tensor'>"
  | ItemPaths _ => "<class 'list'>"
  | ItemOther n => "<class '" +:+ n +:+ "'>"
  end.

Record MultiBagDataset : Type := mkMultiBagDataset {
  bags : list slide_bags;
  n_bags : nat;
  bag_size : option Z
}.

(** The files [torch.load] can read. *)
Variable fs : string -> option Tensor.

Definition torch_load (path : string) : result Tensor :=
  match fs path with
  | Some t => Ok t
  | None => Raise (FileNotFoundError path)
  end.

(** [BagDataset._load], applied to [self.bags[index]]: each test looks at
    the bag itself; anything else is read as a list of paths. *)
Definition BagDataset_load (bag : bag_item) : result Tensor :=
  match bag with
  | ItemStr path => torch_load path
  | ItemNdarray a => Ok a
  | ItemTensor t => Ok t
  | ItemPaths paths => ts ← mapM torch_load paths; cat_list ts
  | ItemOther _ => Raise TypeError
  end.

(** [torch.from_numpy] accepts arrays only. *)
Definition from_numpy (it : bag_item) : result Tensor :=
  match it with
  | ItemNdarray a => Ok a
  | _ => Raise TypeError
  end.

(** The tensor-container branch appends the element untouched; elements of a
    tensor are tensors. *)
Definition as_tensor (it : bag_item) : result Tensor :=
  match it with
  | ItemTensor t => Ok t
  | _ => Raise TypeError
  end.

(** Body of the loading loop of [MultiBagDataset.__getitem__]. *)
Definition load_bag (container : slide_bags) (bag : bag_item)
  : result Tensor :=
  match bag with
  | ItemStr path => torch_load path
  | _ =>
      if is_ndarray container then from_numpy bag
      else if is_tensor container then as_tensor bag
      else Raise (ValueError ("Invalid bag type: " +:+ type_repr bag))
  end.

Definition MultiBagDataset_getitem (self : MultiBagDataset) (index : Z)
  : result (list (Tensor * Z)) :=
  bs ← getitem (bags self) index;
  if negb (length (bags_items bs) =? n_bags self)%nat then Raise AssertionError
  else
    loaded_bags ← mapM (load_bag bs) (bags_items bs);
    match bag_size self with
    | Some sz =>
        if sz =? 0
        then mapM (fun bag => l ← len bag; Ok (bag, Z.of_nat l)) loaded_bags
        else mapM (fun bag => _to_fixed_size_bag bag sz) loaded_bags
    | None => mapM (fun bag => l ← len bag; Ok (bag, Z.of_nat l)) loaded_bags
    end.

(** A [BagDataset] after [__init__]: without [preload] it holds the bags as
    given, with [preload] the tensors [_load] returned for them. *)
Inductive BagDataset : Type :=
| LazyBags (bags : list bag_item) (bag_size : option Z)
| PreloadedBags (bags : list Tensor) (bag_size : option Z).

Definition BagDataset_init (bags : list bag_item) (bag_size : option Z)
  (preload : bool) : result BagDataset :=
  if preload
  then loaded ← mapM BagDataset_load bags; Ok (PreloadedBags loaded bag_size)
  else Ok (LazyBags bags bag_size).

Definition BagDataset_len (self : BagDataset) : nat :=
  match self with
  | LazyBags bags _ => length bags
  | PreloadedBags bags _ => length bags
  end.

(** The sampling step shared by both branches of [__getitem__]. *)
Definition sample_bag (bag_size : option Z) (feats : Tensor)
  : result (Tensor * Z) :=
  match bag_size with
  | Some sz =>
      if sz =? 0 then l ← len feats; Ok (feats, Z.of_nat l)
      else _to_fixed_size_bag feats sz
  | None => l ← len feats; Ok (feats, Z.of_nat l)
  end.

Definition BagDataset_getitem (self : BagDataset) (index : Z)
  : result (Tensor * Z) :=
  match self with
  | PreloadedBags bags bag_size =>
      feats ← getitem bags index;
      sample_bag bag_size feats
  | LazyBags bags bag_size =>
      bag ← getitem bags index;
      feats ← BagDataset_load bag;
      sample_bag bag_size feats
  end.

End Sampling.

(** *** Sample inputs *)

(** A bag of one instance holding a 2 x 2 feature map. *)
Definition spatial_bag : Tensor :=
  mkTensor [1; 1; 2; 2]%nat [1; 2; 3; 6]%Q.

(** A dataset of one slide whose single bag is a 2 x 3 array. *)
Definition array_dataset : MultiBagDataset :=
  mkMultiBagDataset
    [BagsList [ItemNdarray (mkTensor [2; 3]%nat [1; 2; 3; 4; 5; 6]%Q)]]
    1 None.

(** A bag of three instances with two features each. *)
Definition small_bag : Tensor :=
  mkTensor [3; 2]%nat [1; 2; 3; 4; 5; 6]%Q.

(** A file system holding [small_bag] under one path. *)
Definition one_file (path : string) : option Tensor :=
  if decide (path = "a.pt") then Some small_bag else None.

(** A dataset of one slide whose single bag is a path. *)
Definition path_dataset : MultiBagDataset :=
  mkMultiBagDataset [BagsList [ItemStr "a.pt"]] 1 None.

Definition is_path (it : bag_item) : Prop :=
  match it with ItemStr _ => True | _ => False end.

End MilData.

(** ** [slideflow/model/features.py] *)

Module Features.

(** A float as [scipy] hands it back: a finite value, an infinity or NaN. *)
Inductive stat : Type :=
| Finite (q : Q)
| PosInf
| NegInf
| NaN.

(** [math.isnan] *)
Definition isnan (x : stat) : bool :=
  match x with NaN => true | _ => false end.

Definition is_finite (x : stat) : bool :=
  match x with Finite _ => true | _ => false end.

(** The activations of one slide: a 2-d array, one row per tile and one
    column per feature; its shape is [(length rows, ncols)]. *)
Record ndarray2 : Type := mkArray { rows : list (list Q); ncols : nat }.

Definition array_wf (a : ndarray2) : Prop :=
  Forall (fun r => length r = ncols a) (rows a).

(** [a[:, idx]] *)
Definition column (a : ndarray2) (idx : nat) : result (list Q) :=
  if (idx <? ncols a)%nat
  then Ok (map (fun r => default 0%Q (r !! idx)) (rows a))
  else Raise IndexError.

Definition Qgtb (x y : Q) : bool := negb (Qle_bool x y).

(** [np.sum(a > threshold, axis=0)]: per column, the number of rows whose
    entry exceeds the threshold. *)
Definition count_above (a : ndarray2) (threshold : Q) : list nat :=
  map (fun k =>
         length (filter (fun r => Is_true (Qgtb (default 0%Q (r !! k)) threshold))
                        (rows a)))
      (seq 0 (ncols a)).

(** [np.mean(a, axis=0)] *)
Definition mean_axis0 (a : ndarray2) : list Q :=
  map (fun k =>
         Qred (Qsum (map (fun r => default 0%Q (r !! k)) (rows a))
               / inject_Z (Z.of_nat (length (rows a)))))
      (seq 0 (ncols a)).

(** The body of the first loop of [stats]: the slide-level vector.  [stats]
    has refused any method other than 'mean' and 'threshold' before. *)
Definition summarize (method : string) (threshold : Q) (a : ndarray2)
  : list Q :=
  if decide (method = "mean") then mean_axis0 a
  else
    let act_sum := count_above a threshold in
    map (fun c => Qred (inject_Z (Z.of_nat c) / inject_Z (Z.of_nat (ncols a))))
        act_sum.

(** The slide-level threshold value as the docstring words it: tiles above
    the threshold, divided by the total number of tiles. *)
Definition threshold_fraction_spec (threshold : Q) (a : ndarray2) : list Q :=
  map (fun c => Qred (inject_Z (Z.of_nat c)
                      / inject_Z (Z.of_nat (length (rows a)))))
      (count_above a threshold).

Record DatasetFeatures : Type := mkFeatures {
  slides : list string;
  activations : gmap string ndarray2;
  labels : gmap string string;
  categories : list string;
  used_categories : list string;
  num_features : nat
}.

Definition dict_get {V} (d : gmap string V) (k : string) : result V :=
  match d !! k with
  | Some v => Ok v
  | None => Raise (KeyError k)
  end.

(** [[s for s in self.slides if self.labels[s] == c]] *)
Fixpoint slides_of (lbl : gmap string string) (c : string)
  (ss : list string) : result (list string) :=
  match ss with
  | [] => Ok []
  | s :: rest =>
      l ← dict_get lbl s;
      tl ← slides_of lbl c rest;
      Ok (if decide (l = c) then s :: tl else tl)
  end.

(** [act_by_cat(c)] of [activations_by_category(idx)]; [np.concatenate]
    refuses an empty list. *)
Definition act_by_cat (self : DatasetFeatures) (idx : nat) (c : string)
  : result (list Q) :=
  pts ← slides_of (labels self) c (slides self);
  cols ← mapM (fun pt => a ← dict_get (activations self) pt; column a idx) pts;
  match cols with
  | [] => Raise (ValueError "need at least one array to concatenate")
  | _ => Ok (concat cols)
  end.

Definition activations_by_category (self : DatasetFeatures) (idx : nat)
  : result (list (list Q)) :=
  match categories self with
  | [] => Raise (FeaturesError
                   "Unable to calculate by category; annotations not provided.")
  | _ => mapM (act_by_cat self idx) (used_categories self)
  end.

(** [c[:, f]] for one entry [c] of [category_stats]: an empty category is a
    1-d array and cannot be indexed twice. *)
Definition category_column (c : list (list Q)) (f : nat) : result (list Q) :=
  match c with
  | [] => Raise IndexError
  | _ => mapM (fun v => match v !! f with
                        | Some x => Ok x
                        | None => Raise IndexError
                        end) c
  end.

(** What is stored for a feature after one ANOVA: the pair itself unless
    [isnan] fires on either component. *)
Definition anova_entry (r : stat * stat) : stat * stat :=
  let '(fvalue, pvalue) := r in
  if negb (isnan fvalue) && negb (isnan pvalue) then (fvalue, pvalue)
  else (Finite (-1), Finite 1).

Definition sentinel : stat * stat := (Finite (-1), Finite 1).

Section Stats.

(** [scipy.stats.f_oneway], applied to the list of groups. *)
Variable f_oneway : list (list Q) -> result (stat * stat).

Definition stats_maps : Type :=
  (gmap nat (stat * stat) * gmap nat (stat * stat))%type.

(** One round of the loop over features. *)
Definition stats_step (self : DatasetFeatures)
  (category_stats : list (list (list Q))) (acc : stats_maps) (f : nat)
  : result stats_maps :=
  let '(tile_stats, pt_stats) := acc in
  stats_vals ← activations_by_category self f;
  r1 ← f_oneway stats_vals;
  let tile_stats := <[f := anova_entry r1]> tile_stats in
  cols ← mapM (fun c => category_column c f) category_stats;
  r2 ← f_oneway cols;
  let pt_stats := <[f := anova_entry r2]> pt_stats in
  Ok (tile_stats, pt_stats).

Fixpoint stats_loop (self : DatasetFeatures)
  (category_stats : list (list (list Q))) (acc : stats_maps) (fs : list nat)
  : result stats_maps :=
  match fs with
  | [] => Ok acc
  | f :: rest =>
      acc' ← stats_step self category_stats acc f;
      stats_loop self category_stats acc' rest
  end.

(** Feature [f] has its two entries in [acc], each the image of the
    corresponding ANOVA result. *)
Definition recorded (self : DatasetFeatures)
  (category_stats : list (list (list Q))) (f : nat) (acc : stats_maps)
  : Prop :=
  exists g1 r1 g2 r2,
    activations_by_category self f = Ok g1 /\ f_oneway g1 = Ok r1 /\
    acc.1 !! f = Some (anova_entry r1) /\
    mapM (fun c => category_column c f) category_stats = Ok g2 /\
    f_oneway g2 = Ok r2 /\
    acc.2 !! f = Some (anova_entry r2).

(** [activation_stats]: the dictionary filled by the loop over slides. *)
Fixpoint activation_stats (self : DatasetFeatures) (method : string)
  (threshold : Q) (ss : list string) (acc : gmap string (list Q))
  : result (gmap string (list Q)) :=
  match ss with
  | [] => Ok acc
  | slide :: rest =>
      a ← dict_get (activations self) slide;
      activation_stats self method threshold rest
        (<[slide := summarize method threshold a]> acc)
  end.

(** [DatasetFeatures.stats] with [outdir=None]. *)
Definition stats (self : DatasetFeatures) (method : string) (threshold : Q)
  : result (gmap nat (stat * stat) * gmap nat (stat * stat)
            * list (list (list Q))) :=
  match categories self with
  | [] => Raise (FeaturesError "No annotations loaded")
  | _ =>
    if negb (bool_decide (method = "mean") || bool_decide (method = "threshold"))
    then Raise (FeaturesError ("Stats method " +:+ method +:+ " unknown"))
    else if bool_decide (labels self = ∅)
    then Raise (FeaturesError
                  "No annotations provided, unableto calculate feature stats.")
    else
      act ← activation_stats self method threshold (slides self) ∅;
      category_stats ← mapM (fun c =>
          ss ← slides_of (labels self) c (slides self);
          mapM (dict_get act) ss) (used_categories self);
      '(tile_stats, pt_stats) ←
          stats_loop self category_stats (∅, ∅) (seq 0 (num_features self));
      Ok (tile_stats, pt_stats, category_stats)
  end.

End Stats.

(** [scipy.stats.f_oneway] on degenerate input, as its documentation gives
    it: fewer than two groups are refused; an empty group, or groups of one
    value each, give (NaN, NaN); when every value of every group is the same
    the result is (NaN, NaN); when every group is constant and two groups
    differ the result is (inf, 0).  Other inputs go to [generic]. *)
Definition group_constant (g : list Q) : bool :=
  match g with
  | [] => true
  | x :: rest => forallb (Qeq_bool x) rest
  end.

Definition all_same (groups : list (list Q)) : bool :=
  group_constant (concat groups).

Definition f_oneway_degenerate (generic : list (list Q) -> stat * stat)
  (groups : list (list Q)) : result (stat * stat) :=
  if (length groups <? 2)%nat then Raise TypeError
  else if existsb (fun g => (length g =? 0)%nat) groups then Ok (NaN, NaN)
  else if forallb (fun g => (length g =? 1)%nat) groups then Ok (NaN, NaN)
  else if all_same groups then Ok (NaN, NaN)
  else if forallb group_constant groups then Ok (PosInf, Finite 0)
  else Ok (generic groups).

(** *** Sample inputs *)

(** One slide of two tiles and one feature, both tiles above 0.5. *)
Definition two_tiles : ndarray2 := mkArray [[0.9%Q]; [0.8%Q]] 1.

(** Two slides in two categories; within a slide every tile has the same
    activation. *)
Definition constant_slides : DatasetFeatures :=
  mkFeatures ["a"; "b"]
    (<["a" := mkArray [[1%Q]; [1%Q]] 1]>
       (<["b" := mkArray [[2%Q]; [2%Q]] 1]> ∅))
    (<["a" := "x"]> (<["b" := "y"]> ∅))
    ["x"; "y"] ["x"; "y"] 1.

(** Two slides in two categories with the same activation everywhere. *)
Definition identical_slides : DatasetFeatures :=
  mkFeatures ["a"; "b"]
    (<["a" := mkArray [[1%Q]; [1%Q]] 1]>
       (<["b" := mkArray [[1%Q]; [1%Q]] 1]> ∅))
    (<["a" := "x"]> (<["b" := "y"]> ∅))
    ["x"; "y"] ["x"; "y"] 1.

(** *** [softmax_percent] and [softmax_predict] *)

(** [np.argmax] of a non-empty vector: the position of the first largest
    entry. *)
Fixpoint argmax_from (best : Q) (best_i i : nat) (l : list Q) : nat :=
  match l with
  | [] => best_i
  | x :: rest =>
      if Qgtb x best then argmax_from x i (S i) rest
      else argmax_from best best_i (S i) rest
  end.

Definition argmax (l : list Q) : result nat :=
  match l with
  | [] => Raise (ValueError "attempt to get argmax of an empty sequence")
  | x :: rest => Ok (argmax_from x 0 1 rest)
  end.

(** The position of the first NaN ([None]) of a vector of floats. *)
Fixpoint find_nan (i : nat) (l : list (option Q)) : option nat :=
  match l with
  | [] => None
  | None :: _ => Some i
  | Some _ :: rest => find_nan (S i) rest
  end.

(** [np.argmax] of a vector of floats: a NaN counts as the largest entry,
    so the first NaN wins when there is one. *)
Definition argmax_float (l : list (option Q)) : result nat :=
  match find_nan 0 l with
  | Some i => Ok i
  | None => argmax (omap id l)
  end.

(** A column index of an array with [n] columns, counted from the end when
    negative. *)
Definition column_index (n : nat) (i : Z) : result nat :=
  let j := if i <? 0 then i + Z.of_nat n else i in
  if (j <? 0) || (Z.of_nat n <=? j) then Raise IndexError
  else Ok (Z.to_nat j).

(** [a[:, idx]] for a list of column indices. *)
Definition select_columns (a : ndarray2) (idx : list Z)
  : result (list (list Q)) :=
  js ← mapM (column_index (ncols a)) idx;
  Ok (map (fun r => map (fun j => default 0%Q (r !! j)) js) (rows a)).

(** [np.argmax(m, axis=1)]: an empty reduction axis is refused even when
    there is no row. *)
Definition argmax_axis1 (width : nat) (m : list (list Q))
  : result (list nat) :=
  if (width =? 0)%nat
  then Raise (ValueError "attempt to get argmax of an empty sequence")
  else mapM argmax m.

(** [max(l)] of a non-empty list. *)
Definition list_max (x : Z) (rest : list Z) : Z := foldr Z.max x rest.

(** The filter the two methods work with. *)
Definition effective_filter (num_classes : nat)
  (prediction_filter : option (list Z)) : result (list Z) :=
  match prediction_filter with
  | Some (x :: rest) =>
      if list_max x rest <=? Z.of_nat num_classes then Ok (x :: rest)
      else Raise AssertionError
  | _ => Ok (map Z.of_nat (seq 0 num_classes))
  end.

(** [np.count_nonzero(tile_pred == logit)] *)
Definition count_eq (tile_pred : list nat) (logit : nat) : nat :=
  length (filter (fun p => p = logit) tile_pred).

(** [count / n] for a numpy integer [count] that is at most [n]: for a
    slide without tiles both are zero and the quotient is NaN (numpy warns
    and goes on). *)
Definition share (count n : nat) : option Q :=
  if (n =? 0)%nat then None
  else Some (inject_Z (Z.of_nat count) / inject_Z (Z.of_nat n))%Q.

(** The body of the loop over the slides: the vector [slide_perc]. *)
Definition slide_perc (num_classes : nat) (filt : list Z) (a : ndarray2)
  : result (list (option Q)) :=
  m ← select_columns a filt;
  tile_pred ← argmax_axis1 (length filt) m;
  Ok (map (fun logit => share (count_eq tile_pred logit) (length tile_pred))
          (seq 0 num_classes)).

(** One round for every slide of a dictionary, the results filed under the
    same keys. *)
Definition for_each_slide {A} (f : ndarray2 -> result A)
  (predictions : gmap string ndarray2) : result (gmap string A) :=
  kvs ← mapM (fun kv => v ← f kv.2; Ok (kv.1, v))
             (map_to_list predictions);
  Ok (list_to_map kvs).


Definition softmax_predict (predictions : gmap string ndarray2)
  (num_classes : nat) (prediction_filter : option (list Z))
  : result (gmap string nat) :=
  filt ← effective_filter num_classes prediction_filter;
  for_each_slide (fun a =>
                    perc ← slide_perc num_classes filt a;
                    argmax_float perc)
                 predictions.

(** Two tiles over three classes; the second and third class win one tile
    each. *)
Definition three_class_tiles : ndarray2 :=
  mkArray [[0.1; 0.7; 0.2]%Q; [0.2; 0.3; 0.5]%Q] 3.

(** A slide without tiles. *)
Definition no_tiles : ndarray2 := mkArray [] 3.

End Features.

(** ** [slideflow/studio/widgets/mil.py] *)

Module Studio.

(** A tile width in microns is a number or a magnification label. *)
Inductive um : Type :=
| UmInt (z : Z)
| UmStr (s : string).

#[export] Instance um_eq_dec : EqDecision um.
Proof. solve_decision. Defined.

Definition um_repr (u : um) : string :=
  match u with
  | UmInt z => pretty z
  | UmStr s => s
  end.

(** The two entries of [extractor_params] read by the widget. *)
Record ExtractorParams : Type := mkExtractorParams {
  params_tile_px : Z;
  params_tile_um : um
}.

Record WSI : Type := mkWSI { wsi_tile_px : Z; wsi_tile_um : um }.

Record Toast : Type := mkToast {
  toast_text : string;
  toast_icon : string;
  toast_sticky : bool;
  toast_spinner : bool
}.

(** The part of the Studio viewer the widget touches. *)
Record Viewer : Type := mkViewer {
  wsi : option WSI;
  toasts : list Toast;
  message : option string
}.

(** A started thread, named by its target. *)
Inductive Thread : Type :=
| Started (target : string).

Record MILWidget : Type := mkWidget {
  viz : Viewer;
  extractor_params : option ExtractorParams;
  _rendering_message : string;
  _toast : option Toast;
  _thread : option Thread
}.

Definition create_toast (v : Viewer) (t : Toast) : Viewer :=
  mkViewer (wsi v) (toasts v ++ [t]) (message v).

Definition set_message (v : Viewer) (m : string) : Viewer :=
  mkViewer (wsi v) (toasts v) (Some m).

Definition with_viz (self : MILWidget) (v : Viewer) : MILWidget :=
  mkWidget v (extractor_params self) (_rendering_message self)
           (_toast self) (_thread self).

Definition mismatch_text (mil_px : Z) (mil_um : um) (px : Z) (u : um)
  : string :=
  "MIL model tile size (tile_px=" +:+ pretty mil_px +:+ ", tile_um="
  +:+ um_repr mil_um +:+ ") does not match the currently loaded slide (tile_px="
  +:+ pretty px +:+ ", tile_um=" +:+ um_repr u +:+ ").".

(** [MILWidget.verify_tile_size]: the answer and the widget afterwards. *)
Definition verify_tile_size (self : MILWidget) : result (bool * MILWidget) :=
  match extractor_params self with
  | None => Raise TypeError
  | Some p =>
      let mil_tile_um := params_tile_um p in
      let mil_tile_px := params_tile_px p in
      match wsi (viz self) with
      | None => Raise AttributeError
      | Some w =>
          if negb (wsi_tile_px w =? mil_tile_px)
             || negb (bool_decide (wsi_tile_um w = mil_tile_um))
          then
            let t := mkToast (mismatch_text mil_tile_px mil_tile_um
                                (wsi_tile_px w) (wsi_tile_um w))
                             "error" false false in
            Ok (false, with_viz self (create_toast (viz self) t))
          else Ok (true, self)
      end
  end.

(** [MILWidget.predict_slide].  Starting the worker thread is recorded in
    [_thread]; what the worker then does is not part of this function. *)
Definition predict_slide (self : MILWidget) : result MILWidget :=
  '(ok, self) ← verify_tile_size self;
  if negb ok then Ok self
  else
    let v := set_message (viz self) (_rendering_message self) in
    let t := mkToast "Generating prediction" "info" true true in
    let v := create_toast v t in
    Ok (mkWidget v (extractor_params self) (_rendering_message self)
                 (Some t) (Some (Started "_predict_slide"))).

(** The prediction has been initiated when the worker thread exists. *)
Definition initiated (self : MILWidget) : bool :=
  match _thread self with Some _ => true | None => false end.

(** The tile sizes of the model and of the open slide agree. *)
Definition same_tile_size (p : ExtractorParams) (w : WSI) : Prop :=
  wsi_tile_px w = params_tile_px p /\ wsi_tile_um w = params_tile_um p.

(** *** Sample inputs *)

(** A widget whose model was trained on 299 px / 302 um tiles. *)
Definition widget_on (w : WSI) : MILWidget :=
  mkWidget (mkViewer (Some w) [] None)
           (Some (mkExtractorParams 299 (UmInt 302)))
           "Generating whole-slide prediction..." None None.

Definition matching_slide : WSI := mkWSI 299 (UmInt 302).
Definition other_slide : WSI := mkWSI 512 (UmInt 302).

(** *** [_reshape_as_heatmap] *)

(** A cell of a float array: a number, or NaN ([None]).  Infinite values
    are not modelled. *)
Record Heatmap : Type := mkHeatmap {
  heat_shape : list nat;
  cells : list (option Q)
}.

(** [np.full(n, np.nan)] *)
Definition full_nan (n : Z) : result (list (option Q)) :=
  if n <? 0 then Raise (ValueError "negative dimensions are not allowed")
  else Ok (replicate (Z.to_nat n) None).

(** A position of an array of [n] cells, counted from the end when
    negative. *)
Definition position (n : nat) (i : Z) : result nat :=
  let j := if i <? 0 then i + Z.of_nat n else i in
  if (j <? 0) || (Z.of_nat n <=? j) then Raise IndexError
  else Ok (Z.to_nat j).

(** The values broadcast to the number of indices: as many values as
    indices, or a single one. *)
Definition broadcast (n : nat) (values : list (option Q))
  : result (list (option Q)) :=
  if (length values =? n)%nat then Ok values
  else match values with
       | [v] => Ok (replicate n v)
       | _ => Raise (ValueError "shape mismatch")
       end.

(** [a[idx] = values]: the shapes are matched first, then the indices are
    checked; a repeated index keeps the last value written. *)
Definition assign (a : list (option Q)) (idx : list Z)
  (values : list (option Q)) : result (list (option Q)) :=
  vs ← broadcast (length idx) values;
  js ← mapM (position (length a)) idx;
  Ok (foldl (fun h jv => <[jv.1 := jv.2]> h) a (zip js vs)).

Definition qmin (a b : Q) : Q := if Qle_bool a b then a else b.
Definition qmax (a b : Q) : Q := if Qle_bool a b then b else a.

(** The cells that are not NaN. *)
Definition numbers (a : list (option Q)) : list Q := omap id a.

(** [np.nanmin] and [np.nanmax]: NaN when every cell is NaN. *)
Definition nanmin (a : list (option Q)) : option Q :=
  match numbers a with
  | [] => None
  | x :: rest => Some (foldr qmin x rest)
  end.

Definition nanmax (a : list (option Q)) : option Q :=
  match numbers a with
  | [] => None
  | x :: rest => Some (foldr qmax x rest)
  end.

(** [(x - lo) / (hi - lo)] on floats: NaN when an operand is NaN, and when
    [hi = lo] (then [x - lo] is zero too, and 0/0 is NaN). *)
Definition normalise (lo hi x : option Q) : option Q :=
  match x, lo, hi with
  | Some x, Some lo, Some hi =>
      if Qeq_bool hi lo then None else Some ((x - lo) / (hi - lo))%Q
  | _, _, _ => None
  end.

Definition _reshape_as_heatmap (predictions : list (option Q))
  (unmasked_indices : list Z) (original_shape : list nat)
  (total_elements : Z) : result Heatmap :=
  heatmap ← full_nan total_elements;
  heatmap ← assign heatmap unmasked_indices predictions;
  (* Reshape and normalize *)
  let new_shape := take 2 original_shape in
  if negb (numel new_shape =? length heatmap)%nat
  then Raise (ValueError "cannot reshape array")
  else
    let lo := nanmin heatmap in
    let hi := nanmax heatmap in
    Ok (mkHeatmap new_shape (map (normalise lo hi) heatmap)).

End Studio.

(** ** [slideflow/tfrecord/reader.py] *)

Module TFRecord.

Abbreviation byte := Byte.byte.

(** [struct.unpack("<Q", bs)] *)
Definition le64 (bs : list byte) : N :=
  foldr (fun b acc => (Byte.to_N b + 256 * acc)%N) 0%N bs.

(** How a generator stopped. *)
Inductive outcome : Type :=
| Done
| Raised (e : exn)
| OutOfFuel.

(** What a generator produced before it stopped.  The views yielded by the
    reader share one buffer; an item here is the content of the view at the
    time it is yielded. *)
Record stream : Type := mkStream {
  yielded : list (list byte);
  ended : outcome
}.

Definition yield (x : list byte) (s : stream) : stream :=
  mkStream (x :: yielded s) (ended s).

Definition fail (e : exn) : stream := mkStream [] (Raised e).

(** A second generator run after the first one returned. *)
Definition then_ (a b : stream) : stream :=
  match ended a with
  | Done => mkStream (yielded a ++ yielded b) (ended b)
  | _ => a
  end.

(** The open file: the bytes the reader sees and the size
    [os.path.getsize] reports for the path. *)
Record data_file : Type := mkFile { contents : list byte; getsize : nat }.

(** [file.readinto(buf)] at [pos] for a buffer of [k] bytes. *)
Definition readinto (f : data_file) (pos k : nat) : list byte :=
  take k (drop pos (contents f)).

(** A natural number as a double: rounded to 53 significant bits, ties to
    even. *)
Definition to_double (n : N) : N :=
  if (n <? 2 ^ 53)%N then n
  else
    let q := (2 ^ (N.log2 n - 52))%N in
    let m := (n / q)%N in
    let r := (n mod q)%N in
    let half := (q / 2)%N in
    if (r <? half)%N then (m * q)%N
    else if (half <? r)%N then ((m + 1) * q)%N
    else if N.even m then (m * q)%N
    else ((m + 1) * q)%N.

(** [int(length * 1.5)]: the length becomes a double, the product is
    rounded to a double (three halves of [x] is half the double nearest to
    [3 * x]), and [int] drops the fraction. *)
Definition grown (length : N) : N :=
  (to_double (3 * to_double length) / 2)%N.

Definition ssize_max : N := (2 ^ 63 - 1)%N.

(** The [while] loop of [read_records].  [buf] is [len(datum_bytes)]; every
    round that does not raise consumes at least 16 bytes. *)
Fixpoint read_loop (fuel : nat) (f : data_file) (pos : nat) (end_offset : Z)
  (buf : N) : stream :=
  match fuel with
  | O => mkStream [] OutOfFuel
  | S fuel =>
    if Z.of_nat pos <? end_offset then
      let length_bytes := readinto f pos 8 in
      if negb (List.length length_bytes =? 8)%nat
      then fail (RuntimeError "Failed to read the record size.")
      else
      let pos := (pos + 8)%nat in
      let crc_bytes := readinto f pos 4 in
      if negb (List.length crc_bytes =? 4)%nat
      then fail (RuntimeError "Failed to read the start token.")
      else
      let pos := (pos + 4)%nat in
      let len := le64 length_bytes in
      if (buf <? len)%N && (ssize_max <? grown len)%N
      then fail (OverflowError
             "Error reading tfrecords; please try regenerating index files")
      else
      let buf := if (buf <? len)%N then N.max buf (grown len) else buf in
      let datum_bytes_view := readinto f pos (N.to_nat len) in
      if negb (List.length datum_bytes_view =? N.to_nat len)%nat
      then fail (RuntimeError "Failed to read the record.")
      else
      let pos := (pos + N.to_nat len)%nat in
      let crc_bytes := readinto f pos 4 in
      if negb (List.length crc_bytes =? 4)%nat
      then fail (RuntimeError "Failed to read the end token.")
      else
      let pos := (pos + 4)%nat in
      yield datum_bytes_view (read_loop fuel f pos end_offset buf)
    else mkStream [] Done
  end.

(** [read_records(start_offset, end_offset)]; the caller's position is 0 when
    no start is given.  Seeking to a negative offset is refused. *)
Definition read_records (f : data_file) (buf : N)
  (start_offset end_offset : option Z) : stream :=
  match start_offset with
  | Some s =>
      if s <? 0 then fail (ValueError "negative seek position")
      else read_loop (S (List.length (contents f))) f (Z.to_nat s)
             (default (Z.of_nat (getsize f)) end_offset) buf
  | None =>
      read_loop (S (List.length (contents f))) f 0
        (default (Z.of_nat (getsize f)) end_offset) buf
  end.

(** The index array as loaded: one row (a 1-d array) or several rows, each
    row being (offset, length). *)
Inductive index_array : Type :=
| Index1D (row : Z * Z)
| Index2D (rows : list (Z * Z)).

(** Successive chunks of the given sizes. *)
Fixpoint chunks {A} (l : list A) (sizes : list nat) : list (list A) :=
  match sizes with
  | [] => []
  | s :: rest => take s l :: chunks (drop s l) rest
  end.

(** [np.array_split(ary, n)]: the first [len(ary) mod n] chunks get one
    element more than the others. *)
Definition section_sizes (total n : nat) : list nat :=
  (replicate (total mod n) (S (total / n))
   ++ replicate (n - total mod n) (total / n))%nat.

Definition array_split {A} (ary : list A) (n : Z) : result (list (list A)) :=
  if n <=? 0 then Raise (ValueError "number sections must be larger than 0.")
  else Ok (chunks ary (section_sizes (List.length ary) (Z.to_nat n))).

(** The [if clip:] block: the byte offset where reading stops (if any) and
    the index entries that are kept.  [index] is a numpy array, so
    [index[clip]] converts [clip] to a C long. *)
Definition clip_index (index : list Z) (clip : option Z)
  : result (option Z * list Z) :=
  let truthy := match clip with
                | Some c => negb (c =? 0)
                | None => false
                end in
  if truthy
  then let c := default 0 clip in
       clip_offset ← (if c =? Z.of_nat (List.length index)
                      then Ok None
                      else Some <$> np_getitem index c);
       Ok (clip_offset, slice_to index c)
  else Ok (None, index).

(** The [else] branch on [shard]: the byte range owned by the worker. *)
Definition shard_range (index : list Z) (clip_offset : option Z)
  (shard_idx shard_count : Z) : result (Z * option Z) :=
  all_shard_indices ← array_split index shard_count;
  own ← getitem all_shard_indices shard_idx;
  start_byte ← getitem own 0;
  end_byte ← (if shard_idx <? shard_count - 1
              then nxt ← getitem all_shard_indices (shard_idx + 1);
                   Some <$> getitem nxt 0
              else Ok clip_offset);
  Ok (start_byte, end_byte).

Section Iterator.

(** One draw of [np.random.choice]. *)
Variable random_choice : list Z -> result Z.

(** Errors raised before the first record is read. *)
Definition lift {A} (r : result A) (k : A -> stream) : stream :=
  match r with
  | Ok a => k a
  | Raise e => fail e
  end.

(** [tfrecord_iterator]; [buf] is the size of the initial read buffer. *)
Definition tfrecord_iterator (f : data_file) (index : option index_array)
  (shard : option (Z * Z)) (clip : option Z)
  (compression_type : option string) (random_start : bool) (buf : N)
  : stream :=
  if negb (bool_decide (compression_type = Some "gzip")
           || bool_decide (compression_type = None))
  then fail (ValueError "compression_type should be either 'gzip' or None")
  else
  match index with
  | None => read_records f buf None None
  | Some index =>
      let index := match index with
                   | Index1D r => [r]
                   | Index2D rs => rs
                   end in
      let index := map fst index in
      lift (clip_index index clip)
        (fun '(clip_offset, index) =>
           match shard with
           | None =>
               if random_start
               then lift (random_choice index) (fun offset =>
                      then_ (read_records f buf (Some offset) clip_offset)
                            (read_records f buf (Some 0) (Some offset)))
               else read_records f buf (Some 0) clip_offset
           | Some (shard_idx, shard_count) =>
               lift (shard_range index clip_offset shard_idx shard_count)
                 (fun '(start_byte, end_byte) =>
                    read_records f buf (Some start_byte) end_byte)
           end)
  end.

End Iterator.

(** *** Well-formed record files, for the statements of Part II *)

(** One record on disk: length header, start token, payload, end token. *)
Record frame : Type := mkFrame {
  hdr : list byte;
  crc1 : list byte;
  payload : list byte;
  crc2 : list byte
}.

Definition frame_bytes (fr : frame) : list byte :=
  hdr fr ++ crc1 fr ++ payload fr ++ crc2 fr.

Definition frame_ok (fr : frame) : Prop :=
  List.length (hdr fr) = 8%nat /\
  List.length (crc1 fr) = 4%nat /\
  List.length (crc2 fr) = 4%nat /\
  le64 (hdr fr) = N.of_nat (List.length (payload fr)) /\
  (grown (le64 (hdr fr)) <= ssize_max)%N.

Definition encode (frs : list frame) : list byte :=
  flat_map frame_bytes frs.

(** Byte offsets of the records of a file, the first one at [base]. *)
Fixpoint offsets (base : nat) (frs : list frame) : list Z :=
  match frs with
  | [] => []
  | fr :: rest =>
      Z.of_nat base :: offsets (base + List.length (frame_bytes fr)) rest
  end.

(** The index of a file agrees with its records. *)
Definition index_of (frs : list frame) (index : index_array) : Prop :=
  match index with
  | Index1D r => [fst r] = offsets 0 frs
  | Index2D rs => map fst rs = offsets 0 frs
  end.

(** How many index entries survive [clip]; [None] when [index[clip]] is out
    of range. *)
Definition kept (m : nat) (clip : option Z) : option nat :=
  match clip with
  | None => Some m
  | Some c =>
      if c =? 0 then Some m
      else if (0 <? c) && (c <=? Z.of_nat m) then Some (Z.to_nat c)
      else if (c <? 0) && (- Z.of_nat m <=? c) then Some (Z.to_nat (Z.of_nat m + c))
      else None
  end.

(** *** Sample inputs *)

(** A record with an empty payload: 16 bytes on disk. *)
Definition empty_frame : frame :=
  mkFrame (replicate 8 Byte.x00) (replicate 4 Byte.x00) []
          (replicate 4 Byte.x00).

(** A record with a payload of one byte. *)
Definition one_byte_frame (b : byte) : frame :=
  mkFrame (Byte.x01 :: replicate 7 Byte.x00) (replicate 4 Byte.x00) [b]
          (replicate 4 Byte.x00).

(** A raw file of the given records. *)
Definition file_of (frs : list frame) : data_file :=
  mkFile (encode frs) (List.length (encode frs)).

Definition two_records : list frame :=
  [one_byte_frame Byte.x0a; one_byte_frame Byte.x0b].

Definition two_records_index : index_array :=
  Index2D [(0, 17); (17, 17)].

Definition first_choice (l : list Z) : result Z := getitem l 0.

(** *** Further notions for the statements of Part II *)

(** A raw file holding the given bytes. *)
Definition file_of_bytes (bs : list byte) : data_file :=
  mkFile bs (List.length bs).

(** The items [xs], then the stream [s]. *)
Definition prepend (xs : list (list byte)) (s : stream) : stream :=
  mkStream (xs ++ yielded s) (ended s).


(** *** Decoding records: [process_feature], [extract_feature_dict] and the
    loaders *)

(** A protobuf [Feature]: one of its three list fields, or none. *)
Inductive Feature : Type :=
| BytesList (value : list (list byte))
| FloatList (value : list Q)
| Int64List (value : list Z)
| NoField.

(** A decoded array. *)
Inductive ndarray : Type :=
| Uint8Array (l : list byte)
| Float32Array (l : list Q)
| Int64Array (l : list Z).

(** The name of the field that is set: [feature.ListFields()[0][0].name]. *)
Definition inferred (f : Feature) : result string :=
  match f with
  | BytesList _ => Ok "bytes_list"
  | FloatList _ => Ok "float_list"
  | Int64List _ => Ok "int64_list"
  | NoField => Raise IndexError
  end.

(** [d[k]] on a dictionary given by its items. *)
Fixpoint assoc (d : list (string * string)) (k : string) : result string :=
  match d with
  | [] => Raise (KeyError k)
  | (k', v) :: rest => if decide (k' = k) then Ok v else assoc rest k
  end.

(** The dictionary both loaders build. *)
Definition typename_mapping : list (string * string) :=
  [("byte", "bytes_list"); ("float", "float_list"); ("int", "int64_list")].

(** [{v: k for k, v in mapping.items()}[x]]: the last key of a value wins. *)
Definition reversed_lookup (mapping : list (string * string)) (x : string)
  : result string :=
  assoc (map (fun kv => (snd kv, fst kv)) (reverse mapping)) x.

Definition process_feature (feature : Feature) (typename : option string)
  (mapping : list (string * string)) (key : string) : result ndarray :=
  inferred_typename ← inferred feature;
  _ ← match typename with
      | None => Ok tt
      | Some t =>
          tf_typename ← assoc mapping t;
          if negb (bool_decide (tf_typename = inferred_typename))
          then _ ← reversed_lookup mapping inferred_typename; Raise TypeError
          else Ok tt
      end;
  match feature with
  | BytesList value => Uint8Array <$> getitem value 0
  | FloatList value => Ok (Float32Array value)
  | Int64List value => Ok (Int64Array value)
  | NoField => Raise IndexError
  end.

(** What [extract_feature_dict] is given: the features of an [Example], the
    feature lists of a [SequenceExample], or something else. *)
Inductive message : Type :=
| Features (feature : gmap string Feature)
| FeatureLists (feature_list : gmap string (list Feature))
| OtherMessage.

(** A decoded entry: one array, or one array per step. *)
Inductive entry : Type :=
| Single (a : ndarray)
| Steps (l : list ndarray).

(** The description: [None], a list of keys, or a dictionary from keys to
    type names (or [None]). *)
Inductive description : Type :=
| NoDescription
| KeyList (keys : list string)
| TypedKeys (items : list (string * option string)).

(** [dict.fromkeys(keys, None).items()]: a repeated key is listed once. *)
Fixpoint fromkeys (keys : list string) (seen : list string)
  : list (string * option string) :=
  match keys with
  | [] => []
  | k :: rest =>
      if bool_decide (k ∈ seen) then fromkeys rest seen
      else (k, None) :: fromkeys rest (k :: seen)
  end.

Definition message_keys (m : message) : list string :=
  match m with
  | Features fs => (map_to_list fs).*1
  | FeatureLists fl => (map_to_list fl).*1
  | OtherMessage => []
  end.

(** [get_value(typename, typename_mapping, key)] for a key of the record. *)
Definition get_value (m : message) (mapping : list (string * string))
  (typename : option string) (key : string) : result entry :=
  match m with
  | Features fs =>
      match fs !! key with
      | Some f => Single <$> process_feature f typename mapping key
      | None => Raise (KeyError key)
      end
  | FeatureLists fl =>
      match fl !! key with
      | Some l =>
          Steps <$> mapM (fun f => process_feature f typename mapping key) l
      | None => Raise (KeyError key)
      end
  | OtherMessage => Raise TypeError
  end.

(** The loop of [extract_feature_dict] over the items of the description.
    The [KeyError] carries the missing key; the message of the source also
    lists the keys of the record. *)
Fixpoint extract_items (m : message) (mapping : list (string * string))
  (all_keys : list string) (items : list (string * option string))
  (processed_features : gmap string entry) : result (gmap string entry) :=
  match items with
  | [] => Ok processed_features
  | (key, typename) :: rest =>
      if negb (bool_decide (key ∈ all_keys))
      then Raise (KeyError key)
      else
        v ← get_value m mapping typename key;
        extract_items m mapping all_keys rest
                      (<[key := v]> processed_features)
  end.

Definition described (all_keys : list string) (d : description)
  : list (string * option string) :=
  match d with
  | NoDescription => fromkeys all_keys []
  | KeyList [] => fromkeys all_keys []
  | TypedKeys [] => fromkeys all_keys []
  | KeyList keys => fromkeys keys []
  | TypedKeys items => items
  end.

Definition extract_feature_dict (m : message) (d : description)
  (mapping : list (string * string)) : result (gmap string entry) :=
  match m with
  | OtherMessage => Raise TypeError
  | _ =>
      let all_keys := message_keys m in
      extract_items m mapping all_keys (described all_keys d) ∅
  end.

(** A generator of decoded records. *)
Record decoded (A : Type) : Type := mkDecoded {
  items : list A;
  final : outcome
}.
Arguments mkDecoded {A} items final.
Arguments items {A} d.
Arguments final {A} d.

(** [for record in it: yield decode(record)]: the first record that cannot
    be decoded ends the generator. *)
Fixpoint decode_each {A} (decode : list byte -> result A)
  (records : list (list byte)) (last : outcome) : decoded A :=
  match records with
  | [] => mkDecoded [] last
  | r :: rest =>
      match decode r with
      | Ok a =>
          let d := decode_each decode rest last in
          mkDecoded (a :: items d) (final d)
      | Raise e => mkDecoded [] (Raised e)
      end
  end.

(** The parameters [tfrecord_iterator] declares. *)
Definition tfrecord_iterator_params : list string :=
  ["data_path"; "index"; "shard"; "clip"; "compression_type"; "random_start";
   "datum_bytes"].

(** A call by keywords is refused when a keyword is not a parameter. *)
Definition accepts (params keywords : list string) : result unit :=
  if forallb (fun k => bool_decide (k ∈ params)) keywords then Ok tt
  else Raise TypeError.

Section Loaders.

Variable random_choice : list Z -> result Z.

(** [Example.ParseFromString] and [SequenceExample.ParseFromString]. *)
Variable parse_example : list byte -> result (gmap string Feature).
Variable parse_sequence :
  list byte -> result (gmap string Feature * gmap string (list Feature)).

Definition example_loader (f : data_file) (index : option index_array)
  (desc : description) (shard : option (Z * Z)) (clip : option Z)
  (compression_type : option string) (datum_bytes : option N)
  : decoded (gmap string entry) :=
  match accepts tfrecord_iterator_params
          ["data_path"; "index"; "shard"; "clip"; "compression_type";
           "datum_bytes"] with
  | Raise e => mkDecoded [] (Raised e)
  | Ok _ =>
      let record_iterator :=
        tfrecord_iterator random_choice f index shard clip compression_type
                          false (default (1024 * 1024)%N datum_bytes) in
      decode_each (fun record =>
                     example ← parse_example record;
                     extract_feature_dict (Features example) desc
                                          typename_mapping)
                  (yielded record_iterator) (ended record_iterator)
  end.

(** [sequence_loader] hands its index over as [index_path]. *)
Definition sequence_loader (f : data_file) (index_path : option index_array)
  (context_description features_description : description)
  (shard : option (Z * Z)) (clip : option Z)
  (compression_type : option string)
  : decoded (gmap string entry * gmap string entry) :=
  match accepts tfrecord_iterator_params
          ["data_path"; "index_path"; "shard"; "clip"; "compression_type"]
  with
  | Raise e => mkDecoded [] (Raised e)
  | Ok _ =>
      let record_iterator :=
        tfrecord_iterator random_choice f None shard clip compression_type
                          false (1024 * 1024) in
      decode_each (fun record =>
                     '(context, feature_lists) ← parse_sequence record;
                     c ← extract_feature_dict (Features context)
                            context_description typename_mapping;
                     fl ← extract_feature_dict (FeatureLists feature_lists)
                            features_description typename_mapping;
                     Ok (c, fl))
                  (yielded record_iterator) (ended record_iterator)
  end.

(** What [tfrecord_loader] returns: one of the two generators. *)
Inductive loaded : Type :=
| Examples (g : decoded (gmap string entry))
| Sequences (g : decoded (gmap string entry * gmap string entry)).

Definition tfrecord_loader (f : data_file) (index : option index_array)
  (desc : description) (shard : option (Z * Z)) (clip : option Z)
  (sequence_description : option description)
  (compression_type : option string) (datum_bytes : option N) : loaded :=
  match sequence_description with
  | Some sd =>
      Sequences (sequence_loader f index desc sd shard clip compression_type)
  | None =>
      Examples (example_loader f index desc shard clip compression_type
                               datum_bytes)
  end.

End Loaders.

(** *** Further notions for the statements on decoding *)

(** The type name the loaders use for the dtype of an array. *)
Definition dtype_name (a : ndarray) : string :=
  match a with
  | Uint8Array _ => "byte"
  | Float32Array _ => "float"
  | Int64Array _ => "int"
  end.

Definition has_dtype (t : string) (v : entry) : Prop :=
  match v with
  | Single a => dtype_name a = t
  | Steps l => Forall (fun a => dtype_name a = t) l
  end.

(** The keys a description asks for. *)
Definition requested (m : message) (d : description) : list string :=
  match d with
  | NoDescription => message_keys m
  | KeyList [] => message_keys m
  | TypedKeys [] => message_keys m
  | KeyList keys => keys
  | TypedKeys items => items.*1
  end.

(** What the loop of [example_loader] does with one record. *)
Definition decode_example
  (parse_example : list byte -> result (gmap string Feature))
  (desc : description) (record : list byte) : result (gmap string entry) :=
  example ← parse_example record;
  extract_feature_dict (Features example) desc typename_mapping.

(** A record of an image and its label. *)
Definition sample_features : gmap string Feature :=
  <["image" := BytesList [[Byte.x0a; Byte.x0b]]]>
    (<["label" := Int64List [3]]> ∅).

(** A parser that reads every record as [sample_features], except the
    record holding the single byte [0x0b]. *)
Definition sample_parse (record : list byte)
  : result (gmap string Feature) :=
  match record with
  | [b] => if Byte.eqb b Byte.x0b then Raise (ValueError "truncated")
           else Ok sample_features
  | _ => Ok sample_features
  end.

End TFRecord.

(** ** [slideflow/util/smac_utils.py] *)

Module SmacUtils.

(** Values a hyperparameter can take. *)
Inductive value : Type :=
| VInt (z : Z)
| VFloat (q : Q)
| VStr (s : string)
| VBool (b : bool).

(** The [ConfigSpace] hyperparameter objects the module builds. *)
Inductive hyperparameter : Type :=
| OrdinalHyperparameter (name : string) (sequence : list value)
    (default_value : value)
| CategoricalHyperparameter (name : string) (choices : list value)
    (default_value : value)
| UniformFloatHyperparameter (name : string) (lower upper : Q) (log : bool)
| UniformIntegerHyperparameter (name : string) (lower upper : Z) (log : bool).

Definition hp_name (h : hyperparameter) : string :=
  match h with
  | OrdinalHyperparameter n _ _ => n
  | CategoricalHyperparameter n _ _ => n
  | UniformFloatHyperparameter n _ _ _ => n
  | UniformIntegerHyperparameter n _ _ _ => n
  end.

Inductive condition : Type :=
| NotEqualsCondition (child parent : hyperparameter) (v : value)
| LessThanCondition (child parent : hyperparameter) (v : value).

Definition cond_child (c : condition) : hyperparameter :=
  match c with
  | NotEqualsCondition ch _ _ => ch
  | LessThanCondition ch _ _ => ch
  end.

Definition cond_parent (c : condition) : hyperparameter :=
  match c with
  | NotEqualsCondition _ p _ => p
  | LessThanCondition _ p _ => p
  end.

(** A configuration space: its hyperparameters by name and its conditions.
    The library's own validation of ranges, defaults and condition values is
    left out; it can only replace a returned space by an exception. *)
Record ConfigurationSpace : Type := mkSpace {
  hyperparameters : gmap string hyperparameter;
  conditions : list condition
}.

Definition empty_space : ConfigurationSpace := mkSpace ∅ [].

(** [cs.add_hyperparameter(h)]: a name can be added once. *)
Definition add_hyperparameter (cs : ConfigurationSpace) (h : hyperparameter)
  : result ConfigurationSpace :=
  match hyperparameters cs !! hp_name h with
  | Some _ => Raise (ValueError ("Hyperparameter already exists: " +:+ hp_name h))
  | None => Ok (mkSpace (<[hp_name h := h]> (hyperparameters cs))
                        (conditions cs))
  end.

(** [cs[name]] *)
Definition space_get (cs : ConfigurationSpace) (name : string)
  : result hyperparameter :=
  match hyperparameters cs !! name with
  | Some h => Ok h
  | None => Raise (KeyError name)
  end.

(** [cs.add_condition(c)]: child and parent must belong to the space. *)
Definition add_condition (cs : ConfigurationSpace) (c : condition)
  : result ConfigurationSpace :=
  _ ← space_get cs (hp_name (cond_child c));
  _ ← space_get cs (hp_name (cond_parent c));
  Ok (mkSpace (hyperparameters cs) (conditions cs ++ [c])).

(** Numeric reading of a value, for [<]. *)
Definition as_number (v : value) : option Q :=
  match v with
  | VInt z => Some (inject_Z z)
  | VFloat q => Some q
  | VBool b => Some (if b then 1%Q else 0%Q)
  | VStr _ => None
  end.

(** Python's [==] on values: numbers compare by magnitude. *)
Definition value_eqb (a b : value) : bool :=
  match as_number a, as_number b with
  | Some x, Some y => Qeq_bool x y
  | None, None =>
      match a, b with
      | VStr s, VStr t => bool_decide (s = t)
      | _, _ => false
      end
  | _, _ => false
  end.

(** A configuration gives a value to every active hyperparameter. *)
Definition configuration : Type := gmap string value.

(** Whether a condition lets its child be sampled under a configuration: the
    parent must have a value, and that value must pass the test. *)
Definition condition_holds (cfg : configuration) (c : condition) : bool :=
  match c with
  | NotEqualsCondition _ p v =>
      match cfg !! hp_name p with
      | Some x => negb (value_eqb x v)
      | None => false
      end
  | LessThanCondition _ p v =>
      match cfg !! hp_name p with
      | Some x =>
          match as_number x, as_number v with
          | Some a, Some b => negb (Qle_bool b a)
          | _, _ => false
          end
      | None => false
      end
  end.

(** A hyperparameter of the space is active under a configuration when every
    condition placed on it holds. *)
Definition is_active (cs : ConfigurationSpace) (cfg : configuration)
  (name : string) : bool :=
  forallb (fun c => if decide (hp_name (cond_child c) = name)
                    then condition_holds cfg c else true)
          (conditions cs).

(** Keyword arguments of [create_search_space]; every one defaults to
    [None], [early_stop] to [False].  Lists and pairs are as annotated, so the
    [isinstance] and [len] assertions of the source hold by typing, and so
    does the numeric test on [tile_px]. *)
Record search_args : Type := mkArgs {
  tile_px : option (list Z);
  tile_um : option (list (Z + string));
  augment : option (list string);
  normalizer : option (list string);
  normalizer_source : option (list string);
  model : option (list string);
  batch_size : option (list Z);
  dropout : option (Q * Q);
  l1 : option (Q * Q);
  l2 : option (Q * Q);
  l1_dense : option (Q * Q);
  l2_dense : option (Q * Q);
  learning_rate : option (Q * Q);
  learning_rate_decay : option (Q * Q);
  learning_rate_decay_steps : option (Z * Z);
  hidden_layers : option (list Z);
  hidden_layer_width : option (list Z);
  pooling : option (list string);
  trainable_layers : option (Z * Z);
  early_stop : bool
}.

Definition sorted (l : list Z) : list Z := merge_sort Z.le l.

(** An [if arg is not None:] block that adds one hyperparameter. *)
Definition when_given {T} (arg : option T) (cs : ConfigurationSpace)
  (build : T -> result hyperparameter) : result ConfigurationSpace :=
  match arg with
  | None => Ok cs
  | Some a => h ← build a; add_hyperparameter cs h
  end.

Definition ordinal (name : string) (l : list Z) : result hyperparameter :=
  let l := sorted l in
  d ← getitem l 0;
  Ok (OrdinalHyperparameter name (map VInt l) (VInt d)).

Definition categorical (name : string) (l : list string)
  : result hyperparameter :=
  d ← getitem l 0;
  Ok (CategoricalHyperparameter name (map VStr l) (VStr d)).

Definition uniform_float (name : string) (log : bool) (r : Q * Q)
  : result hyperparameter :=
  Ok (UniformFloatHyperparameter name (fst r) (snd r) log).

Definition uniform_int (name : string) (log : bool) (r : Z * Z)
  : result hyperparameter :=
  Ok (UniformIntegerHyperparameter name (fst r) (snd r) log).

Definition um_value (t : Z + string) : value :=
  match t with
  | inl z => VInt z
  | inr s => VStr s
  end.

Fixpoint ints_of (l : list (Z + string)) : option (list Z) :=
  match l with
  | [] => Some []
  | inl z :: rest => cons z <$> ints_of rest
  | inr _ :: _ => None
  end.

(** The [tile_um] block: ordinal over the sorted numbers when every entry is
    a number, categorical otherwise. *)
Definition tile_um_hp (l : list (Z + string)) : result hyperparameter :=
  match ints_of l with
  | Some zs => ordinal "tile_um" zs
  | None =>
      d ← getitem l 0;
      Ok (CategoricalHyperparameter "tile_um" (map um_value l) (um_value d))
  end.

(** An [if a is not None and b is not None:] block that adds a condition. *)
Definition when_both {A B} (a : option A) (b : option B)
  (cs : ConfigurationSpace) (build : ConfigurationSpace -> result condition)
  : result ConfigurationSpace :=
  match a, b with
  | Some _, Some _ => c ← build cs; add_condition cs c
  | _, _ => Ok cs
  end.

Definition create_search_space (a : search_args)
  : result ConfigurationSpace :=
  let cs := empty_space in
  (* Pre-processing *)
  cs ← when_given (tile_px a) cs (ordinal "tile_px");
  cs ← when_given (tile_um a) cs tile_um_hp;
  cs ← when_given (augment a) cs (categorical "augment");
  cs ← when_given (normalizer a) cs (categorical "normalizer");
  cs ← when_given (normalizer_source a) cs (categorical "normalizer_source");
  (* Model/architecture hyperparameters *)
  cs ← when_given (model a) cs (categorical "model");
  (* Training hyperparameters *)
  cs ← when_given (batch_size a) cs (ordinal "batch_size");
  cs ← when_given (dropout a) cs (uniform_float "dropout" false);
  cs ← when_given (l1 a) cs (uniform_float "l1" false);
  cs ← when_given (l2 a) cs (uniform_float "l2" false);
  cs ← when_given (l1_dense a) cs (uniform_float "l1_dense" false);
  cs ← when_given (l2_dense a) cs (uniform_float "l2_dense" false);
  cs ← when_given (learning_rate a) cs (uniform_float "learning_rate" true);
  cs ← when_given (learning_rate_decay a) cs
         (uniform_float "learning_rate_decay" false);
  cs ← when_given (learning_rate_decay_steps a) cs
         (uniform_int "learning_rate_decay_steps" true);
  cs ← when_given (hidden_layers a) cs (ordinal "hidden_layers");
  cs ← when_given (hidden_layer_width a) cs (ordinal "hidden_layer_width");
  cs ← when_given (pooling a) cs (categorical "pooling");
  cs ← when_given (trainable_layers a) cs (uniform_int "trainable_layers" false);
  (* [if early_stop:] builds a hyperparameter object and drops it. *)
  let _ := if early_stop a
           then Some (CategoricalHyperparameter "early_stop"
                        [VBool true; VBool false] (VBool false))
           else None in
  (* Conditions *)
  cs ← when_both (hidden_layers a) (hidden_layer_width a) cs (fun cs =>
         hl_width ← space_get cs "hidden_layer_width";
         hl ← space_get cs "hidden_layers";
         Ok (NotEqualsCondition hl_width hl (VInt 0)));
  cs ← when_both (learning_rate_decay a) (learning_rate_decay_steps a) cs
         (fun cs =>
         decay_steps ← space_get cs "learning_rate_decay_steps";
         decay ← space_get cs "learning_rate_decay";
         Ok (LessThanCondition decay_steps decay (VInt 1)));
  cs ← when_both (hidden_layers a) (l1_dense a) cs (fun cs =>
         child ← space_get cs "l1_dense";
         hl ← space_get cs "hidden_layers";
         Ok (NotEqualsCondition child hl (VInt 0)));
  cs ← when_both (hidden_layers a) (l2_dense a) cs (fun cs =>
         child ← space_get cs "l2_dense";
         hl ← space_get cs "hidden_layers";
         Ok (NotEqualsCondition child hl (VInt 0)));
  Ok cs.

(** *** The conditions by name *)

(** A condition read through the names of its child and parent. *)
Inductive cond_view : Type :=
| NotEquals (child parent : string) (v : value)
| LessThan (child parent : string) (v : value).

Definition view (c : condition) : cond_view :=
  match c with
  | NotEqualsCondition ch p v => NotEquals (hp_name ch) (hp_name p) v
  | LessThanCondition ch p v => LessThan (hp_name ch) (hp_name p) v
  end.

Definition both {A B} (a : option A) (b : option B) : bool :=
  match a, b with
  | Some _, Some _ => true
  | _, _ => false
  end.

(** The four inter-parameter conditions, each present when its governing
    parameters are. *)
Definition expected_conditions (a : search_args) : list cond_view :=
  (if both (hidden_layers a) (hidden_layer_width a)
   then [NotEquals "hidden_layer_width" "hidden_layers" (VInt 0)] else [])
  ++ (if both (learning_rate_decay a) (learning_rate_decay_steps a)
      then [LessThan "learning_rate_decay_steps" "learning_rate_decay" (VInt 1)]
      else [])
  ++ (if both (hidden_layers a) (l1_dense a)
      then [NotEquals "l1_dense" "hidden_layers" (VInt 0)] else [])
  ++ (if both (hidden_layers a) (l2_dense a)
      then [NotEquals "l2_dense" "hidden_layers" (VInt 0)] else []).

Definition view_child (v : cond_view) : string :=
  match v with
  | NotEquals ch _ _ => ch
  | LessThan ch _ _ => ch
  end.

(** The parent has a value and it differs from [v]. *)
Definition parent_differs (cfg : configuration) (parent : string) (v : value)
  : bool :=
  match cfg !! parent with
  | Some x => negb (value_eqb x v)
  | None => false
  end.

(** The parent has a numeric value and it is below [v]. *)
Definition parent_below (cfg : configuration) (parent : string) (v : value)
  : bool :=
  match cfg !! parent with
  | Some x =>
      match as_number x, as_number v with
      | Some a, Some b => negb (Qle_bool b a)
      | _, _ => false
      end
  | None => false
  end.

Definition view_holds (cfg : configuration) (v : cond_view) : bool :=
  match v with
  | NotEquals _ p x => parent_differs cfg p x
  | LessThan _ p x => parent_below cfg p x
  end.

(** Every hyperparameter is filed under its own name. *)
Definition names_ok (cs : ConfigurationSpace) : Prop :=
  forall k h, hyperparameters cs !! k = Some h -> hp_name h = k.

(** The names of the arguments that were supplied. *)
Definition given {T} (arg : option T) (n : string) : list string :=
  match arg with
  | Some _ => [n]
  | None => []
  end.

Definition given_names (a : search_args) : list string :=
  given (tile_px a) "tile_px" ++ given (tile_um a) "tile_um"
  ++ given (augment a) "augment" ++ given (normalizer a) "normalizer"
  ++ given (normalizer_source a) "normalizer_source"
  ++ given (model a) "model" ++ given (batch_size a) "batch_size"
  ++ given (dropout a) "dropout" ++ given (l1 a) "l1" ++ given (l2 a) "l2"
  ++ given (l1_dense a) "l1_dense" ++ given (l2_dense a) "l2_dense"
  ++ given (learning_rate a) "learning_rate"
  ++ given (learning_rate_decay a) "learning_rate_decay"
  ++ given (learning_rate_decay_steps a) "learning_rate_decay_steps"
  ++ given (hidden_layers a) "hidden_layers"
  ++ given (hidden_layer_width a) "hidden_layer_width"
  ++ given (pooling a) "pooling"
  ++ given (trainable_layers a) "trainable_layers".

(** The arguments with another [early_stop] flag. *)
Definition with_early_stop (a : search_args) (b : bool) : search_args :=
  mkArgs (tile_px a) (tile_um a) (augment a) (normalizer a)
    (normalizer_source a) (model a) (batch_size a) (dropout a) (l1 a) (l2 a)
    (l1_dense a) (l2_dense a) (learning_rate a) (learning_rate_decay a)
    (learning_rate_decay_steps a) (hidden_layers a) (hidden_layer_width a)
    (pooling a) (trainable_layers a) b.

(** A keyword argument of a preset: left out, or given (possibly [None]). *)
Inductive kwarg (T : Type) : Type :=
| Omitted
| Given (v : T).
Arguments Omitted {T}.
Arguments Given {T} v.

Definition resolve {T} (dflt : T) (a : kwarg T) : T :=
  match a with
  | Omitted => dflt
  | Given v => v
  end.

(** Keyword arguments of a preset call: the preset's own parameters and the
    ones it forwards through [**kwargs]. *)
Record preset_kwargs : Type := mkKwargs {
  kw_tile_px : kwarg (option (list Z));
  kw_tile_um : kwarg (option (list (Z + string)));
  kw_augment : kwarg (option (list string));
  kw_normalizer : kwarg (option (list string));
  kw_normalizer_source : kwarg (option (list string));
  kw_model : kwarg (option (list string));
  kw_batch_size : kwarg (option (list Z));
  kw_dropout : kwarg (option (Q * Q));
  kw_l1 : kwarg (option (Q * Q));
  kw_l2 : kwarg (option (Q * Q));
  kw_l1_dense : kwarg (option (Q * Q));
  kw_l2_dense : kwarg (option (Q * Q));
  kw_learning_rate : kwarg (option (Q * Q));
  kw_learning_rate_decay : kwarg (option (Q * Q));
  kw_learning_rate_decay_steps : kwarg (option (Z * Z));
  kw_hidden_layers : kwarg (option (list Z));
  kw_hidden_layer_width : kwarg (option (list Z));
  kw_pooling : kwarg (option (list string));
  kw_trainable_layers : kwarg (option (Z * Z));
  kw_early_stop : kwarg bool
}.

(** The keyword arguments with another [early_stop] entry. *)
Definition kw_with_early_stop (k : preset_kwargs) (e : kwarg bool)
  : preset_kwargs :=
  mkKwargs (kw_tile_px k) (kw_tile_um k) (kw_augment k) (kw_normalizer k)
    (kw_normalizer_source k) (kw_model k) (kw_batch_size k) (kw_dropout k)
    (kw_l1 k) (kw_l2 k) (kw_l1_dense k) (kw_l2_dense k) (kw_learning_rate k)
    (kw_learning_rate_decay k) (kw_learning_rate_decay_steps k)
    (kw_hidden_layers k) (kw_hidden_layer_width k) (kw_pooling k)
    (kw_trainable_layers k) e.

Definition no_kwargs : preset_kwargs :=
  mkKwargs Omitted Omitted Omitted Omitted Omitted Omitted Omitted Omitted
           Omitted Omitted Omitted Omitted Omitted Omitted Omitted Omitted
           Omitted Omitted Omitted Omitted.

Definition broad_search_space (k : preset_kwargs)
  : result ConfigurationSpace :=
  create_search_space {|
    tile_px := resolve None (kw_tile_px k);
    tile_um := resolve None (kw_tile_um k);
    augment := resolve None (kw_augment k);
    normalizer := resolve None (kw_normalizer k);
    normalizer_source := resolve None (kw_normalizer_source k);
    model := resolve None (kw_model k);
    batch_size := resolve (Some [8; 16; 32; 64]) (kw_batch_size k);
    dropout := resolve (Some (0, 0.5)%Q) (kw_dropout k);
    l1 := resolve (Some (0, 0.5)%Q) (kw_l1 k);
    l2 := resolve (Some (0, 0.5)%Q) (kw_l2 k);
    l1_dense := resolve (Some (0, 0.5)%Q) (kw_l1_dense k);
    l2_dense := resolve (Some (0, 0.5)%Q) (kw_l2_dense k);
    learning_rate := resolve (Some (0.00001, 0.001)%Q) (kw_learning_rate k);
    learning_rate_decay :=
      resolve (Some (0.95, 1)%Q) (kw_learning_rate_decay k);
    learning_rate_decay_steps :=
      resolve (Some (128, 1024)) (kw_learning_rate_decay_steps k);
    hidden_layers := resolve (Some [0; 1; 2; 3]) (kw_hidden_layers k);
    hidden_layer_width :=
      resolve (Some [64; 128; 256; 512]) (kw_hidden_layer_width k);
    pooling := resolve None (kw_pooling k);
    trainable_layers := resolve None (kw_trainable_layers k);
    early_stop := resolve false (kw_early_stop k)
  |}.

Definition shallow_search_space (k : preset_kwargs)
  : result ConfigurationSpace :=
  create_search_space {|
    tile_px := resolve None (kw_tile_px k);
    tile_um := resolve None (kw_tile_um k);
    augment := resolve None (kw_augment k);
    normalizer := resolve None (kw_normalizer k);
    normalizer_source := resolve None (kw_normalizer_source k);
    model := resolve None (kw_model k);
    batch_size := resolve (Some [8; 16; 32; 64]) (kw_batch_size k);
    dropout := resolve (Some (0, 0.3)%Q) (kw_dropout k);
    l1 := resolve None (kw_l1 k);
    l2 := resolve (Some (0, 0.3)%Q) (kw_l2 k);
    l1_dense := resolve None (kw_l1_dense k);
    l2_dense := resolve (Some (0, 0.3)%Q) (kw_l2_dense k);
    learning_rate := resolve (Some (0.00005, 0.0005)%Q) (kw_learning_rate k);
    learning_rate_decay := resolve None (kw_learning_rate_decay k);
    learning_rate_decay_steps :=
      resolve None (kw_learning_rate_decay_steps k);
    hidden_layers := resolve (Some [0; 1; 2]) (kw_hidden_layers k);
    hidden_layer_width := resolve None (kw_hidden_layer_width k);
    pooling := resolve None (kw_pooling k);
    trainable_layers := resolve None (kw_trainable_layers k);
    early_stop := resolve false (kw_early_stop k)
  |}.

(** *** Sample inputs *)

(** No argument at all. *)
Definition no_args : search_args :=
  mkArgs None None None None None None None None None None None None None
         None None None None None None false.

(** [hidden_layers=[0, 1, 2]], [hidden_layer_width=[64, 128]], the dense
    regularisers and a decay schedule, with [early_stop=True]. *)
Definition sample_args : search_args :=
  mkArgs None None None None None None None None None None
         (Some (0, 0.5)%Q) (Some (0, 0.5)%Q) None
         (Some (0.95, 1)%Q) (Some (128, 1024))
         (Some [0; 1; 2]) (Some [128; 64]) None None true.

(** *** Further notions for the statements of Part II *)

(** The space holds the hyperparameter a block has built, under its name. *)
Definition built (cs : ConfigurationSpace) (r : result hyperparameter)
  : Prop :=
  exists h, r = Ok h /\ hyperparameters cs !! hp_name h = Some h.

(** The hyperparameters a condition is placed on. *)
Definition conditional_names : list string :=
  ["hidden_layer_width"; "learning_rate_decay_steps"; "l1_dense"; "l2_dense"].

(** The four arguments that are sorted lists of integers. *)
Definition ordinal_args (a : search_args) : list (string * option (list Z)) :=
  [("tile_px", tile_px a); ("batch_size", batch_size a);
   ("hidden_layers", hidden_layers a);
   ("hidden_layer_width", hidden_layer_width a)].

(** Some list argument is supplied as an empty list. *)
Definition has_empty_list (a : search_args) : Prop :=
  tile_px a = Some [] \/ tile_um a = Some [] \/ augment a = Some [] \/
  normalizer a = Some [] \/ normalizer_source a = Some [] \/
  model a = Some [] \/ batch_size a = Some [] \/ hidden_layers a = Some [] \/
  hidden_layer_width a = Some [] \/ pooling a = Some [].

(** [sample_args] with an empty list of batch sizes. *)
Definition empty_batch_args : search_args :=
  mkArgs None None None None None None (Some []) None None None
         (Some (0, 0.5)%Q) (Some (0, 0.5)%Q) None
         (Some (0.95, 1)%Q) (Some (128, 1024))
         (Some [0; 1; 2]) (Some [128; 64]) None None true.

End SmacUtils.

(** ** [slideflow/model/utils.py] (legacy batch-file parser) *)

Module ModelUtils.

(** Attribute values of a [HyperParameters] object. *)
#[warnings="-register-all"]
Inductive attr : Type :=
| ABool (b : bool)
| AInt (z : Z)
| AFloat (q : Q)
| AStr (s : string)
| AList (items : list attr)
| ANone.

(** ASCII lower-casing.  [str.lower] also rewrites letters outside ASCII, but
    none of them becomes a letter of the recognised words. *)
Definition lower_ascii (c : ascii) : ascii :=
  let n := nat_of_ascii c in
  if ((65 <=? n) && (n <=? 90))%nat then ascii_of_nat (n + 32) else c.

Fixpoint lower (s : string) : string :=
  match s with
  | EmptyString => EmptyString
  | String c rest => String (lower_ascii c) (lower rest)
  end.

Definition true_words : list string := ["true"; "yes"; "y"; "t"].
Definition false_words : list string := ["false"; "no"; "n"; "f"].

Definition dquote : string := String "034"%char EmptyString.

(** The message of the [ValueError] of the boolean branch. *)
Definition bool_error (value arg : string) : string :=
  "Unable to parse " +:+ dquote +:+ value +:+ dquote
  +:+ " for batch file argument " +:+ dquote +:+ arg +:+ dquote
  +:+ " into a bool.".

(** The boolean branch of [get_hp_from_row]. *)
Definition parse_bool (value arg : string) : result bool :=
  if bool_decide (lower value ∈ true_words) then Ok true
  else if bool_decide (lower value ∈ false_words) then Ok false
  else Raise (ValueError (bool_error value arg)).

(** [s.translate(str.maketrans({'[': '', ']': ''}))] *)
Fixpoint strip_brackets (s : string) : string :=
  match s with
  | EmptyString => EmptyString
  | String c rest =>
      if bool_decide (c = "["%char) || bool_decide (c = "]"%char)
      then strip_brackets rest
      else String c (strip_brackets rest)
  end.

(** [s.split(',')] *)
Fixpoint split_comma_aux (s : string) (cur : string) : list string :=
  match s with
  | EmptyString => [cur]
  | String c rest =>
      if bool_decide (c = ","%char)
      then cur :: split_comma_aux rest EmptyString
      else split_comma_aux rest (cur +:+ String c EmptyString)
  end.

Definition split_comma (s : string) : list string :=
  split_comma_aux s EmptyString.

(** [header.index(x)] *)
Fixpoint list_index (x : string) (l : list string) : result nat :=
  match l with
  | [] => Raise (ValueError (x +:+ " is not in list"))
  | y :: rest => if decide (y = x) then Ok O else S <$> list_index x rest
  end.

Record state : Type := mkState {
  hp : gmap string attr;
  log_errors : list string
}.

Section Parser.

(** The parts of [HyperParameters] that live outside this file: the
    attributes of a fresh object and the names [_get_args] lists. *)
Variable fresh_hp : gmap string attr.
Variable _get_args : list string.

(** Python's [int(s)] and [float(s)]. *)
Variable py_int : string -> result Z.
Variable py_float : string -> result Q.

(** [arg_type(value)] for the type of the attribute's current value. *)
Definition construct (current : attr) (value : string) : result attr :=
  match current with
  | ABool _ => Ok (ABool (negb (bool_decide (value = EmptyString))))
  | AInt _ => AInt <$> py_int value
  | AFloat _ => AFloat <$> py_float value
  | AStr _ => Ok (AStr value)
  | AList _ =>
      Ok (AList (map (fun c => AStr (String c EmptyString))
                     (list_ascii_of_string value)))
  | ANone => Raise TypeError
  end.

Definition is_bool (a : attr) : bool :=
  match a with ABool _ => true | _ => false end.

(** One round of the loop over the columns. *)
Definition set_arg (st : state) (arg value : string) : result state :=
  if bool_decide (arg ∈ _get_args) then
    if negb (bool_decide (arg = "epochs")) then
      match hp st !! arg with
      | None => Raise AttributeError
      | Some current =>
          if is_bool current then
            bool_val ← parse_bool value arg;
            Ok (mkState (<[arg := ABool bool_val]> (hp st)) (log_errors st))
          else if bool_decide (arg = "L2_weight") || bool_decide (arg = "dropout")
          then
            x ← py_float value;
            Ok (mkState (<[arg := AFloat x]> (hp st)) (log_errors st))
          else
            x ← construct current value;
            Ok (mkState (<[arg := x]> (hp st)) (log_errors st))
      end
    else
      epochs ← mapM py_int (split_comma (strip_brackets value));
      Ok (mkState (<[arg := AList (map AInt epochs)]> (hp st)) (log_errors st))
  else
    Ok (mkState (hp st)
          (log_errors st
           ++ ["Unknown argument '" +:+ arg +:+ "' found in training config file."])).

(** [row[header.index(arg)]] *)
Definition cell (row header : list string) (arg : string) : result string :=
  i ← list_index arg header;
  getitem row (Z.of_nat i).

Fixpoint set_args (row header : list string) (st : state)
  (args : list string) : result state :=
  match args with
  | [] => Ok st
  | arg :: rest =>
      value ← cell row header arg;
      st ← set_arg st arg value;
      set_args row header st rest
  end.

Definition get_hp_from_row (row header : list string)
  : result (state * string) :=
  model_name_i ← list_index "model_name" header;
  let args := take model_name_i header ++ drop (S model_name_i) header in
  model_name ← getitem row (Z.of_nat model_name_i);
  st ← set_args row header (mkState fresh_hp []) args;
  Ok (st, model_name).

End Parser.

(** [needle in haystack] on strings. *)
Fixpoint is_prefix (p s : string) : bool :=
  match p, s with
  | EmptyString, _ => true
  | String a p', String b s' => bool_decide (a = b) && is_prefix p' s'
  | String _ _, EmptyString => false
  end.

Fixpoint contains (s needle : string) : bool :=
  is_prefix needle s ||
  match s with
  | EmptyString => false
  | String _ rest => contains rest needle
  end.

(** *** Sample inputs *)

(** A hyperparameter object with one boolean field. *)
Definition sample_hp : gmap string attr := {["early_stop" := ABool false]}.
Definition sample_header : list string := ["early_stop"; "model_name"].
Definition no_int (s : string) : result Z := Raise (ValueError s).
Definition no_float (s : string) : result Q := Raise (ValueError s).

(** *** [to_onehot] *)

(** [np.zeros(max)] followed by [onehot[val] = 1]: a negative length is
    refused, a negative index counts from the end.  An index outside the
    array is refused with [IndexError] when it fits a C long and with
    [OverflowError] when it does not; an index inside an array always fits.
    Memory is not modelled: an array of any length can be made. *)
Definition to_onehot (val max : Z) : result (list Z) :=
  if max <? 0 then Raise (ValueError "negative dimensions are not allowed")
  else
    let onehot := replicate (Z.to_nat max) 0 in
    let j := if val <? 0 then val + max else val in
    if (j <? 0) || (max <=? j)
    then if fits_long val then Raise IndexError else Raise long_overflow
    else Ok (<[Z.to_nat j := 1]> onehot).

(** *** [get_hp_from_batch_file] *)

(** How a call of [get_hp_from_batch_file] can fail: with
    [sf.util.UserError], with [StopIteration] (an empty file has no header),
    or with an exception of the rows. *)
Inductive batch_error : Type :=
| UserError (msg : string)
| StopIteration
| RowError (e : exn).

Inductive call_result (A : Type) : Type :=
| Returned (a : A)
| Failed (e : batch_error).
Arguments Returned {A} a.
Arguments Failed {A} e.

(** An exception of the row parser leaves the function as it is. *)
Definition propagate {A} (r : result A) : call_result A :=
  match r with
  | Ok a => Returned a
  | Raise e => Failed (RowError e)
  end.

(** The validation loop over the rows: the requested names found so far. *)
Fixpoint check_rows (shown : string) (models : list string)
  (model_name_i : nat) (rows : list (list string))
  (valid_models : list string) : call_result (list string) :=
  match rows with
  | [] => Returned valid_models
  | row :: rest =>
      match getitem row (Z.of_nat model_name_i) with
      | Raise e => Failed (RowError e)
      | Ok model_name =>
          if bool_decide (model_name ∈ models) then
            if bool_decide (model_name ∈ valid_models)
            then Failed (RowError (ValueError
                   ("Duplicate model names found in " +:+ shown +:+ ".")))
            else check_rows shown models model_name_i rest
                            (valid_models ++ [model_name])
          else check_rows shown models model_name_i rest valid_models
      end
  end.

(** [', '.join(l)] *)
Fixpoint join_comma (l : list string) : string :=
  match l with
  | [] => EmptyString
  | [x] => x
  | x :: rest => x +:+ ", " +:+ join_comma rest
  end.

Section BatchFile.

Variable fresh_hp : gmap string attr.
Variable _get_args : list string.
Variable py_int : string -> result Z.
Variable py_float : string -> result Q.

(** [list(set(models))]: the order in which a set lists its elements. *)
Variable set_list : list string -> list string.

(** The parsing loop: every row is parsed, then kept if its model is
    requested (or if no model is). *)
Fixpoint parse_rows (models : list string) (header : list string)
  (rows : list (list string)) (hyperparameters : gmap string state)
  : call_result (gmap string state) :=
  match rows with
  | [] => Returned hyperparameters
  | row :: rest =>
      match get_hp_from_row fresh_hp _get_args py_int py_float row header with
      | Raise e => Failed (RowError e)
      | Ok (hp, hp_model_name) =>
          if negb (bool_decide (models = []))
             && negb (bool_decide (hp_model_name ∈ models))
          then parse_rows models header rest hyperparameters
          else parse_rows models header rest
                          (<[hp_model_name := hp]> hyperparameters)
      end
  end.

(** [get_hp_from_batch_file]; [file] holds the rows of the TSV file, the
    header first, and [shown] is the file name as printed in messages.
    [models] is [None] or a list of names. *)
Definition get_hp_from_batch_file (shown : string)
  (file : list (list string)) (models : option (list string))
  : call_result (gmap string state) :=
  let requested := default [] models in
  if match models with
     | Some l => negb (bool_decide (set_list l = l))
     | None => false
     end
  then Failed (UserError "Duplicate model names provided.")
  else
    match
      (if negb (bool_decide (requested = [])) then
         match file with
         | [] => Failed StopIteration
         | header :: rows =>
             match list_index "model_name" header with
             | Raise _ =>
                 Failed (RowError (ValueError
                   "Unable to find column 'model_name' in the batch training config file."))
             | Ok model_name_i =>
                 match check_rows shown requested model_name_i rows [] with
                 | Failed e => Failed e
                 | Returned valid_models =>
                     let missing_models :=
                       filter (fun m => m ∉ valid_models) requested in
                     if negb (bool_decide (missing_models = []))
                     then Failed (RowError (ValueError
                            ("Unable to find the following models in the batch train file: "
                             +:+ join_comma missing_models)))
                     else Returned tt
                 end
             end
         end
       else Returned tt)
    with
    | Failed e => Failed e
    | Returned _ =>
        match file with
        | [] => Failed StopIteration
        | header :: rows => parse_rows requested header rows ∅
        end
    end.

End BatchFile.

End ModelUtils.

(** * Part II: properties *)

(** ** Python conventions *)

Module PyProps.

Lemma slice_to_nonneg {A} (l : list A) (k : Z) :
  0 <= k -> slice_to l k = take (Z.to_nat k) l.
Proof.
  intros Hk. unfold slice_to.
  destruct (Z.ltb_spec k 0); [lia | reflexivity].
Qed.

Lemma bind_Ok {A B} (m : result A) (f : A -> result B) (b : B) :
  m ≫= f = Ok b -> exists a, m = Ok a /\ f a = Ok b.
Proof. destruct m as [a|e]; simpl; [eauto | discriminate]. Qed.

Lemma getitem_nat {A} (l : list A) (i : nat) (x : A) :
  l !! i = Some x -> getitem l (Z.of_nat i) = Ok x.
Proof.
  intros Hx. pose proof (lookup_lt_Some _ _ _ Hx) as Hlt.
  unfold getitem.
  destruct (Z.ltb_spec (Z.of_nat i) 0) as [?|_]; [lia|].
  destruct (Z.ltb_spec (Z.of_nat i) 0) as [?|_]; [lia|].
  destruct (Z.leb_spec (Z.of_nat (length l)) (Z.of_nat i)) as [?|_]; [lia|].
  simpl. rewrite Nat2Z.id, Hx. reflexivity.
Qed.

Lemma np_getitem_Ok {A} (l : list A) (i : Z) (x : A) :
  getitem l i = Ok x -> np_getitem l i = Ok x.
Proof. unfold np_getitem. now intros ->. Qed.

Lemma mapM_Ok_Forall {A B} (g : A -> result B) (l : list A) (r : list B) :
  mapM g l = Ok r -> Forall (fun x => exists y, g x = Ok y) l.
Proof.
  revert r. induction l as [|a l IH]; intros r H; simpl in H.
  - constructor.
  - destruct (g a) as [b|e] eqn:Ha; simpl in H; [|discriminate].
    destruct (mapM g l) as [bs|e]; simpl in H; [|discriminate].
    constructor; [eauto | apply (IH bs); reflexivity].
Qed.

End PyProps.

(** ** Fixed-size bags *)

Module MilDataProps.
Import PyProps.
Import MilData.

Lemma forallb_lt (n : nat) (l : list nat) :
  Forall (fun i => (i < n)%nat) l -> forallb (fun i => (i <? n)%nat) l = true.
Proof.
  induction 1 as [|i l Hi _ IH]; simpl; [reflexivity|].
  rewrite IH, andb_true_r. now apply Nat.ltb_lt.
Qed.

Lemma perm_seq_bound (p : list nat) (n : nat) :
  p ≡ₚ seq 0 n -> Forall (fun i => (i < n)%nat) p.
Proof.
  intros Hp. apply Forall_forall. intros i Hi.
  rewrite Hp in Hi. apply elem_of_seq in Hi. lia.
Qed.

Lemma perm_seq_NoDup (p : list nat) (n : nat) :
  p ≡ₚ seq 0 n -> NoDup p.
Proof. intros Hp. rewrite Hp. apply NoDup_seq. Qed.

(** Reading one block out of a concatenation of equally long blocks. *)
Lemma flat_map_block {A B} (f : A -> list B) (F : nat) (l : list A)
  (rest : list B) (k : nat) (x : A) :
  Forall (fun a => length (f a) = F) l ->
  l !! k = Some x ->
  take F (drop (k * F) (flat_map f l ++ rest)) = f x.
Proof.
  intros Hl. revert k. induction Hl as [|a l Ha _ IH]; intros k Hk.
  - discriminate.
  - destruct k as [|k]; simpl in *.
    + injection Hk as ->. rewrite <- app_assoc, drop_0.
      rewrite take_app_length' by done. reflexivity.
    + rewrite <- app_assoc.
      replace (F + k * F)%nat with (length (f a) + k * F)%nat by lia.
      rewrite <- drop_drop, drop_app_length. now apply IH.
Qed.

Lemma flat_map_length_const {A B} (f : A -> list B) (F : nat) (l : list A) :
  Forall (fun a => length (f a) = F) l ->
  length (flat_map f l) = (length l * F)%nat.
Proof.
  induction 1 as [|a l Ha _ IH]; simpl; [reflexivity|].
  rewrite length_app, IH, Ha. reflexivity.
Qed.

(** The padding block read back row by row. *)
Lemma zero_block (F k n : nat) (pre : list Q) (i : nat) :
  length pre = (k * F)%nat -> (k <= i < k + n)%nat ->
  take F (drop (i * F) (pre ++ replicate (n * F) 0%Q)) = replicate F 0%Q.
Proof.
  intros Hpre Hi.
  replace (i * F)%nat with (length pre + (i - k) * F)%nat by nia.
  rewrite <- drop_drop, drop_app_length, drop_replicate, take_replicate.
  f_equal. nia.
Qed.

Lemma row_in_range (bag : Tensor) (N F i : nat) :
  shape bag = [N; F] -> wf bag -> (i < N)%nat -> length (row bag i) = F.
Proof.
  intros Hs Hwf Hi. unfold row, stride. rewrite Hs. simpl.
  unfold wf in Hwf. rewrite Hs in Hwf. simpl in Hwf.
  rewrite length_take, length_drop. nia.
Qed.

Lemma cat_2d (a b F : nat) (d1 d2 : list Q) :
  cat (mkTensor [a; F] d1) (mkTensor [b; F] d2)
  = Ok (mkTensor [(a + b)%nat; F] (d1 ++ d2)).
Proof.
  unfold cat, cat_skips. simpl.
  destruct a, b; rewrite decide_True by done; reflexivity.
Qed.

(** What [_to_fixed_size_bag] computes on a 2-d bag, step by step. *)
Lemma fixed_size_bag_2d_eq (randperm : nat -> list nat) (N F : nat)
  (bag : Tensor) (S : Z) :
  randperm N ≡ₚ seq 0 N -> shape bag = [N; F] -> 0 <= S ->
  _to_fixed_size_bag randperm bag S =
    Ok (mkTensor [Z.to_nat S; F]
          (flat_map (row bag) (take (Z.to_nat S) (randperm N))
           ++ replicate ((Z.to_nat S - N) * F) 0%Q),
        Z.min S (Z.of_nat N)).
Proof.
  intros Hp Hs HS.
  assert (Hlen : length (randperm N) = N) by (rewrite Hp; apply length_seq).
  unfold _to_fixed_size_bag, dim, shape_at, index_select, len.
  rewrite Hs. simpl. rewrite slice_to_nonneg by done.
  rewrite forallb_lt
    by (apply Forall_take, perm_seq_bound, Hp).
  simpl. unfold zeros.
  rewrite length_take, Hlen.
  destruct (Z.ltb_spec (S - Z.of_nat (Z.to_nat S `min` N)) 0) as [Hneg|_];
    [exfalso; lia|].
  simpl. rewrite cat_2d. simpl.
  do 3 f_equal.
  - f_equal. lia.
  - do 2 f_equal. lia.
Qed.

(** C1. On a 2-d bag of shape [N, F] and a target size S,
    [_to_fixed_size_bag] returns a bag of exactly S rows and an effective
    length: S when N >= S; N when N < S, in which case rows N..S-1 are zero
    vectors.  The leading rows are rows of the input taken at pairwise
    distinct positions (the first S entries of the permutation drawn), and
    when N < S they are all the rows of the input. *)
Theorem fixed_size_bag_2d (randperm : nat -> list nat) (N F : nat)
  (bag : Tensor) (S : Z) :
  randperm N ≡ₚ seq 0 N -> shape bag = [N; F] -> wf bag -> 0 <= S ->
  exists padded eff idxs,
    _to_fixed_size_bag randperm bag S = Ok (padded, eff) /\
    shape padded = [Z.to_nat S; F] /\ wf padded /\
    (S <= Z.of_nat N -> eff = S) /\
    (Z.of_nat N < S ->
       eff = Z.of_nat N /\
       (forall i, (N <= i < Z.to_nat S)%nat ->
                  row padded i = replicate F 0%Q) /\
       idxs ≡ₚ seq 0 N) /\
    idxs = take (Z.to_nat S) (randperm N) /\
    NoDup idxs /\ Forall (fun i => (i < N)%nat) idxs /\
    length idxs = (Z.to_nat S `min` N)%nat /\
    (forall k i, idxs !! k = Some i -> row padded k = row bag i).
Proof.
  intros Hp Hs Hwf HS.
  assert (Hlen : length (randperm N) = N) by (rewrite Hp; apply length_seq).
  assert (Hb : Forall (fun i => (i < N)%nat) (take (Z.to_nat S) (randperm N)))
    by (apply Forall_take, perm_seq_bound, Hp).
  assert (Hrows : Forall (fun i => length (row bag i) = F)
                         (take (Z.to_nat S) (randperm N))).
  { eapply Forall_impl; [exact Hb|]. intros i Hi.
    eapply row_in_range; eauto. }
  eexists _, _, (take (Z.to_nat S) (randperm N)).
  split; [apply (fixed_size_bag_2d_eq randperm N F); assumption|].
  split; [reflexivity|].
  split.
  { unfold wf. simpl. rewrite length_app, length_replicate.
    rewrite (flat_map_length_const _ F) by assumption.
    rewrite length_take, Hlen. nia. }
  split; [lia|].
  split.
  { intros HN. split; [lia|]. split.
    - intros i Hi. unfold row, stride. simpl. rewrite Nat.mul_1_r.
      apply (zero_block F N).
      + rewrite (flat_map_length_const _ F) by assumption.
        rewrite length_take, Hlen. f_equal. lia.
      + lia.
    - rewrite take_ge by lia. exact Hp. }
  split; [reflexivity|].
  split; [eapply sublist_NoDup;
          [apply (perm_seq_NoDup _ N), Hp | apply sublist_take]|].
  split; [exact Hb|].
  split; [rewrite length_take, Hlen; reflexivity|].
  intros k i Hk. unfold row at 1, stride. simpl. rewrite Nat.mul_1_r.
  now apply flat_map_block.
Qed.

(** The statement above at a bag of three rows, padded to five. *)
Lemma fixed_size_bag_2d_witness :
  exists padded eff idxs,
    _to_fixed_size_bag (fun n => rev (seq 0 n))
      (mkTensor [3; 2]%nat [1; 2; 3; 4; 5; 6]%Q) 5 = Ok (padded, eff) /\
    shape padded = [Z.to_nat 5; 2%nat] /\ wf padded /\
    (5 <= Z.of_nat 3 -> eff = 5) /\
    (Z.of_nat 3 < 5 ->
       eff = Z.of_nat 3 /\
       (forall i, (3 <= i < Z.to_nat 5)%nat ->
                  row padded i = replicate 2 0%Q) /\
       idxs ≡ₚ seq 0 3) /\
    idxs = take (Z.to_nat 5) (rev (seq 0 3)) /\
    NoDup idxs /\ Forall (fun i => (i < 3)%nat) idxs /\
    length idxs = (Z.to_nat 5 `min` 3)%nat /\
    (forall k i, idxs !! k = Some i ->
       row padded k = row (mkTensor [3; 2]%nat [1; 2; 3; 4; 5; 6]%Q) i).
Proof.
  apply (fixed_size_bag_2d (fun n => rev (seq 0 n)) 3 2).
  - symmetry. apply Permutation_rev.
  - reflexivity.
  - reflexivity.
  - lia.
Defined.

(** *** Bags with more than two dimensions *)

(** The sampled entries keep every axis of the input, the padding block has
    two: [torch.cat] refuses the pair. *)
Lemma cat_rank_mismatch (k n1 n2 : nat) (rest : list nat) (d : list Q)
  (z : Tensor) (r c : nat) :
  shape z = [r; c] ->
  exists e, cat (mkTensor (k :: n1 :: n2 :: rest) d) z = Raise e.
Proof.
  intros Hz. unfold cat, cat_skips. rewrite Hz. simpl.
  destruct k, r; simpl; eexists; reflexivity.
Qed.

(** Whatever the permutation drawn and the target size, a bag with more
    than two dimensions makes [_to_fixed_size_bag] raise: the mean over
    axes 2 and 3 is computed (or fails, on three dimensions) and then left
    unused, and the rows are gathered from the input itself. *)
Lemma fixed_size_bag_nd_raises (randperm : nat -> list nat) (n0 n1 n2 : nat)
  (rest : list nat) (d : list Q) (S : Z) :
  exists e,
    _to_fixed_size_bag randperm (mkTensor (n0 :: n1 :: n2 :: rest) d) S
    = Raise e.
Proof.
  unfold _to_fixed_size_bag, dim. simpl.
  destruct rest as [|n3 rest]; simpl; [eexists; reflexivity|].
  unfold index_select. simpl.
  destruct (forallb _ _); simpl; [|eexists; reflexivity].
  unfold zeros.
  destruct (Z.ltb_spec (S - Z.of_nat (length (slice_to (randperm n0) S))) 0);
    simpl; [eexists; reflexivity|].
  match goal with
  | |- context [cat (mkTensor (?k :: _ :: _ :: ?r) ?dd) ?z] =>
      destruct (cat_rank_mismatch k n1 n2 r dd z _ _ eq_refl) as [e He]
  end.
  rewrite He. simpl. eexists; reflexivity.
Qed.

(** C2. On the 4-d bag [spatial_bag] with target size 1 the code raises at
    [torch.cat], whereas sampling from the averaged 2-d reduction, as
    specified, returns the single row [[3]] with effective length 1. *)
Theorem fixed_size_bag_ignores_reduction :
  _to_fixed_size_bag (seq 0) spatial_bag 1
    = Raise (RuntimeError "Tensors must have same number of dimensions") /\
  fixed_size_bag_spec (seq 0) spatial_bag 1
    = Ok (mkTensor [1; 1]%nat [3%Q], 1).
Proof. split; reflexivity. Qed.

(** *** Multi-bag datasets *)

(** [BagDataset._load] takes arrays and tensors as they are. *)
Lemma BagDataset_loads_arrays (fs : string -> option Tensor) (a : Tensor) :
  BagDataset_load fs (ItemNdarray a) = Ok a /\
  BagDataset_load fs (ItemTensor a) = Ok a.
Proof. split; reflexivity. Qed.

(** In a Python list of bags, a numpy array is refused: the second and third
    tests look at the list, not at the element. *)
Lemma load_bag_list_rejects_array (fs : string -> option Tensor)
  (items : list bag_item) (a : Tensor) :
  load_bag fs (BagsList items) (ItemNdarray a)
  = Raise (ValueError "Invalid bag type: <class 'numpy.ndarray'>").
Proof. reflexivity. Qed.

Lemma load_bag_list_rejects_tensor (fs : string -> option Tensor)
  (items : list bag_item) (t : Tensor) :
  load_bag fs (BagsList items) (ItemTensor t)
  = Raise (ValueError "Invalid bag type: <class 'torch.Tensor'>").
Proof. reflexivity. Qed.

(** Inside a numpy container an element of any other type reaches
    [torch.from_numpy], which raises a different error. *)
Lemma load_bag_array_other (fs : string -> option Tensor)
  (items : list bag_item) (n : string) :
  load_bag fs (BagsNdarray items) (ItemOther n) = Raise TypeError.
Proof. reflexivity. Qed.

(** C6. Accessing item 0 of [array_dataset] raises the 'Invalid bag type'
    error although its only bag element is a numeric array. *)
Theorem multibag_rejects_array (randperm : nat -> list nat)
  (fs : string -> option Tensor) :
  MultiBagDataset_getitem randperm fs array_dataset 0
  = Raise (ValueError "Invalid bag type: <class 'numpy.ndarray'>").
Proof. reflexivity. Qed.

(** *** What [_to_fixed_size_bag] accepts *)

(** X17. [_to_fixed_size_bag] returns only for 2-d bags: a bag with no
    axis, one axis, or more than two axes makes it raise, whatever the bag
    size and the permutation drawn. *)
Theorem fixed_size_bag_only_2d (randperm : nat -> list nat) (bag : Tensor)
  (S : Z) (r : Tensor * Z) :
  _to_fixed_size_bag randperm bag S = Ok r -> dim bag = 2%nat.
Proof.
  intros H. destruct bag as [sh d].
  destruct sh as [|n0 [|n1 [|n2 rest]]].
  - discriminate.
  - exfalso. unfold _to_fixed_size_bag in H. simpl in H.
    unfold index_select in H. simpl in H.
    destruct (forallb _ _); simpl in H; discriminate.
  - reflexivity.
  - exfalso.
    destruct (fixed_size_bag_nd_raises randperm n0 n1 n2 rest d S) as [e He].
    congruence.
Qed.

Lemma fixed_size_bag_only_2d_witness : dim small_bag = 2%nat.
Proof.
  apply (fixed_size_bag_only_2d (fun n => rev (seq 0 n)) small_bag 5
           (mkTensor [5; 2]%nat [5; 6; 3; 4; 1; 2; 0; 0; 0; 0]%Q, 3)).
  vm_compute. reflexivity.
Defined.

(** X18. A negative bag size is refused: the padding block would need a
    negative number of rows, so [torch.zeros] raises a [RuntimeError]. *)
Theorem fixed_size_bag_negative_size (randperm : nat -> list nat)
  (N F : nat) (bag : Tensor) (S : Z) :
  randperm N ≡ₚ seq 0 N -> shape bag = [N; F] -> S < 0 ->
  exists msg, _to_fixed_size_bag randperm bag S = Raise (RuntimeError msg).
Proof.
  intros Hp Hs Hneg. destruct bag as [sh d]. simpl in Hs. subst sh.
  unfold _to_fixed_size_bag. simpl.
  unfold index_select. simpl.
  unfold slice_to. replace (S <? 0) with true by (symmetry; lia).
  rewrite forallb_lt.
  2:{ apply Forall_take. apply perm_seq_bound. exact Hp. }
  simpl. unfold zeros.
  match goal with
  | |- context [if ?c then Raise _ else _] =>
      replace c with true by (symmetry; apply Z.ltb_lt; lia)
  end.
  simpl. eexists. reflexivity.
Qed.

Lemma fixed_size_bag_negative_size_witness :
  exists msg,
    _to_fixed_size_bag (fun n => rev (seq 0 n)) small_bag (-1)
    = Raise (RuntimeError msg).
Proof.
  apply (fixed_size_bag_negative_size (fun n => rev (seq 0 n)) 3 2).
  - simpl. apply (bool_decide_unpack _). vm_compute. reflexivity.
  - reflexivity.
  - lia.
Defined.

(** *** [BagDataset] *)

Lemma mapM_getitem {A B} (g : A -> result B) (l : list A) (r : list B)
  (i : Z) :
  mapM g l = Ok r ->
  getitem r i = (x ← getitem l i; g x).
Proof.
  intros H.
  assert (Hlen : length r = length l /\
                 forall k x, l !! k = Some x ->
                             exists y, r !! k = Some y /\ g x = Ok y).
  { revert r H. induction l as [|a l IH]; intros r H; simpl in H.
    - injection H as <-. split; [reflexivity|]. intros k x Hk. inversion Hk.
    - destruct (g a) as [b|e] eqn:Ha; simpl in H; [|discriminate].
      destruct (mapM g l) as [bs|e] eqn:Hl; simpl in H; [|discriminate].
      injection H as <-. destruct (IH bs eq_refl) as [IH1 IH2].
      split; [simpl; congruence|].
      intros [|k] x Hk; simpl in Hk.
      + injection Hk as <-. exists b. split; [reflexivity | exact Ha].
      + apply (IH2 k x Hk). }
  destruct Hlen as [Hlen Hall].
  unfold getitem. rewrite Hlen.
  destruct ((_ <? 0) || (_ <=? _)); [reflexivity|].
  generalize (Z.to_nat (if i <? 0 then i + Z.of_nat (length l) else i)).
  intros k. destruct (l !! k) as [x|] eqn:Hx.
  - destruct (Hall _ _ Hx) as (y & -> & Hy). simpl. now rewrite Hy.
  - apply lookup_ge_None in Hx. rewrite <- Hlen in Hx.
    apply lookup_ge_None in Hx. rewrite Hx. reflexivity.
Qed.

(** X19. Preloading changes nothing but the moment of loading: when a
    [BagDataset] can be built with [preload=True], it has the same length
    as the lazy dataset over the same bags and every index gives the same
    item (or the same exception). *)
Theorem preload_same_items (randperm : nat -> list nat)
  (fs : string -> option Tensor) (bags : list bag_item)
  (bag_size : option Z) (ds : BagDataset) (index : Z) :
  BagDataset_init fs bags bag_size true = Ok ds ->
  BagDataset_len ds = length bags /\
  BagDataset_getitem randperm fs ds index
  = BagDataset_getitem randperm fs (LazyBags bags bag_size) index.
Proof.
  unfold BagDataset_init. intros H.
  destruct (mapM (BagDataset_load fs) bags) as [loaded|e] eqn:Hl;
    simpl in H; [|discriminate].
  injection H as <-. split.
  - simpl. clear index. revert loaded Hl.
    induction bags as [|b bags IH]; intros loaded Hl; simpl in Hl.
    + injection Hl as <-. reflexivity.
    + destruct (BagDataset_load fs b); simpl in Hl; [|discriminate].
      destruct (mapM _ bags) as [bs|]; simpl in Hl; [|discriminate].
      injection Hl as <-. simpl. f_equal. apply IH. reflexivity.
  - simpl. rewrite (mapM_getitem _ _ _ index Hl).
    destruct (getitem bags index) as [b|e]; [|reflexivity]. simpl.
    destruct (BagDataset_load fs b); reflexivity.
Qed.

Lemma preload_same_items_witness :
  BagDataset_len (PreloadedBags [small_bag; small_bag] (Some 2)) = 2%nat /\
  BagDataset_getitem (fun n => rev (seq 0 n)) one_file
    (PreloadedBags [small_bag; small_bag] (Some 2)) (-1)
  = BagDataset_getitem (fun n => rev (seq 0 n)) one_file
      (LazyBags [ItemStr "a.pt"; ItemTensor small_bag] (Some 2)) (-1).
Proof.
  apply (preload_same_items (fun n => rev (seq 0 n)) one_file
           [ItemStr "a.pt"; ItemTensor small_bag] (Some 2)).
  vm_compute. reflexivity.
Defined.

(** *** [MultiBagDataset] *)

(** X20. When the bags of a slide are held in a Python list,
    [MultiBagDataset.__getitem__] returns only if every bag is a path:
    arrays and tensors are recognised by the type of the container, not of
    the bag, so a list holding one of them raises. *)
Theorem multibag_list_only_paths (randperm : nat -> list nat)
  (fs : string -> option Tensor) (self : MultiBagDataset) (index : Z)
  (items : list bag_item) (r : list (Tensor * Z)) :
  getitem (bags self) index = Ok (BagsList items) ->
  MultiBagDataset_getitem randperm fs self index = Ok r ->
  Forall is_path items.
Proof.
  intros Hb H. unfold MultiBagDataset_getitem in H. rewrite Hb in H.
  simpl in H.
  destruct (negb _); [discriminate|].
  destruct (mapM (load_bag fs (BagsList items)) items) as [loaded|e] eqn:Hl;
    simpl in H; [|discriminate].
  apply mapM_Ok_Forall in Hl.
  eapply Forall_impl; [exact Hl|].
  intros it [y Hy]. destruct it; simpl; try exact I; discriminate.
Qed.

Lemma multibag_list_only_paths_witness : Forall is_path [ItemStr "a.pt"].
Proof.
  apply (multibag_list_only_paths (fun n => rev (seq 0 n)) one_file
           path_dataset 0 [ItemStr "a.pt"] [(small_bag, 3)]).
  - reflexivity.
  - vm_compute. reflexivity.
Defined.

End MilDataProps.

(** ** Feature statistics *)

Module FeaturesProps.
Import Features.

(** With the threshold method, the slide-level value of a feature is the
    number of tiles above the threshold over the number of columns. *)
Lemma summarize_threshold (threshold : Q) (a : ndarray2) :
  summarize "threshold" threshold a
  = map (fun c => Qred (inject_Z (Z.of_nat c) / inject_Z (Z.of_nat (ncols a))))
        (count_above a threshold).
Proof. reflexivity. Qed.

(** C3. For the slide [two_tiles] (two tiles, one feature, both tiles above
    0.5) the threshold method stores 2 = 2 tiles / 1 feature, whereas the
    number of tiles above the threshold divided by the number of tiles
    is 1. *)
Theorem threshold_divides_by_feature_count :
  summarize "threshold" 0.5 two_tiles = [2%Q] /\
  threshold_fraction_spec 0.5 two_tiles = [1%Q] /\
  (exists act,
     activation_stats (mkFeatures ["s"] (<["s" := two_tiles]> ∅) ∅ [] [] 1)
       "threshold" 0.5 ["s"] ∅ = Ok act /\
     act !! "s" = Some [2%Q]).
Proof.
  split; [reflexivity|]. split; [reflexivity|].
  eexists. split; [reflexivity|]. reflexivity.
Qed.

(** *** The ANOVA sentinel *)

Lemma anova_entry_nan (r : stat * stat) :
  isnan (fst r) || isnan (snd r) = true -> anova_entry r = sentinel.
Proof.
  destruct r as [[] []]; simpl; intros H; try discriminate; reflexivity.
Qed.

Lemma anova_entry_keep (r : stat * stat) :
  isnan (fst r) || isnan (snd r) = false -> anova_entry r = r.
Proof.
  destruct r as [[] []]; simpl; intros H; try discriminate; reflexivity.
Qed.

Lemma anova_entry_not_nan (r : stat * stat) :
  isnan (fst (anova_entry r)) = false /\ isnan (snd (anova_entry r)) = false.
Proof. destruct r as [[] []]; simpl; split; reflexivity. Qed.

Section Loop.

Variable f_oneway : list (list Q) -> result (stat * stat).
Variable self : DatasetFeatures.
Variable category_stats : list (list (list Q)).

Local Abbreviation recorded := (recorded f_oneway self category_stats).

Lemma stats_step_inv (acc acc' : stats_maps) (f : nat) :
  stats_step f_oneway self category_stats acc f = Ok acc' ->
  recorded f acc' /\ (forall f', recorded f' acc -> recorded f' acc').
Proof.
  destruct acc as [ts ps]. unfold stats_step.
  destruct (activations_by_category self f) as [g1|] eqn:E1; simpl;
    [|discriminate].
  destruct (f_oneway g1) as [r1|] eqn:E2; simpl; [|discriminate].
  destruct (mapM _ category_stats) as [g2|] eqn:E3; simpl; [|discriminate].
  destruct (f_oneway g2) as [r2|] eqn:E4; simpl; [|discriminate].
  intros [= <-]. split.
  - exists g1, r1, g2, r2. simpl. rewrite !lookup_insert_eq. auto 10.
  - intros f' (h1 & s1 & h2 & s2 & A & B & C & D & E & F). simpl in *.
    destruct (decide (f = f')) as [->|Hne].
    + exists g1, r1, g2, r2. simpl. rewrite !lookup_insert_eq. auto 10.
    + exists h1, s1, h2, s2. simpl. rewrite !lookup_insert_ne by done.
      auto 10.
Qed.

Lemma stats_loop_inv (fs : list nat) (acc out : stats_maps) :
  stats_loop f_oneway self category_stats acc fs = Ok out ->
  (forall f, f ∈ fs -> recorded f out) /\
  (forall f, recorded f acc -> recorded f out).
Proof.
  revert acc. induction fs as [|f fs IH]; intros acc; simpl.
  - intros [= <-]. split; [|auto]. intros f Hf. inversion Hf.
  - destruct (stats_step f_oneway self category_stats acc f) as [acc'|] eqn:E;
      simpl; [|discriminate].
    intros Hl. destruct (IH _ Hl) as [H1 H2].
    destruct (stats_step_inv _ _ _ E) as [H3 H4].
    split.
    + intros f' Hf'. apply elem_of_cons in Hf' as [->|Hf']; auto.
    + auto.
Qed.

(** A round of the loop returns whenever its four calls return, whatever
    the two ANOVA results are: a NaN is stored as the sentinel, not raised. *)
Lemma stats_step_returns (acc : stats_maps) (f : nat)
  (g1 : list (list Q)) (r1 : stat * stat) (g2 : list (list Q))
  (r2 : stat * stat) :
  activations_by_category self f = Ok g1 -> f_oneway g1 = Ok r1 ->
  mapM (fun c => category_column c f) category_stats = Ok g2 ->
  f_oneway g2 = Ok r2 ->
  stats_step f_oneway self category_stats acc f
  = Ok (<[f := anova_entry r1]> acc.1, <[f := anova_entry r2]> acc.2).
Proof.
  intros A B C D. destruct acc as [ts ps]. unfold stats_step.
  rewrite A. simpl. rewrite B. simpl. rewrite C. simpl. rewrite D.
  reflexivity.
Qed.

Lemma stats_loop_returns (fs : list nat) :
  (forall f, f ∈ fs ->
     exists g1 r1 g2 r2,
       activations_by_category self f = Ok g1 /\ f_oneway g1 = Ok r1 /\
       mapM (fun c => category_column c f) category_stats = Ok g2 /\
       f_oneway g2 = Ok r2) ->
  forall acc, exists out,
    stats_loop f_oneway self category_stats acc fs = Ok out.
Proof.
  induction fs as [|f fs IH]; intros Hall acc; simpl; [eauto|].
  destruct (Hall f) as (g1 & r1 & g2 & r2 & A & B & C & D); [left|].
  rewrite (stats_step_returns acc f _ _ _ _ A B C D). simpl.
  apply IH. intros f' Hf'. apply Hall. now right.
Qed.

End Loop.

(** C7, amended.  A NaN result of an ANOVA is never raised as an error: a
    round of the loop over the features returns whenever its calls return,
    and [stats] as a whole returns whenever its checks pass and, for every
    feature, the two ANOVA calls and the two selections before them
    return.  When [stats] returns, every feature has a tile-level and a
    slide-level entry, each computed from the result of its ANOVA: a result
    whose F or P is NaN is stored as F=-1, P=1, so that no NaN is ever
    stored, and any other result, an infinite F included, is stored as it
    is. *)
Theorem anova_nan_becomes_sentinel
  (f_oneway : list (list Q) -> result (stat * stat))
  (self : DatasetFeatures) (method : string) (threshold : Q) :
  (forall category_stats acc f g1 r1 g2 r2,
     activations_by_category self f = Ok g1 -> f_oneway g1 = Ok r1 ->
     mapM (fun c => category_column c f) category_stats = Ok g2 ->
     f_oneway g2 = Ok r2 ->
     stats_step f_oneway self category_stats acc f
     = Ok (<[f := anova_entry r1]> acc.1, <[f := anova_entry r2]> acc.2)) /\
  (forall act cs,
     categories self <> [] ->
     method = "mean" \/ method = "threshold" ->
     labels self <> ∅ ->
     activation_stats self method threshold (slides self) ∅ = Ok act ->
     mapM (fun c => ss ← slides_of (labels self) c (slides self);
                    mapM (dict_get act) ss) (used_categories self) = Ok cs ->
     (forall f, (f < num_features self)%nat ->
        exists g1 r1 g2 r2,
          activations_by_category self f = Ok g1 /\ f_oneway g1 = Ok r1 /\
          mapM (fun c => category_column c f) cs = Ok g2 /\
          f_oneway g2 = Ok r2) ->
     exists ts ps, stats f_oneway self method threshold = Ok (ts, ps, cs)) /\
  (forall ts ps cs f,
     stats f_oneway self method threshold = Ok (ts, ps, cs) ->
     (f < num_features self)%nat ->
     exists g1 r1 g2 r2 e1 e2,
       activations_by_category self f = Ok g1 /\ f_oneway g1 = Ok r1 /\
       ts !! f = Some e1 /\
       mapM (fun c => category_column c f) cs = Ok g2 /\ f_oneway g2 = Ok r2 /\
       ps !! f = Some e2 /\
       (isnan (fst r1) || isnan (snd r1) = true ->
        e1 = (Finite (-1), Finite 1)) /\
       (isnan (fst r1) || isnan (snd r1) = false -> e1 = r1) /\
       (isnan (fst r2) || isnan (snd r2) = true ->
        e2 = (Finite (-1), Finite 1)) /\
       (isnan (fst r2) || isnan (snd r2) = false -> e2 = r2) /\
       isnan (fst e1) = false /\ isnan (snd e1) = false /\
       isnan (fst e2) = false /\ isnan (snd e2) = false).
Proof.
  split; [|split].
  - intros category_stats acc f g1 r1 g2 r2.
    apply stats_step_returns.
  - intros act cs Hcat Hm Hl Ha Hc Hall. unfold stats.
    destruct (categories self); [done|].
    assert (Hmb : negb (bool_decide (method = "mean")
                        || bool_decide (method = "threshold")) = false).
    { destruct Hm as [-> | ->]; reflexivity. }
    rewrite Hmb. rewrite (bool_decide_eq_false_2 _ Hl).
    rewrite Ha. simpl. rewrite Hc. simpl.
    destruct (stats_loop_returns f_oneway self cs
                (seq 0 (num_features self))) with (acc := (∅, ∅) : stats_maps)
      as [[ts ps] Hout].
    { intros f Hf. apply Hall. apply elem_of_seq in Hf. lia. }
    rewrite Hout. simpl. eauto.
  - unfold stats. intros ts ps cs f H Hf.
    destruct (categories self); [discriminate|].
    destruct (negb _); [discriminate|].
    destruct (bool_decide _); [discriminate|].
    destruct (activation_stats _ _ _ _ _) as [act|]; simpl in H;
      [|discriminate].
    destruct (mapM _ (used_categories self)) as [cstats|]; simpl in H;
      [|discriminate].
    destruct (stats_loop _ _ _ _ _) as [[ts' ps']|] eqn:El; simpl in H;
      [|discriminate].
    injection H as <- <- <-.
    apply stats_loop_inv in El as [El _].
    destruct (El f) as (g1 & r1 & g2 & r2 & A & B & C & D & E & F).
    { apply elem_of_seq. lia. }
    simpl in C, F.
    exists g1, r1, g2, r2, (anova_entry r1), (anova_entry r2).
    repeat split; auto using anova_entry_nan, anova_entry_keep;
      apply anova_entry_not_nan.
Qed.

(** On at least two groups whose values are all the same, the documented
    result is (NaN, NaN). *)
Lemma constant_input_gives_nan (generic : list (list Q) -> stat * stat)
  (groups : list (list Q)) :
  (2 <= length groups)%nat -> all_same groups = true ->
  f_oneway_degenerate generic groups = Ok (NaN, NaN).
Proof.
  intros Hlen Hsame. unfold f_oneway_degenerate.
  destruct (Nat.ltb_spec (length groups) 2) as [?|_]; [lia|].
  destruct (existsb _ groups); [reflexivity|].
  destruct (forallb _ groups); [reflexivity|].
  rewrite Hsame. reflexivity.
Qed.

(** C7 as stated fails on [constant_slides]: the tile-level ANOVA of feature
    0 compares the constant groups [1, 1] and [2, 2]; its result (inf, 0) is
    not finite and is stored unchanged. *)
Lemma anova_infinite_is_kept :
  exists ts ps cs,
    stats (f_oneway_degenerate (fun _ => (NaN, NaN)))
          constant_slides "mean" 0.5 = Ok (ts, ps, cs) /\
    f_oneway_degenerate (fun _ => (NaN, NaN)) [[1%Q; 1%Q]; [2%Q; 2%Q]]
      = Ok (PosInf, Finite 0) /\
    is_finite PosInf = false /\
    ts !! 0%nat = Some (PosInf, Finite 0) /\
    ts !! 0%nat <> Some sentinel.
Proof.
  eexists _, _, _. split; [vm_compute; reflexivity|].
  split; [reflexivity|]. split; [reflexivity|].
  split; [reflexivity|]. discriminate.
Qed.

(** The constant-input case: with identical values everywhere the ANOVA
    result is (NaN, NaN); [stats] returns, and both stored entries are the
    sentinel. *)
Lemma anova_nan_becomes_sentinel_witness :
  (exists ts ps,
     stats (f_oneway_degenerate (fun _ => (NaN, NaN)))
           identical_slides "mean" 0.5 = Ok (ts, ps, [[[1%Q]]; [[1%Q]]])) /\
  exists g1 r1 g2 r2 e1 e2,
    activations_by_category identical_slides 0 = Ok g1 /\
    f_oneway_degenerate (fun _ => (NaN, NaN)) g1 = Ok r1 /\
    (<[0%nat := sentinel]> ∅ : gmap nat (stat * stat)) !! 0%nat = Some e1 /\
    mapM (fun c => category_column c 0) [[[1%Q]]; [[1%Q]]] = Ok g2 /\
    f_oneway_degenerate (fun _ => (NaN, NaN)) g2 = Ok r2 /\
    (<[0%nat := sentinel]> ∅ : gmap nat (stat * stat)) !! 0%nat = Some e2 /\
    (isnan (fst r1) || isnan (snd r1) = true -> e1 = (Finite (-1), Finite 1)) /\
    (isnan (fst r1) || isnan (snd r1) = false -> e1 = r1) /\
    (isnan (fst r2) || isnan (snd r2) = true -> e2 = (Finite (-1), Finite 1)) /\
    (isnan (fst r2) || isnan (snd r2) = false -> e2 = r2) /\
    isnan (fst e1) = false /\ isnan (snd e1) = false /\
    isnan (fst e2) = false /\ isnan (snd e2) = false.
Proof.
  split.
  - eapply (proj1 (proj2 (anova_nan_becomes_sentinel
                            (f_oneway_degenerate (fun _ => (NaN, NaN)))
                            identical_slides "mean" 0.5))).
    + discriminate.
    + left. reflexivity.
    + apply (bool_decide_eq_false_1 (labels identical_slides = ∅)).
      vm_compute. reflexivity.
    + vm_compute. reflexivity.
    + vm_compute. reflexivity.
    + intros f Hf. assert (f = 0%nat) as -> by (simpl in Hf; lia).
      eexists _, _, _, _.
      repeat split; vm_compute; reflexivity.
  - apply (proj2 (proj2 (anova_nan_becomes_sentinel
                           (f_oneway_degenerate (fun _ => (NaN, NaN)))
                           identical_slides "mean" 0.5))).
    + vm_compute. reflexivity.
    + simpl. lia.
Defined.

(** *** What [stats] needs *)





(** *** [softmax_percent] and [softmax_predict] *)

Lemma mapM_length {A B} (g : A -> result B) (l : list A) :
  forall r, mapM g l = Ok r -> length r = length l.
Proof.
  induction l as [|x l IH]; intros r H; simpl in H.
  - injection H as <-. reflexivity.
  - destruct (g x); simpl in H; [|discriminate].
    destruct (mapM g l) as [ys|]; simpl in H; [|discriminate].
    injection H as <-. simpl. f_equal. apply IH. reflexivity.
Qed.

Lemma mapM_Forall2 {A B} (g : A -> result B) (l : list A) :
  forall r, mapM g l = Ok r -> Forall2 (fun x y => g x = Ok y) l r.
Proof.
  induction l as [|x l IH]; intros r H; simpl in H.
  - injection H as <-. constructor.
  - destruct (g x) as [y|] eqn:Hx; simpl in H; [|discriminate].
    destruct (mapM g l) as [ys|]; simpl in H; [|discriminate].
    injection H as <-. constructor; [exact Hx | apply IH; reflexivity].
Qed.

(** The dictionary [for_each_slide] returns has the keys of its input, and
    each value is the result of the round on the array under that key. *)
Lemma for_each_slide_spec {A} (f : ndarray2 -> result A)
  (predictions : gmap string ndarray2) (d : gmap string A) :
  for_each_slide f predictions = Ok d ->
  dom d = dom predictions /\
  forall s v, d !! s = Some v ->
              exists a, predictions !! s = Some a /\ f a = Ok v.
Proof.
  unfold for_each_slide. intros H.
  destruct (mapM _ (map_to_list predictions)) as [kvs|e] eqn:Ht;
    simpl in H; [|discriminate].
  injection H as <-. apply mapM_Forall2 in Ht.
  assert (Hkeys : kvs.*1 = (map_to_list predictions).*1).
  { induction Ht as [|kv kv' l l' Hk _ IH]; [reflexivity|].
    rewrite !fmap_cons, IH. f_equal.
    destruct (f kv.2); simpl in Hk; [|discriminate].
    injection Hk as <-. reflexivity. }
  split.
  - apply set_eq. intros k. rewrite dom_list_to_map_L, elem_of_list_to_set.
    rewrite Hkeys, elem_of_dom. split.
    + intros Hin. apply list_elem_of_fmap in Hin as ([k' a] & -> & Hin).
      apply elem_of_map_to_list in Hin. eauto.
    + intros [a Ha]. apply list_elem_of_fmap. exists (k, a).
      split; [reflexivity|]. now apply elem_of_map_to_list.
  - intros s v Hv. apply elem_of_list_to_map in Hv.
    2:{ rewrite Hkeys. apply NoDup_fst_map_to_list. }
    apply list_elem_of_lookup_1 in Hv as [i Hi].
    destruct (Forall2_lookup_r _ _ _ _ _ Ht Hi) as ([k a] & Hin & Hk).
    apply list_elem_of_lookup_2 in Hin.
    simpl in Hk. destruct (f a) as [y|] eqn:Hf; simpl in Hk; [|discriminate].
    injection Hk as -> ->. exists a. split; [|exact Hf].
    now apply elem_of_map_to_list.
Qed.

Lemma argmax_from_spec (l : list Q) :
  forall (pre : list Q) (best : Q) (best_i : nat),
  pre !! best_i = Some best ->
  (forall j x, pre !! j = Some x ->
               (x <= best)%Q /\ ((j < best_i)%nat -> (x < best)%Q)) ->
  exists y,
    (pre ++ l) !! argmax_from best best_i (length pre) l = Some y /\
    forall j x, (pre ++ l) !! j = Some x ->
                (x <= y)%Q /\
                ((j < argmax_from best best_i (length pre) l)%nat ->
                 (x < y)%Q).
Proof.
  induction l as [|x l IH]; intros pre best bi Hb Hall; simpl.
  - exists best. rewrite app_nil_r. split; [exact Hb | exact Hall].
  - unfold Qgtb. destruct (Qle_bool x best) eqn:Hle; simpl.
    + apply Qle_bool_iff in Hle.
      destruct (IH (pre ++ [x]) best bi) as (y & Hy & Hmax).
      * apply lookup_app_l_Some. exact Hb.
      * intros j z Hz. apply lookup_app_Some in Hz as [Hz | [Hge Hz]].
        -- apply (Hall j z Hz).
        -- apply list_lookup_singleton_Some in Hz as [_ <-].
           split; [exact Hle|]. intros Hlt.
           apply lookup_lt_Some in Hb. lia.
      * rewrite length_app in Hy, Hmax. simpl in Hy, Hmax.
        rewrite Nat.add_1_r in Hy, Hmax. rewrite <- app_assoc in Hy, Hmax.
        exists y. split; [exact Hy | exact Hmax].
    + assert (Hlt : (best < x)%Q).
      { apply Qnot_le_lt. intros Hc. apply Qle_bool_iff in Hc. congruence. }
      destruct (IH (pre ++ [x]) x (length pre)) as (y & Hy & Hmax).
      * rewrite lookup_app_r by lia. now rewrite Nat.sub_diag.
      * intros j z Hz. apply lookup_app_Some in Hz as [Hz | [Hge Hz]].
        -- destruct (Hall j z Hz) as [Hzb _].
           assert (z < x)%Q by (eapply Qle_lt_trans; eassumption).
           split; [now apply Qlt_le_weak | intros _; assumption].
        -- apply list_lookup_singleton_Some in Hz as [Hj <-].
           split; [apply Qle_refl | lia].
      * rewrite length_app in Hy, Hmax. simpl in Hy, Hmax.
        rewrite Nat.add_1_r in Hy, Hmax. rewrite <- app_assoc in Hy, Hmax.
        exists y. split; [exact Hy | exact Hmax].
Qed.

(** [argmax] returns a position of the vector; every entry is at most the
    one found there and every earlier entry is smaller. *)
Lemma argmax_spec (l : list Q) (i : nat) :
  argmax l = Ok i ->
  exists y, l !! i = Some y /\
            forall j x, l !! j = Some x ->
                        (x <= y)%Q /\ ((j < i)%nat -> (x < y)%Q).
Proof.
  destruct l as [|x rest]; simpl; [discriminate|]. intros [= <-].
  apply (argmax_from_spec rest [x] x 0).
  - reflexivity.
  - intros [|j] z Hz; simpl in Hz; [|discriminate].
    injection Hz as <-. split; [apply Qle_refl | lia].
Qed.

(** On a vector without NaN, [argmax_float] is [argmax]. *)
Lemma argmax_float_numbers (qs : list Q) :
  argmax_float (map Some qs) = argmax qs.
Proof.
  unfold argmax_float.
  assert (Hn : forall i, find_nan i (map Some qs) = None).
  { induction qs as [|q qs IH]; intros i; simpl; [reflexivity | apply IH]. }
  rewrite Hn. clear Hn. f_equal.
  induction qs as [|q qs IH]; [reflexivity|].
  simpl. f_equal. exact IH.
Qed.

Lemma count_eq_out_of_range (tile_pred : list nat) (k j : nat) :
  Forall (fun p => (p < k)%nat) tile_pred -> (k <= j)%nat ->
  count_eq tile_pred j = 0%nat.
Proof.
  intros Hall Hj. unfold count_eq.
  induction Hall as [|p l Hp _ IH]; [reflexivity|].
  rewrite filter_cons. destruct (decide (p = j)); [lia | exact IH].
Qed.

Lemma fraction_nonneg (c n : nat) :
  (0 <= inject_Z (Z.of_nat c) / inject_Z (Z.of_nat n))%Q.
Proof.
  destruct n as [|n].
  - unfold Qdiv, Qinv. simpl. rewrite Qmult_0_r. apply Qle_refl.
  - apply Qle_shift_div_l.
    + unfold Qlt. simpl. lia.
    + rewrite Qmult_0_l. unfold Qle. simpl. lia.
Qed.

(** The vector of one slide: one entry per class.  For a slide without
    tiles every entry is NaN; otherwise every entry is a number, none is
    negative, and all are zero from the length of the filter on. *)
Lemma slide_perc_spec (num_classes : nat) (filt : list Z) (a : ndarray2)
  (v : list (option Q)) :
  slide_perc num_classes filt a = Ok v ->
  filt <> [] /\
  length v = num_classes /\
  (rows a = [] -> v = replicate num_classes None) /\
  (rows a <> [] ->
   exists qs, v = map Some qs /\
     (forall j q, qs !! j = Some q -> (0 <= q)%Q) /\
     (forall j q, (length filt <= j)%nat -> qs !! j = Some q -> (q == 0)%Q)).
Proof.
  unfold slide_perc, select_columns, argmax_axis1. intros H.
  destruct (mapM (column_index (ncols a)) filt) as [js|] eqn:Hjs;
    simpl in H; [|discriminate].
  destruct (Nat.eqb_spec (length filt) 0) as [Hz | Hnz]; simpl in H;
    [discriminate|].
  split; [intros ->; apply Hnz; reflexivity|].
  destruct (mapM argmax _) as [tile_pred|] eqn:Hp; simpl in H;
    [|discriminate].
  injection H as <-.
  assert (Hlen : length tile_pred = length (rows a)).
  { apply mapM_length in Hp. now rewrite length_map in Hp. }
  assert (Hrange : Forall (fun p => (p < length filt)%nat) tile_pred).
  { apply mapM_Forall2 in Hp. apply mapM_length in Hjs.
    apply Forall2_fmap_l in Hp.
    eapply Forall2_Forall_r; [exact Hp|].
    apply Forall_forall. intros r _ p Hr. simpl in Hr.
    apply argmax_spec in Hr as (y & Hy & _).
    apply lookup_lt_Some in Hy. rewrite length_map in Hy. lia. }
  split; [now rewrite length_map, length_seq|].
  unfold share. rewrite Hlen. split.
  - intros ->. simpl.
    generalize 0%nat. induction num_classes as [|n IH]; intros k;
      [reflexivity|]. simpl. f_equal. apply IH.
  - intros Hne.
    destruct (Nat.eqb_spec (length (rows a)) 0) as [Hz | _].
    { destruct (rows a); [done | discriminate]. }
    exists (map (fun logit =>
                   (inject_Z (Z.of_nat (count_eq tile_pred logit))
                    / inject_Z (Z.of_nat (length (rows a))))%Q)
                (seq 0 num_classes)).
    split; [now rewrite map_map|]. split.
    + intros j q Hq. apply list_lookup_fmap_Some in Hq as (logit & -> & _).
      apply fraction_nonneg.
    + intros j q Hj Hq. apply list_lookup_fmap_Some in Hq as (logit & -> & Hl).
      apply lookup_seq in Hl as [-> _]. simpl.
      rewrite (count_eq_out_of_range _ _ _ Hrange Hj). simpl.
      unfold Qdiv. apply Qmult_0_l.
Qed.

Lemma effective_filter_given (num_classes : nat) (x : Z) (rest filt : list Z) :
  effective_filter num_classes (Some (x :: rest)) = Ok filt ->
  filt = x :: rest.
Proof.
  simpl. destruct (_ <=? _); [|discriminate]. now intros [= <-].
Qed.



(** X23. The class [softmax_predict] returns for a slide is a position
    within the filter: it is below the length of the filter (and below the
    number of classes), so with a filter such as [[1, 2]] the answer is 0
    or 1 and never 2.  A slide without tiles, whose shares are all NaN, is
    answered with position 0. *)
Theorem softmax_predict_is_filter_position
  (predictions : gmap string ndarray2) (num_classes : nat)
  (prediction_filter : option (list Z)) (d : gmap string nat) :
  softmax_predict predictions num_classes prediction_filter = Ok d ->
  exists filt,
    effective_filter num_classes prediction_filter = Ok filt /\
    (forall x rest, prediction_filter = Some (x :: rest) -> filt = x :: rest) /\
    dom d = dom predictions /\
    forall s p, d !! s = Some p ->
      (p < length filt)%nat /\ (p < num_classes)%nat /\
      (forall a, predictions !! s = Some a -> rows a = [] -> p = 0%nat).
Proof.
  unfold softmax_predict. intros H.
  destruct (effective_filter num_classes prediction_filter) as [filt|] eqn:Hf;
    simpl in H; [|discriminate].
  exists filt. split; [reflexivity|]. split.
  { intros x rest ->. apply (effective_filter_given _ _ _ _ Hf). }
  apply for_each_slide_spec in H as [Hdom Hval].
  split; [exact Hdom|].
  intros s p Hp. destruct (Hval s p Hp) as (a & Hs & Ha).
  destruct (slide_perc num_classes filt a) as [v|] eqn:Hv; simpl in Ha;
    [|discriminate].
  apply slide_perc_spec in Hv as (Hne & Hlen & Hnan & Hnum).
  assert (Hk : (0 < length filt)%nat).
  { destruct filt; [done | simpl; lia]. }
  destruct (rows a) as [|r0 rs] eqn:Hrows.
  - (* no tile: every share is NaN *)
    rewrite (Hnan eq_refl) in Ha.
    destruct num_classes as [|n]; [discriminate|].
    injection Ha as <-. split; [exact Hk|]. split; [lia|]. reflexivity.
  - destruct (Hnum ltac:(discriminate)) as (qs & -> & Hpos & Hzero).
    rewrite argmax_float_numbers in Ha. rewrite length_map in Hlen.
    apply argmax_spec in Ha as (y & Hy & Hmax).
    split; [|split; [apply lookup_lt_Some in Hy; lia|]].
    2:{ intros a' Ha'. rewrite Hs in Ha'. injection Ha' as <-.
        rewrite Hrows. discriminate. }
    destruct (Nat.lt_ge_cases p (length filt)) as [Hlt | Hge]; [exact Hlt|].
    exfalso.
    assert (H0 : (0 < length qs)%nat) by (apply lookup_lt_Some in Hy; lia).
    destruct (lookup_lt_is_Some_2 qs 0 H0) as [x0 Hx0].
    destruct (Hmax 0%nat x0 Hx0) as [_ Hstrict].
    specialize (Hstrict ltac:(lia)).
    pose proof (Hpos _ _ Hx0) as Hx0pos.
    pose proof (Hzero _ _ Hge Hy) as Hy0.
    rewrite Hy0 in Hstrict.
    apply (Qlt_not_le _ _ Hstrict Hx0pos).
Qed.

Lemma softmax_predict_is_filter_position_witness :
  exists filt,
    effective_filter 3 (Some [1; 2]) = Ok filt /\
    (forall x rest, Some [1; 2] = Some (x :: rest) -> filt = x :: rest) /\
    dom (<["s" := 0%nat]> (<["t" := 0%nat]> ∅) : gmap string nat)
    = dom (<["s" := three_class_tiles]> (<["t" := no_tiles]> ∅)
           : gmap string ndarray2) /\
    forall s p,
      (<["s" := 0%nat]> (<["t" := 0%nat]> ∅) : gmap string nat) !! s
      = Some p ->
      (p < length filt)%nat /\ (p < 3)%nat /\
      (forall a,
         (<["s" := three_class_tiles]> (<["t" := no_tiles]> ∅)
          : gmap string ndarray2) !! s = Some a -> rows a = [] -> p = 0%nat).
Proof.
  apply (softmax_predict_is_filter_position
           (<["s" := three_class_tiles]> (<["t" := no_tiles]> ∅)) 3
           (Some [1; 2])).
  vm_compute. reflexivity.
Defined.

End FeaturesProps.

(** ** The Studio MIL widget *)

Module StudioProps.
Import Studio.

Lemma verify_tile_size_match (self : MILWidget) (p : ExtractorParams)
  (w : WSI) :
  extractor_params self = Some p -> wsi (viz self) = Some w ->
  same_tile_size p w ->
  verify_tile_size self = Ok (true, self).
Proof.
  intros Hp Hw [Hpx Hum]. unfold verify_tile_size. rewrite Hp, Hw.
  rewrite Hpx, Hum, Z.eqb_refl, bool_decide_eq_true_2 by done.
  reflexivity.
Qed.

Lemma verify_tile_size_mismatch (self : MILWidget) (p : ExtractorParams)
  (w : WSI) :
  extractor_params self = Some p -> wsi (viz self) = Some w ->
  ~ same_tile_size p w ->
  verify_tile_size self =
    Ok (false,
        with_viz self
          (create_toast (viz self)
             (mkToast (mismatch_text (params_tile_px p) (params_tile_um p)
                         (wsi_tile_px w) (wsi_tile_um w))
                      "error" false false))).
Proof.
  intros Hp Hw Hne. unfold verify_tile_size. rewrite Hp, Hw.
  destruct (Z.eqb_spec (wsi_tile_px w) (params_tile_px p)) as [Hpx|Hpx];
    simpl; [|reflexivity].
  rewrite bool_decide_eq_false_2; [reflexivity|].
  intros Hum. apply Hne. split; assumption.
Qed.

(** C4, amended. [predict_slide] itself runs [verify_tile_size] first.  When
    the model and the slide have the same tile size it posts the rendering
    message and the sticky toast and starts the worker thread.  When they
    differ it only adds the error toast: no message is set and no thread is
    started by the call. *)
Theorem predict_slide_checks_tile_size (self : MILWidget)
  (p : ExtractorParams) (w : WSI) :
  extractor_params self = Some p -> wsi (viz self) = Some w ->
  exists self',
    predict_slide self = Ok self' /\
    (same_tile_size p w ->
       verify_tile_size self = Ok (true, self) /\
       initiated self' = true /\
       _thread self' = Some (Started "_predict_slide") /\
       message (viz self') = Some (_rendering_message self) /\
       toasts (viz self')
         = toasts (viz self)
           ++ [mkToast "Generating prediction" "info" true true]) /\
    (~ same_tile_size p w ->
       verify_tile_size self = Ok (false, self') /\
       _thread self' = _thread self /\
       message (viz self') = message (viz self) /\
       toasts (viz self')
         = toasts (viz self)
           ++ [mkToast (mismatch_text (params_tile_px p) (params_tile_um p)
                          (wsi_tile_px w) (wsi_tile_um w))
                       "error" false false]).
Proof.
  intros Hp Hw.
  destruct (decide (wsi_tile_px w = params_tile_px p)) as [Hpx|Hpx];
    [destruct (decide (wsi_tile_um w = params_tile_um p)) as [Hum|Hum]|].
  - assert (Hs : same_tile_size p w) by (split; assumption).
    unfold predict_slide.
    rewrite (verify_tile_size_match self p w Hp Hw Hs). simpl.
    eexists. split; [reflexivity|]. split; [|tauto].
    intros _. simpl. auto.
  - assert (Hs : ~ same_tile_size p w) by (intros [_ H]; auto).
    unfold predict_slide.
    rewrite (verify_tile_size_mismatch self p w Hp Hw Hs). simpl.
    eexists. split; [reflexivity|]. split; [tauto|].
    intros _. simpl. auto.
  - assert (Hs : ~ same_tile_size p w) by (intros [H _]; auto).
    unfold predict_slide.
    rewrite (verify_tile_size_mismatch self p w Hp Hw Hs). simpl.
    eexists. split; [reflexivity|]. split; [tauto|].
    intros _. simpl. auto.
Qed.

Lemma predict_slide_checks_tile_size_witness :
  exists self',
    predict_slide (widget_on other_slide) = Ok self' /\
    (same_tile_size (mkExtractorParams 299 (UmInt 302)) other_slide ->
       verify_tile_size (widget_on other_slide)
         = Ok (true, widget_on other_slide) /\
       initiated self' = true /\
       _thread self' = Some (Started "_predict_slide") /\
       message (viz self')
         = Some (_rendering_message (widget_on other_slide)) /\
       toasts (viz self')
         = toasts (viz (widget_on other_slide))
           ++ [mkToast "Generating prediction" "info" true true]) /\
    (~ same_tile_size (mkExtractorParams 299 (UmInt 302)) other_slide ->
       verify_tile_size (widget_on other_slide) = Ok (false, self') /\
       _thread self' = _thread (widget_on other_slide) /\
       message (viz self') = message (viz (widget_on other_slide)) /\
       toasts (viz self')
         = toasts (viz (widget_on other_slide))
           ++ [mkToast (mismatch_text 299 (UmInt 302)
                          (wsi_tile_px other_slide) (wsi_tile_um other_slide))
                       "error" false false]).
Proof.
  apply (predict_slide_checks_tile_size (widget_on other_slide)
           (mkExtractorParams 299 (UmInt 302)) other_slide);
    reflexivity.
Defined.

(** C4 as stated fails: with a 299 px model and a 512 px slide,
    [predict_slide] alone does not initiate the prediction; it leaves the
    error toast of the tile-size check. *)
Lemma predict_slide_blocks_on_mismatch :
  exists self',
    predict_slide (widget_on other_slide) = Ok self' /\
    initiated self' = false /\
    map toast_icon (toasts (viz self')) = ["error"] /\
    predict_slide (widget_on matching_slide)
      ≫= (fun s => Ok (initiated s)) = Ok true.
Proof.
  eexists. split; [reflexivity|]. repeat split.
Qed.

(** *** [_reshape_as_heatmap] *)

Lemma qmin_spec (a b : Q) :
  (qmin a b <= a)%Q /\ (qmin a b <= b)%Q /\ (qmin a b = a \/ qmin a b = b).
Proof.
  unfold qmin. destruct (Qle_bool a b) eqn:H.
  - apply Qle_bool_iff in H. split; [apply Qle_refl|]. split; [exact H|].
    now left.
  - assert (b < a)%Q.
    { apply Qnot_le_lt. intros Hc. apply Qle_bool_iff in Hc. congruence. }
    split; [now apply Qlt_le_weak|]. split; [apply Qle_refl | now right].
Qed.

Lemma qmax_spec (a b : Q) :
  (a <= qmax a b)%Q /\ (b <= qmax a b)%Q /\ (qmax a b = a \/ qmax a b = b).
Proof.
  unfold qmax. destruct (Qle_bool a b) eqn:H.
  - apply Qle_bool_iff in H. split; [exact H|]. split; [apply Qle_refl|].
    now right.
  - assert (b < a)%Q.
    { apply Qnot_le_lt. intros Hc. apply Qle_bool_iff in Hc. congruence. }
    split; [apply Qle_refl|]. split; [now apply Qlt_le_weak | now left].
Qed.

Lemma foldr_qmin_spec (x : Q) (rest : list Q) :
  foldr qmin x rest ∈ x :: rest /\
  forall y, y ∈ x :: rest -> (foldr qmin x rest <= y)%Q.
Proof.
  induction rest as [|z rest [IHin IHle]]; simpl.
  - split; [left|]. intros y Hy. apply list_elem_of_singleton in Hy as ->.
    apply Qle_refl.
  - destruct (qmin_spec z (foldr qmin x rest)) as (H1 & H2 & H3). split.
    + destruct H3 as [-> | ->]; [right; left|].
      apply elem_of_cons in IHin as [-> | ?]; [left | right; now right].
    + intros y Hy. apply elem_of_cons in Hy as [-> | Hy].
      * eapply Qle_trans; [exact H2|]. apply IHle. left.
      * apply elem_of_cons in Hy as [-> | Hy]; [exact H1|].
        eapply Qle_trans; [exact H2|]. apply IHle. now right.
Qed.

Lemma foldr_qmax_spec (x : Q) (rest : list Q) :
  foldr qmax x rest ∈ x :: rest /\
  forall y, y ∈ x :: rest -> (y <= foldr qmax x rest)%Q.
Proof.
  induction rest as [|z rest [IHin IHle]]; simpl.
  - split; [left|]. intros y Hy. apply list_elem_of_singleton in Hy as ->.
    apply Qle_refl.
  - destruct (qmax_spec z (foldr qmax x rest)) as (H1 & H2 & H3). split.
    + destruct H3 as [-> | ->]; [right; left|].
      apply elem_of_cons in IHin as [-> | ?]; [left | right; now right].
    + intros y Hy. apply elem_of_cons in Hy as [-> | Hy].
      * eapply Qle_trans; [|exact H2]. apply IHle. left.
      * apply elem_of_cons in Hy as [-> | Hy]; [exact H1|].
        eapply Qle_trans; [|exact H2]. apply IHle. now right.
Qed.

Lemma numbers_elem (a : list (option Q)) (x : Q) :
  x ∈ numbers a <-> Some x ∈ a.
Proof.
  unfold numbers. rewrite list_elem_of_omap. split.
  - intros (o & Ho & Hx). simpl in Hx. now subst.
  - intros H. exists (Some x). split; [exact H | reflexivity].
Qed.

(** [nanmin] and [nanmax] are cells of the array and bound every number in
    it. *)
Lemma nanmin_spec (a : list (option Q)) (lo : Q) :
  nanmin a = Some lo ->
  Some lo ∈ a /\ forall x, Some x ∈ a -> (lo <= x)%Q.
Proof.
  unfold nanmin. destruct (numbers a) as [|x rest] eqn:Hn; [discriminate|].
  intros [= <-]. destruct (foldr_qmin_spec x rest) as [Hin Hle].
  rewrite <- Hn in Hin, Hle. split; [now apply numbers_elem|].
  intros y Hy. apply Hle. now apply numbers_elem.
Qed.

Lemma nanmax_spec (a : list (option Q)) (hi : Q) :
  nanmax a = Some hi ->
  Some hi ∈ a /\ forall x, Some x ∈ a -> (x <= hi)%Q.
Proof.
  unfold nanmax. destruct (numbers a) as [|x rest] eqn:Hn; [discriminate|].
  intros [= <-]. destruct (foldr_qmax_spec x rest) as [Hin Hle].
  rewrite <- Hn in Hin, Hle. split; [now apply numbers_elem|].
  intros y Hy. apply Hle. now apply numbers_elem.
Qed.

Lemma normalise_range (a : list (option Q)) (x : option Q) (q : Q) :
  x ∈ a -> normalise (nanmin a) (nanmax a) x = Some q ->
  (0 <= q)%Q /\ (q <= 1)%Q.
Proof.
  intros Hin H. unfold normalise in H.
  destruct x as [x|]; [|discriminate].
  destruct (nanmin a) as [lo|] eqn:Hlo; [|discriminate].
  destruct (nanmax a) as [hi|] eqn:Hhi; [|discriminate].
  destruct (Qeq_bool hi lo) eqn:Heq; [discriminate|].
  injection H as <-.
  apply nanmin_spec in Hlo as [Hlo_in Hlo]. apply nanmax_spec in Hhi as [_ Hhi].
  pose proof (Hlo _ Hin) as H1. pose proof (Hhi _ Hin) as H2.
  assert (Hne : ~ (hi == lo)%Q).
  { intros Hc. apply Qeq_bool_iff in Hc. congruence. }
  assert (Hpos : (0 < hi - lo)%Q).
  { assert (lo <= hi)%Q by (eapply Qle_trans; eassumption).
    destruct (Qle_lt_or_eq _ _ H) as [Hlt | Heq'].
    - unfold Qminus. rewrite <- (Qplus_opp_r lo).
      apply Qplus_lt_l. exact Hlt.
    - exfalso. apply Hne. symmetry. exact Heq'. }
  split.
  - apply Qle_shift_div_l; [exact Hpos|]. rewrite Qmult_0_l.
    unfold Qminus. rewrite <- (Qplus_opp_r lo). apply Qplus_le_l. exact H1.
  - apply Qle_shift_div_r; [exact Hpos|]. rewrite Qmult_1_l.
    unfold Qminus. apply Qplus_le_l. exact H2.
Qed.

(** X24. A heatmap returned by [_reshape_as_heatmap] has the first two
    entries of the original shape as its shape and [total_elements] cells,
    and every cell that is not NaN lies between 0 and 1. *)
Theorem heatmap_normalised (predictions : list (option Q))
  (unmasked_indices : list Z) (original_shape : list nat)
  (total_elements : Z) (h : Heatmap) :
  _reshape_as_heatmap predictions unmasked_indices original_shape
                      total_elements = Ok h ->
  heat_shape h = take 2 original_shape /\
  Z.of_nat (length (cells h)) = total_elements /\
  numel (heat_shape h) = length (cells h) /\
  forall q, Some q ∈ cells h -> (0 <= q)%Q /\ (q <= 1)%Q.
Proof.
  unfold _reshape_as_heatmap, full_nan. intros H.
  destruct (Z.ltb_spec total_elements 0) as [?|Hnn]; simpl in H;
    [discriminate|].
  destruct (assign _ unmasked_indices predictions) as [a|] eqn:Ha;
    simpl in H; [|discriminate].
  destruct (Nat.eqb_spec (numel (take 2 original_shape)) (length a))
    as [Hn | ?]; simpl in H; [|discriminate].
  injection H as <-. simpl.
  assert (Hlen : length a = Z.to_nat total_elements).
  { unfold assign in Ha.
    destruct (broadcast _ _) as [vs|]; simpl in Ha; [|discriminate].
    destruct (mapM _ unmasked_indices) as [js|]; simpl in Ha; [|discriminate].
    injection Ha as <-.
    assert (Hfold : forall (l : list (nat * option Q)) (b : list (option Q)),
               length (foldl (fun h jv => <[jv.1 := jv.2]> h) b l)
               = length b).
    { intros l. induction l as [|jv l IH]; intros b; [reflexivity|].
      simpl. rewrite IH. apply length_insert. }
    rewrite Hfold. apply length_replicate. }
  split; [reflexivity|]. rewrite length_map. split; [lia|].
  split; [exact Hn|].
  intros q Hq. apply list_elem_of_fmap in Hq as (x & Hx & Hin).
  symmetry in Hx. apply (normalise_range a x q Hin Hx).
Qed.

Lemma heatmap_normalised_witness :
  heat_shape (mkHeatmap [2; 2]%nat [Some (0 # 1); None; None; Some (1 # 1)]%Q)
  = take 2 [2; 2; 8]%nat /\
  Z.of_nat (length (cells (mkHeatmap [2; 2]%nat
                             [Some (0 # 1); None; None; Some (1 # 1)]%Q))) = 4 /\
  numel (heat_shape (mkHeatmap [2; 2]%nat
                       [Some (0 # 1); None; None; Some (1 # 1)]%Q))
  = length (cells (mkHeatmap [2; 2]%nat
                     [Some (0 # 1); None; None; Some (1 # 1)]%Q)) /\
  forall q,
    Some q ∈ cells (mkHeatmap [2; 2]%nat
                      [Some (0 # 1); None; None; Some (1 # 1)]%Q) ->
    (0 <= q)%Q /\ (q <= 1)%Q.
Proof.
  apply (heatmap_normalised [Some 2; Some 3]%Q [0; -1] [2; 2; 8]%nat 4).
  vm_compute. reflexivity.
Defined.

Lemma assign_cells (a : list (option Q)) (idx : list Z)
  (values b : list (option Q)) (c : option Q) :
  assign a idx values = Ok b -> c ∈ b -> c ∈ a \/ c ∈ values.
Proof.
  unfold assign, broadcast. intros H Hc.
  assert (Hvs : exists vs, (forall v, v ∈ vs -> v ∈ values) /\
                           exists js, b = foldl (fun h jv => <[jv.1 := jv.2]> h)
                                                a (zip js vs)).
  { destruct (length values =? length idx)%nat.
    - simpl in H. destruct (mapM _ idx) as [js|]; simpl in H; [|discriminate].
      injection H as <-. exists values. split; [auto | eauto].
    - destruct values as [|v [|? ?]]; simpl in H; try discriminate.
      destruct (mapM _ idx) as [js|]; simpl in H; [|discriminate].
      injection H as <-. exists (replicate (length idx) v). split; [|eauto].
      intros w Hw. apply elem_of_replicate in Hw as [-> _]. left. }
  destruct Hvs as (vs & Hsub & js & ->). clear H.
  assert (Hzip : forall jv, jv ∈ zip js vs -> jv.2 ∈ values).
  { intros [j v] Hin. apply Hsub. simpl.
    apply (elem_of_zip_r _ _ _ _ Hin). }
  revert a Hc. generalize dependent (zip js vs). intros l Hl.
  induction l as [|jv l IH]; intros a Hc; simpl in Hc.
  - now left.
  - destruct (IH (fun x Hx => Hl x (list_elem_of_further _ _ _ Hx)) _ Hc)
      as [Hin | Hin]; [|now right].
    apply list_elem_of_lookup_1 in Hin as [i Hi].
    destruct (decide (i = jv.1)) as [-> | Hne].
    + destruct (decide (jv.1 < length a)%nat) as [Hlt | Hge].
      * rewrite list_lookup_insert_eq in Hi by exact Hlt.
        injection Hi as <-. right. apply Hl. left.
      * rewrite list_insert_ge in Hi by lia.
        left. apply (list_elem_of_lookup_2 _ _ _ Hi).
    + rewrite list_lookup_insert_ne in Hi by congruence.
      left. apply (list_elem_of_lookup_2 _ _ _ Hi).
Qed.

(** X25. When all predictions that are not NaN have the same value (a
    single tile, or a constant attention), the smallest and the largest
    cell coincide and the normalisation divides zero by zero: every cell of
    the returned heatmap is NaN. *)
Theorem heatmap_constant_is_nan (predictions : list (option Q))
  (unmasked_indices : list Z) (original_shape : list nat)
  (total_elements : Z) (h : Heatmap) :
  (forall x y, Some x ∈ predictions -> Some y ∈ predictions -> (x == y)%Q) ->
  _reshape_as_heatmap predictions unmasked_indices original_shape
                      total_elements = Ok h ->
  forall c, c ∈ cells h -> c = None.
Proof.
  unfold _reshape_as_heatmap, full_nan. intros Hconst H.
  destruct (total_elements <? 0); simpl in H; [discriminate|].
  destruct (assign _ unmasked_indices predictions) as [a|] eqn:Ha;
    simpl in H; [|discriminate].
  destruct (negb _); [discriminate|].
  injection H as <-. simpl. intros c Hc.
  apply list_elem_of_fmap in Hc as (x & -> & Hin).
  assert (Hfrom : forall q, Some q ∈ a -> Some q ∈ predictions).
  { intros q Hq. destruct (assign_cells _ _ _ _ _ Ha Hq) as [Hr | Hr];
      [|exact Hr].
    apply elem_of_replicate in Hr as [? _]. discriminate. }
  unfold normalise. destruct x as [x|]; [|reflexivity].
  destruct (nanmin a) as [lo|] eqn:Hlo; [|reflexivity].
  destruct (nanmax a) as [hi|] eqn:Hhi; [|reflexivity].
  apply nanmin_spec in Hlo as [Hlo _]. apply nanmax_spec in Hhi as [Hhi _].
  assert (Heq : (hi == lo)%Q) by (apply Hconst; auto).
  apply Qeq_bool_iff in Heq. rewrite Heq. reflexivity.
Qed.

Lemma heatmap_constant_is_nan_witness :
  _reshape_as_heatmap [Some 7%Q] [1] [2; 2; 8]%nat 4
  = Ok (mkHeatmap [2; 2]%nat [None; None; None; None]) /\
  forall c,
    c ∈ cells (mkHeatmap [2; 2]%nat [None; None; None; None]) -> c = None.
Proof.
  split; [vm_compute; reflexivity|].
  apply (heatmap_constant_is_nan [Some 7%Q] [1] [2; 2; 8]%nat 4).
  - intros x y Hx Hy.
    apply list_elem_of_singleton in Hx. apply list_elem_of_singleton in Hy.
    injection Hx as ->. injection Hy as ->. reflexivity.
  - vm_compute. reflexivity.
Defined.

End StudioProps.

(** ** Search spaces *)

Module SmacProps.
Import PyProps.
Import SmacUtils.

Lemma ordinal_name n l h : ordinal n l = Ok h -> hp_name h = n.
Proof.
  unfold ordinal. intros H. apply bind_Ok in H as (d & _ & [= <-]).
  reflexivity.
Qed.

Lemma categorical_name n l h : categorical n l = Ok h -> hp_name h = n.
Proof.
  unfold categorical. intros H. apply bind_Ok in H as (d & _ & [= <-]).
  reflexivity.
Qed.

Lemma uniform_float_name n lg r h :
  uniform_float n lg r = Ok h -> hp_name h = n.
Proof. intros [= <-]. reflexivity. Qed.

Lemma uniform_int_name n lg r h : uniform_int n lg r = Ok h -> hp_name h = n.
Proof. intros [= <-]. reflexivity. Qed.

Lemma tile_um_name l h : tile_um_hp l = Ok h -> hp_name h = "tile_um".
Proof.
  unfold tile_um_hp. destruct (ints_of l).
  - apply ordinal_name.
  - intros H. apply bind_Ok in H as (d & _ & [= <-]). reflexivity.
Qed.

(** What one [if arg is not None:] block does to the space. *)
Lemma when_given_inv {T} (arg : option T) (cs cs' : ConfigurationSpace)
  (build : T -> result hyperparameter) (n : string) :
  (forall x h, build x = Ok h -> hp_name h = n) ->
  when_given arg cs build = Ok cs' ->
  conditions cs' = conditions cs /\
  (names_ok cs -> names_ok cs') /\
  dom (hyperparameters cs')
    = dom (hyperparameters cs) ∪ list_to_set (given arg n).
Proof.
  intros Hn. unfold when_given. destruct arg as [x|].
  - intros H. apply bind_Ok in H as (h & Hb & Ha).
    apply Hn in Hb. unfold add_hyperparameter in Ha. rewrite Hb in Ha.
    destruct (hyperparameters cs !! n) eqn:E; [discriminate|].
    injection Ha as <-. simpl. split; [reflexivity|]. split.
    + intros Hok k h'. simpl. destruct (decide (n = k)) as [<-|Hne].
      * rewrite lookup_insert_eq. intros [= <-]. exact Hb.
      * rewrite lookup_insert_ne by done. apply Hok.
    + rewrite dom_insert_L, union_empty_r_L. apply (comm_L (∪)).
  - intros [= <-]. split; [reflexivity|]. split; [auto|].
    simpl. now rewrite union_empty_r_L.
Qed.

(** What one conditional [add_condition] block does to the space. *)
Lemma when_both_inv {A B} (a : option A) (b : option B)
  (cs cs' : ConfigurationSpace) (n1 n2 : string) (v : value)
  (mk : hyperparameter -> hyperparameter -> value -> condition)
  (mkv : string -> string -> value -> cond_view) :
  (forall ch p, view (mk ch p v) = mkv (hp_name ch) (hp_name p) v) ->
  names_ok cs ->
  when_both a b cs (fun cs => ch ← space_get cs n1;
                              p ← space_get cs n2;
                              Ok (mk ch p v)) = Ok cs' ->
  hyperparameters cs' = hyperparameters cs /\
  map view (conditions cs')
    = map view (conditions cs) ++ (if both a b then [mkv n1 n2 v] else []).
Proof.
  intros Hv Hok. unfold when_both, both.
  destruct a, b; try (intros [= <-]; rewrite app_nil_r; auto).
  intros H. apply bind_Ok in H as (c & Hc & Ha).
  apply bind_Ok in Hc as (ch & Hch & Hc).
  apply bind_Ok in Hc as (p & Hp & [= <-]).
  unfold space_get in Hch, Hp.
  destruct (hyperparameters cs !! n1) as [h1|] eqn:E1; [|discriminate].
  destruct (hyperparameters cs !! n2) as [h2|] eqn:E2; [|discriminate].
  injection Hch as <-. injection Hp as <-.
  apply Hok in E1, E2.
  unfold add_condition in Ha.
  apply bind_Ok in Ha as (? & _ & Ha). apply bind_Ok in Ha as (? & _ & Ha).
  injection Ha as <-. simpl. split; [reflexivity|].
  rewrite map_app. simpl. rewrite Hv, E1, E2. reflexivity.
Qed.

Ltac name_lemma :=
  first [ apply ordinal_name | apply categorical_name
        | apply uniform_float_name | apply uniform_int_name
        | apply tile_um_name ].

(** Peel one hyperparameter block off [H]. *)
Ltac given_step H Hc Hn Hd :=
  let cs' := fresh "cs" in
  let Hs := fresh "Hs" in
  let Hc' := fresh "Hc" in
  let Hn' := fresh "Hn" in
  let Hd' := fresh "Hd" in
  apply bind_Ok in H as (cs' & Hs & H);
  eapply when_given_inv in Hs as (Hc' & Hn' & Hd');
    [| intros ? ?; name_lemma ];
  rewrite Hc in Hc'; specialize (Hn' Hn); rewrite Hd in Hd';
  clear Hc Hn Hd; rename Hc' into Hc; rename Hn' into Hn; rename Hd' into Hd.

(** Peel one condition block off [H]. *)
Ltac both_step H Hc Hn Hd :=
  let cs' := fresh "cs" in
  let Hs := fresh "Hs" in
  let He := fresh "He" in
  let Hv := fresh "Hv" in
  apply bind_Ok in H as (cs' & Hs & H);
  first [ eapply (when_both_inv _ _ _ _ _ _ _ NotEqualsCondition NotEquals)
            in Hs as (He & Hv); [| reflexivity | exact Hn]
        | eapply (when_both_inv _ _ _ _ _ _ _ LessThanCondition LessThan)
            in Hs as (He & Hv); [| reflexivity | exact Hn] ];
  rewrite Hc in Hv;
  assert (Hn' : names_ok cs')
    by (unfold names_ok in *; rewrite He; exact Hn);
  rewrite <- He in Hd;
  clear Hc Hn He; rename Hv into Hc; rename Hn' into Hn.

(** The space [create_search_space] returns: one hyperparameter per supplied
    argument, filed under its name, and the expected conditions. *)
Lemma create_search_space_inv (a : search_args) (cs : ConfigurationSpace) :
  create_search_space a = Ok cs ->
  dom (hyperparameters cs) = list_to_set (given_names a) /\
  names_ok cs /\
  map view (conditions cs) = expected_conditions a.
Proof.
  unfold create_search_space. intros H.
  assert (Hc : map view (conditions empty_space) = []) by reflexivity.
  assert (Hn : names_ok empty_space).
  { intros k h Hk. simpl in Hk. rewrite lookup_empty in Hk. discriminate. }
  assert (Hd : dom (hyperparameters empty_space) = (∅ : gset string))
    by (simpl; apply dom_empty_L).
  assert (Hc0 : conditions empty_space = []) by reflexivity.
  clear Hc. rename Hc0 into Hc.
  do 19 (given_step H Hc Hn Hd).
  assert (Hv : map view (conditions cs18) = []) by (rewrite Hc; reflexivity).
  clear Hc. rename Hv into Hc.
  cbv zeta in H.
  do 4 (both_step H Hc Hn Hd).
  injection H as <-.
  split; [|split; [exact Hn|]].
  - rewrite Hd. unfold given_names.
    rewrite !list_to_set_app_L, union_empty_l_L, <- !(assoc_L (∪)).
    reflexivity.
  - rewrite Hc. unfold expected_conditions. rewrite <- !app_assoc. reflexivity.
Qed.

(** Activity only depends on the names held by the conditions. *)
Lemma is_active_view (cs : ConfigurationSpace) (cfg : configuration)
  (n : string) :
  is_active cs cfg n
  = forallb (fun v => if decide (view_child v = n) then view_holds cfg v
                      else true)
            (map view (conditions cs)).
Proof.
  unfold is_active. induction (conditions cs) as [|c l IH]; simpl;
    [reflexivity|].
  rewrite IH. f_equal. destruct c; reflexivity.
Qed.

Lemma value_eqb_int (z : Z) : value_eqb (VInt z) (VInt 0) = (z =? 0).
Proof.
  unfold value_eqb. simpl. unfold Qeq_bool. simpl.
  rewrite Z.mul_1_r. destruct z; reflexivity.
Qed.

Lemma given_elem {T} (arg : option T) (n : string) :
  is_Some arg -> n ∈ given arg n.
Proof. intros [x ->]. simpl. apply list_elem_of_here. Qed.

(** Find the supplied name in a disjunction of memberships. *)
Ltac find_given :=
  first [ apply list_elem_of_here
        | left; apply list_elem_of_here
        | right; find_given ].

(** Evaluate [is_active] on the expected conditions, by cases on the
    optional arguments that govern them. *)
Ltac eval_active a Hv :=
  rewrite is_active_view, Hv; unfold expected_conditions, both;
  destruct a as [? ? ? ? ? ? ? ? ? ? l1d l2d ? lrd lrds ? ? ? ? ?];
  simpl in *; subst;
  destruct l1d, l2d, lrd, lrds;
  repeat match goal with
         | H : is_Some None |- _ => destruct H; discriminate
         end;
  simpl; repeat case_decide; try discriminate; simpl;
  rewrite ?andb_true_r; reflexivity.

(** C8. In a space built with both [hidden_layers] and [hidden_layer_width]
    supplied, both are hyperparameters of the space and [hidden_layers] is
    unconditional; [hidden_layer_width] is inactive when [hidden_layers] is 0
    and active for any other count; [l1_dense] and [l2_dense], when
    supplied, are active exactly when [hidden_layers] has a value other
    than 0; [learning_rate_decay_steps], when supplied with
    [learning_rate_decay], is active exactly when the decay is below 1. *)
Theorem conditioning_invariant (a : search_args) (hl hw : list Z)
  (cs : ConfigurationSpace) (cfg : configuration) :
  hidden_layers a = Some hl -> hidden_layer_width a = Some hw ->
  create_search_space a = Ok cs ->
  is_Some (hyperparameters cs !! "hidden_layers") /\
  is_Some (hyperparameters cs !! "hidden_layer_width") /\
  is_active cs cfg "hidden_layers" = true /\
  is_active cs cfg "hidden_layer_width"
    = parent_differs cfg "hidden_layers" (VInt 0) /\
  (cfg !! "hidden_layers" = Some (VInt 0) ->
     is_active cs cfg "hidden_layer_width" = false) /\
  (forall z, z <> 0 -> cfg !! "hidden_layers" = Some (VInt z) ->
     is_active cs cfg "hidden_layer_width" = true) /\
  (is_Some (l1_dense a) ->
     is_active cs cfg "l1_dense" = parent_differs cfg "hidden_layers" (VInt 0)) /\
  (is_Some (l2_dense a) ->
     is_active cs cfg "l2_dense" = parent_differs cfg "hidden_layers" (VInt 0)) /\
  (is_Some (learning_rate_decay a) ->
   is_Some (learning_rate_decay_steps a) ->
     is_active cs cfg "learning_rate_decay" = true /\
     is_active cs cfg "learning_rate_decay_steps"
       = parent_below cfg "learning_rate_decay" (VInt 1) /\
     (forall d, cfg !! "learning_rate_decay" = Some (VFloat d) ->
        (is_active cs cfg "learning_rate_decay_steps" = true <-> (d < 1)%Q))).
Proof.
  intros Hhl Hhw H.
  apply create_search_space_inv in H as (Hd & _ & Hv).
  assert (Hw : is_active cs cfg "hidden_layer_width"
               = parent_differs cfg "hidden_layers" (VInt 0)).
  { eval_active a Hv. }
  split.
  { apply elem_of_dom. rewrite Hd. apply elem_of_list_to_set.
    unfold given_names. rewrite Hhl, !elem_of_app. find_given. }
  split.
  { apply elem_of_dom. rewrite Hd. apply elem_of_list_to_set.
    unfold given_names. rewrite Hhw, !elem_of_app. find_given. }
  split.
  { eval_active a Hv. }
  split; [exact Hw|].
  split.
  { intros Hc. rewrite Hw. unfold parent_differs. rewrite Hc. reflexivity. }
  split.
  { intros z Hz Hc. rewrite Hw. unfold parent_differs.
    rewrite Hc, value_eqb_int. now apply Z.eqb_neq in Hz as ->. }
  split.
  { intros Hs. eval_active a Hv. }
  split.
  { intros Hs. eval_active a Hv. }
  intros Hs1 Hs2.
  assert (Hsteps : is_active cs cfg "learning_rate_decay_steps"
                   = parent_below cfg "learning_rate_decay" (VInt 1)).
  { eval_active a Hv. }
  split.
  { eval_active a Hv. }
  split; [exact Hsteps|].
  intros d Hc. rewrite Hsteps. unfold parent_below. rewrite Hc. simpl.
  rewrite negb_true_iff. split.
  - intros Hle. apply Qnot_le_lt. intros Hge.
    apply Qle_bool_iff in Hge. unfold inject_Z in Hle. congruence.
  - intros Hlt. apply not_true_is_false. intros Hge.
    apply Qle_bool_iff in Hge. apply Qlt_not_le in Hlt. contradiction.
Qed.

Lemma conditioning_invariant_witness :
  exists cs,
    create_search_space sample_args = Ok cs /\
    is_active cs {["hidden_layers" := VInt 0]} "hidden_layer_width" = false /\
    is_active cs {["hidden_layers" := VInt 2]} "hidden_layer_width" = true.
Proof.
  eexists. split; [vm_compute; reflexivity|].
  split.
  - eapply (conditioning_invariant sample_args [0; 1; 2] [128; 64]);
      [reflexivity | reflexivity | vm_compute; reflexivity | reflexivity].
  - eapply (conditioning_invariant sample_args [0; 1; 2] [128; 64]) with (z := 2);
      [reflexivity | reflexivity | vm_compute; reflexivity | lia | reflexivity].
Defined.

(** *** The [early_stop] flag *)

Lemma given_elem_inv {T} (arg : option T) (n x : string) :
  x ∈ given arg n -> x = n.
Proof.
  destruct arg; simpl; intros H.
  - now apply list_elem_of_singleton in H.
  - inversion H.
Qed.

Lemma early_stop_not_given (a : search_args) : "early_stop" ∉ given_names a.
Proof.
  unfold given_names. rewrite !elem_of_app.
  intros H.
  repeat (destruct H as [H|H]; [apply given_elem_inv in H; discriminate|]).
  apply given_elem_inv in H; discriminate.
Qed.

Lemma early_stop_absent (a : search_args) (cs : ConfigurationSpace) :
  create_search_space a = Ok cs ->
  hyperparameters cs !! "early_stop" = None.
Proof.
  intros H. apply create_search_space_inv in H as (Hd & _ & _).
  apply not_elem_of_dom. rewrite Hd, elem_of_list_to_set.
  apply early_stop_not_given.
Qed.

Lemma early_stop_ignored (a : search_args) (b : bool) :
  create_search_space (with_early_stop a b) = create_search_space a.
Proof. destruct a. reflexivity. Qed.

(** C10. A space returned by [create_search_space], [broad_search_space] or
    [shallow_search_space] has no hyperparameter named 'early_stop', and
    the value of the [early_stop] argument does not change what any of the
    three returns. *)
Theorem early_stop_never_added (a : search_args) (k : preset_kwargs)
  (b : bool) (cs : ConfigurationSpace) :
  create_search_space a = Ok cs \/ broad_search_space k = Ok cs
  \/ shallow_search_space k = Ok cs ->
  hyperparameters cs !! "early_stop" = None /\
  create_search_space (with_early_stop a b) = create_search_space a /\
  broad_search_space (kw_with_early_stop k (Given b)) = broad_search_space k /\
  shallow_search_space (kw_with_early_stop k (Given b))
    = shallow_search_space k.
Proof.
  intros H. split; [|split; [|split]].
  - destruct H as [H|[H|H]]; eapply early_stop_absent; exact H.
  - apply early_stop_ignored.
  - unfold broad_search_space. simpl.
    match goal with
    | |- create_search_space ?x = create_search_space ?y =>
        change x with (with_early_stop y b)
    end.
    apply early_stop_ignored.
  - unfold shallow_search_space. simpl.
    match goal with
    | |- create_search_space ?x = create_search_space ?y =>
        change x with (with_early_stop y b)
    end.
    apply early_stop_ignored.
Qed.

Lemma early_stop_never_added_witness :
  exists cs,
    create_search_space sample_args = Ok cs /\
    hyperparameters cs !! "early_stop" = None /\
    create_search_space (with_early_stop sample_args false)
      = create_search_space sample_args.
Proof.
  eexists. split; [vm_compute; reflexivity|].
  split.
  - eapply (early_stop_never_added sample_args no_kwargs false).
    left. vm_compute. reflexivity.
  - eapply (early_stop_never_added sample_args no_kwargs false).
    left. vm_compute. reflexivity.
Defined.

(** *** The hyperparameters of the space *)

Lemma when_given_keeps {T} (arg : option T) (cs cs' : ConfigurationSpace)
  (build : T -> result hyperparameter) (k : string) (h : hyperparameter) :
  when_given arg cs build = Ok cs' ->
  hyperparameters cs !! k = Some h -> hyperparameters cs' !! k = Some h.
Proof.
  unfold when_given. destruct arg as [x|]; [|now intros [= <-]].
  intros H Hk. apply bind_Ok in H as (h' & _ & Ha).
  unfold add_hyperparameter in Ha.
  destruct (hyperparameters cs !! hp_name h') eqn:E; [discriminate|].
  injection Ha as <-. simpl. rewrite lookup_insert_ne; [exact Hk|].
  intros <-. congruence.
Qed.

Lemma when_given_adds {T} (x : T) (cs cs' : ConfigurationSpace)
  (build : T -> result hyperparameter) :
  when_given (Some x) cs build = Ok cs' -> built cs' (build x).
Proof.
  unfold when_given. intros H. apply bind_Ok in H as (h & Hb & Ha).
  unfold add_hyperparameter in Ha.
  destruct (hyperparameters cs !! hp_name h) eqn:E; [discriminate|].
  injection Ha as <-. exists h. split; [exact Hb|]. simpl.
  apply lookup_insert_eq.
Qed.

Lemma when_both_keeps {A B} (a : option A) (b : option B)
  (cs cs' : ConfigurationSpace)
  (mk : ConfigurationSpace -> result condition) :
  when_both a b cs mk = Ok cs' -> hyperparameters cs' = hyperparameters cs.
Proof.
  unfold when_both. destruct a, b; try now intros [= <-].
  intros H. apply bind_Ok in H as (c & _ & Ha). unfold add_condition in Ha.
  apply bind_Ok in Ha as (? & _ & Ha). apply bind_Ok in Ha as (? & _ & Ha).
  now injection Ha as <-.
Qed.

Lemma built_keeps {T} (arg : option T) (cs cs' : ConfigurationSpace)
  (build : T -> result hyperparameter) (r : result hyperparameter) :
  when_given arg cs build = Ok cs' -> built cs r -> built cs' r.
Proof.
  intros H (h & Hr & Hh). exists h. split; [exact Hr|].
  apply (when_given_keeps _ _ _ _ _ _ H Hh).
Qed.

Lemma built_same (cs cs' : ConfigurationSpace) (r : result hyperparameter) :
  hyperparameters cs' = hyperparameters cs -> built cs r -> built cs' r.
Proof. intros He (h & Hr & Hh). exists h. now rewrite He. Qed.

(** Carry a hyperparameter that has been built through the later blocks. *)
Ltac carry Hb :=
  repeat match goal with
         | Hk : when_given _ ?c _ = Ok ?c' |- _ =>
             match type of Hb with
             | built c _ => apply (built_keeps _ _ _ _ _ Hk) in Hb
             end
         | Hk : when_both _ _ ?c _ = Ok ?c' |- _ =>
             match type of Hb with
             | built c _ =>
                 apply (built_same _ _ _ (when_both_keeps _ _ _ _ _ Hk)) in Hb
             end
         end.

Ltac built_from Hs Harg :=
  let Hb := fresh "Hb" in
  rewrite Harg in Hs; pose proof (when_given_adds _ _ _ _ Hs) as Hb;
  carry Hb; exact Hb.

(** Every list argument that is supplied has its hyperparameter in the
    space, as its block builds it. *)
Lemma list_blocks_built (a : search_args) (cs : ConfigurationSpace) :
  create_search_space a = Ok cs ->
  (forall l, tile_px a = Some l -> built cs (ordinal "tile_px" l)) /\
  (forall l, tile_um a = Some l -> built cs (tile_um_hp l)) /\
  (forall l, augment a = Some l -> built cs (categorical "augment" l)) /\
  (forall l, normalizer a = Some l ->
             built cs (categorical "normalizer" l)) /\
  (forall l, normalizer_source a = Some l ->
             built cs (categorical "normalizer_source" l)) /\
  (forall l, model a = Some l -> built cs (categorical "model" l)) /\
  (forall l, batch_size a = Some l -> built cs (ordinal "batch_size" l)) /\
  (forall l, hidden_layers a = Some l ->
             built cs (ordinal "hidden_layers" l)) /\
  (forall l, hidden_layer_width a = Some l ->
             built cs (ordinal "hidden_layer_width" l)) /\
  (forall l, pooling a = Some l -> built cs (categorical "pooling" l)).
Proof.
  unfold create_search_space. intros H.
  apply bind_Ok in H as (cs1 & H1 & H).
  apply bind_Ok in H as (cs2 & H2 & H).
  apply bind_Ok in H as (cs3 & H3 & H).
  apply bind_Ok in H as (cs4 & H4 & H).
  apply bind_Ok in H as (cs5 & H5 & H).
  apply bind_Ok in H as (cs6 & H6 & H).
  apply bind_Ok in H as (cs7 & H7 & H).
  apply bind_Ok in H as (cs8 & H8 & H).
  apply bind_Ok in H as (cs9 & H9 & H).
  apply bind_Ok in H as (cs10 & H10 & H).
  apply bind_Ok in H as (cs11 & H11 & H).
  apply bind_Ok in H as (cs12 & H12 & H).
  apply bind_Ok in H as (cs13 & H13 & H).
  apply bind_Ok in H as (cs14 & H14 & H).
  apply bind_Ok in H as (cs15 & H15 & H).
  apply bind_Ok in H as (cs16 & H16 & H).
  apply bind_Ok in H as (cs17 & H17 & H).
  apply bind_Ok in H as (cs18 & H18 & H).
  apply bind_Ok in H as (cs19 & H19 & H).
  cbv zeta in H.
  apply bind_Ok in H as (cs20 & B1 & H).
  apply bind_Ok in H as (cs21 & B2 & H).
  apply bind_Ok in H as (cs22 & B3 & H).
  apply bind_Ok in H as (cs23 & B4 & H).
  injection H as <-.
  repeat split; intros l Hl.
  - built_from H1 Hl.
  - built_from H2 Hl.
  - built_from H3 Hl.
  - built_from H4 Hl.
  - built_from H5 Hl.
  - built_from H6 Hl.
  - built_from H7 Hl.
  - built_from H16 Hl.
  - built_from H17 Hl.
  - built_from H18 Hl.
Qed.

(** X26. Only four hyperparameters can ever be switched off: in a space
    [create_search_space] returns, every name other than
    [hidden_layer_width], [learning_rate_decay_steps], [l1_dense] and
    [l2_dense] is active under every configuration. *)
Theorem only_four_conditional (a : search_args) (cs : ConfigurationSpace)
  (cfg : configuration) (n : string) :
  create_search_space a = Ok cs ->
  n ∉ conditional_names ->
  is_active cs cfg n = true.
Proof.
  intros H Hn. apply create_search_space_inv in H as (_ & _ & Hv).
  rewrite is_active_view, Hv. unfold expected_conditions.
  unfold conditional_names in Hn.
  rewrite !not_elem_of_cons in Hn. destruct Hn as (N1 & N2 & N3 & N4 & _).
  destruct (both (hidden_layers a) (hidden_layer_width a)),
           (both (learning_rate_decay a) (learning_rate_decay_steps a)),
           (both (hidden_layers a) (l1_dense a)),
           (both (hidden_layers a) (l2_dense a));
    simpl; repeat case_decide; try reflexivity; congruence.
Qed.

Lemma only_four_conditional_witness :
  exists cs,
    create_search_space sample_args = Ok cs /\
    is_active cs {["hidden_layers" := VInt 0]} "learning_rate_decay" = true.
Proof.
  eexists. split; [vm_compute; reflexivity|].
  apply (only_four_conditional sample_args).
  - vm_compute. reflexivity.
  - unfold conditional_names. rewrite !not_elem_of_cons.
    repeat split; try discriminate. apply not_elem_of_nil.
Defined.

Lemma sorted_head_least (l : list Z) (d : Z) :
  getitem (sorted l) 0 = Ok d ->
  d ∈ l /\ forall x, x ∈ l -> d <= x.
Proof.
  unfold sorted. intros H.
  pose proof (StronglySorted_merge_sort Z.le l) as Hs.
  pose proof (merge_sort_Permutation Z.le l) as Hp.
  destruct (merge_sort Z.le l) as [|y rest]; [discriminate|].
  unfold getitem in H. simpl in H.
  injection H as <-. split.
  - rewrite <- Hp. left.
  - intros x Hx. rewrite <- Hp in Hx.
    apply elem_of_cons in Hx as [-> | Hx]; [lia|].
    apply StronglySorted_inv in Hs as [_ Hall].
    rewrite Forall_forall in Hall. apply Hall. exact Hx.
Qed.

(** X27. The integer lists [tile_px], [batch_size], [hidden_layers] and
    [hidden_layer_width] become ordinal hyperparameters whose sequence is
    the supplied list in ascending order and whose default is its smallest
    entry, in whatever order the list was written. *)
Theorem ordinal_sorted_with_least_default (a : search_args)
  (cs : ConfigurationSpace) (n : string) (l : list Z) :
  create_search_space a = Ok cs ->
  (n, Some l) ∈ ordinal_args a ->
  exists d,
    hyperparameters cs !! n
    = Some (OrdinalHyperparameter n (map VInt (sorted l)) (VInt d)) /\
    Sorted Z.le (sorted l) /\ sorted l ≡ₚ l /\
    d ∈ l /\ forall x, x ∈ l -> d <= x.
Proof.
  intros H Hin.
  apply list_blocks_built in H
    as (Hpx & _ & _ & _ & _ & _ & Hbs & Hhl & Hhw & _).
  assert (Hb : built cs (ordinal n l)).
  { unfold ordinal_args in Hin. rewrite !elem_of_cons in Hin.
    destruct Hin as [Hi | [Hi | [Hi | [Hi | Hi]]]];
      [injection Hi as -> Hi; symmetry in Hi; auto.. | inversion Hi]. }
  destruct Hb as (h & Hh & Hlook). unfold ordinal in Hh.
  apply bind_Ok in Hh as (d & Hd & [= <-]). simpl in Hlook.
  exists d. split; [exact Hlook|].
  split; [apply Sorted_merge_sort; apply _|].
  split; [apply merge_sort_Permutation|].
  apply sorted_head_least. exact Hd.
Qed.

Lemma ordinal_sorted_with_least_default_witness :
  exists cs,
    create_search_space sample_args = Ok cs /\
    exists d,
      hyperparameters cs !! "hidden_layer_width"
      = Some (OrdinalHyperparameter "hidden_layer_width"
                (map VInt (sorted [128; 64])) (VInt d)) /\
      Sorted Z.le (sorted [128; 64]) /\ sorted [128; 64] ≡ₚ [128; 64] /\
      d ∈ [128; 64] /\ forall x, x ∈ [128; 64] -> d <= x.
Proof.
  eexists. split; [vm_compute; reflexivity|].
  apply (ordinal_sorted_with_least_default sample_args).
  - vm_compute. reflexivity.
  - unfold ordinal_args. rewrite !elem_of_cons. right. right. right. left.
    reflexivity.
Defined.

(** X28. A list argument supplied as an empty list makes
    [create_search_space] raise: the block of that argument reads the first
    entry of the list as the default value. *)
Theorem empty_list_rejected (a : search_args) :
  has_empty_list a -> exists e, create_search_space a = Raise e.
Proof.
  intros He. destruct (create_search_space a) as [cs|e] eqn:H; [|eauto].
  exfalso. apply list_blocks_built in H
    as (H1 & H2 & H3 & H4 & H5 & H6 & H7 & H8 & H9 & H10).
  unfold has_empty_list in He.
  destruct He as [E | [E | [E | [E | [E | [E | [E | [E | [E | E]]]]]]]]];
    [ destruct (H1 _ E) as (h & Hh & _)
    | destruct (H2 _ E) as (h & Hh & _)
    | destruct (H3 _ E) as (h & Hh & _)
    | destruct (H4 _ E) as (h & Hh & _)
    | destruct (H5 _ E) as (h & Hh & _)
    | destruct (H6 _ E) as (h & Hh & _)
    | destruct (H7 _ E) as (h & Hh & _)
    | destruct (H8 _ E) as (h & Hh & _)
    | destruct (H9 _ E) as (h & Hh & _)
    | destruct (H10 _ E) as (h & Hh & _) ];
    vm_compute in Hh; discriminate.
Qed.

Lemma empty_list_rejected_witness :
  exists e, create_search_space empty_batch_args = Raise e.
Proof.
  apply (empty_list_rejected empty_batch_args).
  unfold has_empty_list. do 6 right. left. reflexivity.
Defined.

End SmacProps.

(** ** The legacy batch-file parser *)

Module ModelUtilsProps.
Import ModelUtils.

Lemma false_word_not_true (s : string) : s ∈ false_words -> s ∉ true_words.
Proof.
  unfold false_words, true_words. rewrite !elem_of_cons, !elem_of_nil.
  intros [->|[->|[->|[->|[]]]]]; intuition discriminate.
Qed.

Lemma parse_bool_true (value arg : string) :
  lower value ∈ true_words -> parse_bool value arg = Ok true.
Proof.
  intros H. unfold parse_bool. now rewrite bool_decide_eq_true_2.
Qed.

Lemma parse_bool_false (value arg : string) :
  lower value ∈ false_words -> parse_bool value arg = Ok false.
Proof.
  intros H. unfold parse_bool.
  rewrite bool_decide_eq_false_2 by now apply false_word_not_true.
  now rewrite bool_decide_eq_true_2.
Qed.

Lemma parse_bool_other (value arg : string) :
  lower value ∉ true_words -> lower value ∉ false_words ->
  parse_bool value arg = Raise (ValueError (bool_error value arg)).
Proof.
  intros H1 H2. unfold parse_bool.
  now rewrite !bool_decide_eq_false_2.
Qed.

(** *** Substrings of the error message *)

Lemma is_prefix_app (p s : string) : is_prefix p (p +:+ s) = true.
Proof.
  induction p as [|c p IH]; simpl; [now destruct s|].
  now rewrite bool_decide_eq_true_2.
Qed.

Lemma contains_here (needle s : string) :
  contains (needle +:+ s) needle = true.
Proof.
  destruct (needle +:+ s) eqn:E; simpl; rewrite <- E, is_prefix_app;
    reflexivity.
Qed.

Lemma contains_app_r (p s needle : string) :
  contains s needle = true -> contains (p +:+ s) needle = true.
Proof.
  intros H. induction p as [|c p IH]; simpl; [exact H|].
  rewrite IH. apply orb_true_r.
Qed.

Lemma bool_error_names_value (value arg : string) :
  contains (bool_error value arg) value = true.
Proof.
  unfold bool_error. apply contains_app_r, contains_app_r, contains_here.
Qed.

Lemma bool_error_names_arg (value arg : string) :
  contains (bool_error value arg) arg = true.
Proof.
  unfold bool_error.
  do 6 apply contains_app_r. apply contains_here.
Qed.

(** *** One column, then the whole row *)

Section Row.

Variable fresh_hp : gmap string attr.
Variable _get_args : list string.
Variable py_int : string -> result Z.
Variable py_float : string -> result Q.

Local Abbreviation set_arg := (set_arg _get_args py_int py_float).
Local Abbreviation set_args := (set_args _get_args py_int py_float).
Local Abbreviation get_hp_from_row :=
  (get_hp_from_row fresh_hp _get_args py_int py_float).

(** A boolean field reaches the boolean branch. *)
Lemma set_arg_bool (st : state) (arg value : string) (b0 : bool) :
  arg ∈ _get_args -> arg <> "epochs" -> hp st !! arg = Some (ABool b0) ->
  set_arg st arg value =
    bool_val ← parse_bool value arg;
    Ok (mkState (<[arg := ABool bool_val]> (hp st)) (log_errors st)).
Proof.
  intros Hin Hne Hty. unfold ModelUtils.set_arg.
  rewrite bool_decide_eq_true_2 by done.
  rewrite (bool_decide_eq_false_2 _ Hne). simpl.
  rewrite Hty. reflexivity.
Qed.

Lemma set_args_app (row header pre post : list string) (st : state) :
  set_args row header st (pre ++ post)
  = st' ← set_args row header st pre; set_args row header st' post.
Proof.
  revert st. induction pre as [|a pre IH]; intros st; simpl; [reflexivity|].
  destruct (cell row header a) as [v|]; simpl; [|reflexivity].
  destruct (set_arg st a v) as [st1|]; simpl; [|reflexivity].
  apply IH.
Qed.

(** Other columns leave a field alone; the same column writes the same
    value again. *)
Lemma set_arg_keeps (st st' : state) (arg value a v : string) (b : bool) :
  arg ∈ _get_args -> arg <> "epochs" ->
  parse_bool value arg = Ok b ->
  (a = arg -> v = value) ->
  hp st !! arg = Some (ABool b) ->
  set_arg st a v = Ok st' ->
  hp st' !! arg = Some (ABool b).
Proof.
  intros Hin Hne Hp Hsame Hty.
  destruct (decide (a = arg)) as [->|Hd].
  - rewrite (Hsame eq_refl), (set_arg_bool st arg value b) by assumption.
    rewrite Hp. simpl. intros [= <-]. simpl. apply lookup_insert_eq.
  - unfold ModelUtils.set_arg.
    repeat match goal with
           | |- context [if ?c then _ else _] => destruct c; simpl
           | |- context [match ?m with Some _ => _ | None => _ end] =>
               destruct m; simpl
           | |- context [match ?m with Ok _ => _ | Raise _ => _ end] =>
               destruct m; simpl
           | |- context [?m ≫= _] => destruct m; simpl
           end;
      intros [= <-]; simpl; rewrite ?lookup_insert_ne by done; assumption.
Qed.

Lemma set_args_keeps (row header : list string) (arg value : string)
  (b : bool) (post : list string) (st st' : state) :
  arg ∈ _get_args -> arg <> "epochs" ->
  parse_bool value arg = Ok b ->
  cell row header arg = Ok value ->
  hp st !! arg = Some (ABool b) ->
  set_args row header st post = Ok st' ->
  hp st' !! arg = Some (ABool b).
Proof.
  intros Hin Hne Hp Hcell. revert st.
  induction post as [|a post IH]; intros st Hty; simpl.
  - intros [= <-]. exact Hty.
  - destruct (cell row header a) as [v|] eqn:Ec; simpl; [|discriminate].
    destruct (set_arg st a v) as [st1|] eqn:Es; simpl; [|discriminate].
    assert (Hsame : a = arg -> v = value) by (intros ->; congruence).
    apply IH.
    exact (set_arg_keeps st st1 arg value a v b Hin Hne Hp Hsame Hty Es).
Qed.

(** C9. Take a row whose columns before [arg] were coerced without error,
    [arg] being a boolean field whose cell holds [value].  If the lower-cased
    cell is one of 'true', 'yes', 'y', 't' the field is set to true and the
    row goes on with the remaining columns, and the object finally returned
    has the field true; likewise with 'false', 'no', 'n', 'f' and false.
    For any other cell [get_hp_from_row] raises a [ValueError] whose message
    contains both the cell and the field name. *)
Theorem get_hp_from_row_bool (row header pre post : list string)
  (arg value model_name : string) (i : nat) (st : state) (b0 : bool) :
  list_index "model_name" header = Ok i ->
  take i header ++ drop (S i) header = pre ++ arg :: post ->
  getitem row (Z.of_nat i) = Ok model_name ->
  set_args row header (mkState fresh_hp []) pre = Ok st ->
  cell row header arg = Ok value ->
  arg ∈ _get_args -> arg <> "epochs" -> hp st !! arg = Some (ABool b0) ->
  (forall b,
     (b = true /\ lower value ∈ true_words) \/
     (b = false /\ lower value ∈ false_words) ->
     set_arg st arg value
       = Ok (mkState (<[arg := ABool b]> (hp st)) (log_errors st)) /\
     get_hp_from_row row header =
       (st' ← set_args row header
                (mkState (<[arg := ABool b]> (hp st)) (log_errors st)) post;
        Ok (st', model_name)) /\
     (forall st' m, get_hp_from_row row header = Ok (st', m) ->
        hp st' !! arg = Some (ABool b))) /\
  (lower value ∉ true_words -> lower value ∉ false_words ->
     get_hp_from_row row header = Raise (ValueError (bool_error value arg)) /\
     contains (bool_error value arg) value = true /\
     contains (bool_error value arg) arg = true).
Proof.
  intros Hi Hargs Hm Hpre Hcell Hin Hne Hty.
  assert (Hrow : get_hp_from_row row header =
                 (st1 ← set_arg st arg value;
                  st' ← set_args row header st1 post;
                  Ok (st', model_name))).
  { unfold ModelUtils.get_hp_from_row. rewrite Hi. simpl.
    rewrite Hm. simpl. rewrite Hargs, set_args_app, Hpre. simpl.
    rewrite Hcell. simpl.
    destruct (set_arg st arg value); reflexivity. }
  split.
  - intros b Hb.
    assert (Hp : parse_bool value arg = Ok b).
    { destruct Hb as [[-> H]|[-> H]];
        [now apply parse_bool_true | now apply parse_bool_false]. }
    assert (Hs : set_arg st arg value
                 = Ok (mkState (<[arg := ABool b]> (hp st)) (log_errors st))).
    { rewrite (set_arg_bool st arg value b0) by assumption.
      rewrite Hp. reflexivity. }
    split; [exact Hs|]. split.
    + rewrite Hrow, Hs. reflexivity.
    + intros st' m. rewrite Hrow, Hs. simpl.
      destruct (set_args row header _ post) as [st2|] eqn:E; simpl;
        [|discriminate].
      intros [= <- _].
      eapply set_args_keeps; [exact Hin|exact Hne|exact Hp|exact Hcell| |exact E].
      simpl. apply lookup_insert_eq.
  - intros H1 H2. split; [|split].
    + rewrite Hrow, (set_arg_bool st arg value b0) by assumption.
      rewrite parse_bool_other by assumption. reflexivity.
    + apply bool_error_names_value.
    + apply bool_error_names_arg.
Qed.

End Row.

(** The row ["yes", "m1"] under the header [sample_header] sets the field;
    with "maybe" the message names the cell and the field. *)
Lemma get_hp_from_row_bool_witness :
  (exists st,
     get_hp_from_row sample_hp ["early_stop"] no_int no_float
       ["YES"; "m1"] sample_header = Ok (st, "m1") /\
     hp st !! "early_stop" = Some (ABool true)) /\
  get_hp_from_row sample_hp ["early_stop"] no_int no_float
    ["maybe"; "m1"] sample_header
  = Raise (ValueError (bool_error "maybe" "early_stop")).
Proof.
  split.
  - eexists. split; [vm_compute; reflexivity|].
    eapply (get_hp_from_row_bool sample_hp ["early_stop"] no_int no_float
              ["YES"; "m1"] sample_header [] [] "early_stop" "YES" "m1" 1
              (mkState sample_hp []) false);
      try reflexivity.
    + apply list_elem_of_here.
    + discriminate.
    + left. split; [reflexivity|].
      vm_compute. apply list_elem_of_further, list_elem_of_here.
  - eapply (get_hp_from_row_bool sample_hp ["early_stop"] no_int no_float
              ["maybe"; "m1"] sample_header [] [] "early_stop" "maybe" "m1" 1
              (mkState sample_hp []) false);
      try reflexivity.
    + apply list_elem_of_here.
    + discriminate.
    + change (lower "maybe") with "maybe". unfold true_words.
      rewrite !elem_of_cons, elem_of_nil. intuition discriminate.
    + change (lower "maybe") with "maybe". unfold false_words.
      rewrite !elem_of_cons, elem_of_nil. intuition discriminate.
Defined.

(** *** [to_onehot] *)

Lemma sum_insert_one (n k : nat) :
  (k < n)%nat -> foldr Z.add 0 (<[k := 1]> (replicate n 0)) = 1.
Proof.
  revert k. induction n as [|n IH]; intros k Hk; [lia|].
  destruct k as [|k]; simpl.
  - clear IH Hk. induction n as [|n IH]; simpl; lia.
  - rewrite IH by lia. reflexivity.
Qed.

(** X1. For an index in range, counted from the end when negative,
    [to_onehot] returns a vector of the requested length that holds 1 at
    the index and 0 elsewhere, so that its entries sum to 1. *)
Theorem to_onehot_one_hot (val max : Z) :
  - max <= val < max ->
  exists v,
    to_onehot val max = Ok v /\
    length v = Z.to_nat max /\
    v !! Z.to_nat (val mod max) = Some 1 /\
    (forall j, j <> Z.to_nat (val mod max) -> (j < Z.to_nat max)%nat ->
       v !! j = Some 0) /\
    foldr Z.add 0 v = 1.
Proof.
  intros Hv. unfold to_onehot.
  destruct (Z.ltb_spec max 0) as [?|_]; [lia|].
  set (j := if val <? 0 then val + max else val).
  assert (Hj : j = val mod max).
  { subst j. destruct (Z.ltb_spec val 0).
    - apply (Z.mod_unique_pos _ _ (-1)); lia.
    - symmetry. apply Z.mod_small. lia. }
  assert (Hjr : 0 <= j < max).
  { subst j. destruct (Z.ltb_spec val 0); lia. }
  destruct (Z.ltb_spec j 0) as [?|_]; [lia|].
  destruct (Z.leb_spec max j) as [?|_]; [lia|]. simpl.
  rewrite <- Hj. eexists. split; [reflexivity|].
  split; [now rewrite length_insert, length_replicate|].
  split; [|split].
  - apply list_lookup_insert_eq. rewrite length_replicate. lia.
  - intros k Hk Hlt. rewrite list_lookup_insert_ne by done.
    apply lookup_replicate. split; [reflexivity|lia].
  - apply sum_insert_one. lia.
Qed.

Lemma to_onehot_one_hot_witness :
  exists v,
    to_onehot (-1) 3 = Ok v /\
    length v = Z.to_nat 3 /\
    v !! Z.to_nat (-1 mod 3) = Some 1 /\
    (forall j, j <> Z.to_nat (-1 mod 3) -> (j < Z.to_nat 3)%nat ->
       v !! j = Some 0) /\
    foldr Z.add 0 v = 1.
Proof. apply (to_onehot_one_hot (-1) 3). lia. Defined.



(** *** [get_hp_from_batch_file] *)

Import PyProps.

Lemma check_rows_spec (shown : string) (models : list string) (i : nat)
  (rows : list (list string)) :
  forall v0 v,
  check_rows shown models i rows v0 = Returned v ->
  forall x, x ∈ v <->
    x ∈ v0 \/ (x ∈ models /\
               exists row, row ∈ rows /\ getitem row (Z.of_nat i) = Ok x).
Proof.
  induction rows as [|row rows IH]; intros v0 v H x; simpl in H.
  - injection H as <-. split; [auto|].
    intros [?|(_ & row & Hr & _)]; [assumption|inversion Hr].
  - destruct (getitem row (Z.of_nat i)) as [name|] eqn:Eg; [|discriminate].
    destruct (bool_decide (name ∈ models)) eqn:Em.
    + apply bool_decide_eq_true in Em.
      destruct (bool_decide (name ∈ v0)); [discriminate|].
      rewrite (IH _ _ H x), elem_of_app, list_elem_of_singleton.
      split.
      * intros [[? | ->] | (Hx & r & Hr & Hg)]; [auto| |].
        -- right. split; [assumption|]. exists row. split; [left|assumption].
        -- right. split; [assumption|]. exists r. split; [now right|assumption].
      * intros [?|(Hx & r & Hr & Hg)]; [auto|].
        apply elem_of_cons in Hr as [->|Hr].
        -- left. right. congruence.
        -- right. split; [assumption|]. exists r. split; assumption.
    + apply bool_decide_eq_false in Em.
      rewrite (IH _ _ H x). split.
      * intros [?|(Hx & r & Hr & Hg)]; [auto|].
        right. split; [assumption|]. exists r. split; [now right|assumption].
      * intros [?|(Hx & r & Hr & Hg)]; [auto|].
        apply elem_of_cons in Hr as [->|Hr].
        -- exfalso. apply Em. congruence.
        -- right. split; [assumption|]. exists r. split; assumption.
Qed.

Section Batch.

Variable fresh_hp : gmap string attr.
Variable _get_args : list string.
Variable py_int : string -> result Z.
Variable py_float : string -> result Q.
Variable set_list : list string -> list string.

Local Abbreviation row_hp :=
  (ModelUtils.get_hp_from_row fresh_hp _get_args py_int py_float).
Local Abbreviation parse_rows :=
  (ModelUtils.parse_rows fresh_hp _get_args py_int py_float).
Local Abbreviation batch :=
  (ModelUtils.get_hp_from_batch_file fresh_hp _get_args py_int py_float
     set_list).

(** The name a parsed row is filed under is its [model_name] cell. *)
Lemma row_hp_name (row header : list string) (st : state) (x : string) :
  row_hp row header = Ok (st, x) ->
  exists i, list_index "model_name" header = Ok i /\
            getitem row (Z.of_nat i) = Ok x.
Proof.
  unfold ModelUtils.get_hp_from_row. intros H.
  apply bind_Ok in H as (i & Hi & H).
  apply bind_Ok in H as (name & Hn & H).
  apply bind_Ok in H as (st' & _ & [= _ <-]).
  exists i. split; assumption.
Qed.

(** The parsing loop: every row is parsed; the keys are the ones already
    there and the names of the rows that pass the filter; the last row of a
    name decides its entry. *)
Lemma parse_rows_spec (models header : list string)
  (rows : list (list string)) :
  forall d0 d,
  parse_rows models header rows d0 = Returned d ->
  (forall row, row ∈ rows -> exists st x, row_hp row header = Ok (st, x)) /\
  (forall x, is_Some (d !! x) <->
     is_Some (d0 !! x) \/
     exists row st, row ∈ rows /\ row_hp row header = Ok (st, x) /\
                    (models = [] \/ x ∈ models)) /\
  (forall pre row post st x,
     rows = pre ++ row :: post ->
     row_hp row header = Ok (st, x) ->
     models = [] \/ x ∈ models ->
     (forall r st' y, r ∈ post -> row_hp r header = Ok (st', y) -> y <> x) ->
     d !! x = Some st) /\
  (forall x, (forall r st' y, r ∈ rows -> row_hp r header = Ok (st', y) ->
                              y <> x) ->
     d !! x = d0 !! x).
Proof.
  induction rows as [|row rows IH]; intros d0 d H; simpl in H.
  - injection H as <-. split; [|split; [|split]].
    + intros row Hr. inversion Hr.
    + intros x. split; [auto|].
      intros [?|(row & st & Hr & _)]; [assumption|inversion Hr].
    + intros [|? ?] ? ? ? ? Hp; discriminate.
    + reflexivity.
  - destruct (row_hp row header) as [[st name]|] eqn:Er; [|discriminate].
    assert (Hkeep : models = [] \/ name ∈ models ->
              negb (bool_decide (models = []))
              && negb (bool_decide (name ∈ models)) = false).
    { intros [->|Hin]; [reflexivity|].
      rewrite (bool_decide_eq_true_2 _ Hin). apply andb_false_r. }
    assert (Hskip : ~ (models = [] \/ name ∈ models) ->
              negb (bool_decide (models = []))
              && negb (bool_decide (name ∈ models)) = true).
    { intros Hn. rewrite !bool_decide_eq_false_2; [reflexivity| |]; tauto. }
    destruct (decide (models = [] \/ name ∈ models)) as [Hk|Hk].
    + rewrite (Hkeep Hk) in H.
      destruct (IH _ _ H) as (A & B & C & D).
      split; [|split; [|split]].
      * intros r Hr. apply elem_of_cons in Hr as [->|Hr]; eauto.
      * intros x. rewrite B. split.
        -- intros [Hx|(r & s & Hr & Hp & Hm)].
           ++ destruct (decide (name = x)) as [<-|Hne].
              ** right. exists row, st. split; [left|auto].
              ** rewrite lookup_insert_ne in Hx by done. auto.
           ++ right. exists r, s. split; [now right|auto].
        -- intros [Hx|(r & s & Hr & Hp & Hm)].
           ++ left. destruct (decide (name = x)) as [<-|Hne].
              ** rewrite lookup_insert_eq. eauto.
              ** now rewrite lookup_insert_ne.
           ++ apply elem_of_cons in Hr as [->|Hr].
              ** left. rewrite Hp in Er. injection Er as _ <-.
                 rewrite lookup_insert_eq. eauto.
              ** right. exists r, s. auto.
      * intros pre r post s x Hrows Hp Hm Hlast.
        destruct pre as [|r0 pre]; simpl in Hrows.
        -- injection Hrows as <- <-. rewrite Hp in Er. injection Er as <- <-.
           rewrite (D x Hlast). apply lookup_insert_eq.
        -- injection Hrows as <- ->. eapply C; eauto.
      * intros x Hx. rewrite D.
        -- apply lookup_insert_ne. intros ->.
           apply (Hx row st x); [left|assumption|reflexivity].
        -- intros r s y Hr. apply Hx. now right.
    + rewrite (Hskip Hk) in H.
      destruct (IH _ _ H) as (A & B & C & D).
      split; [|split; [|split]].
      * intros r Hr. apply elem_of_cons in Hr as [->|Hr]; eauto.
      * intros x. rewrite B. split.
        -- intros [Hx|(r & s & Hr & Hp & Hm)]; [auto|].
           right. exists r, s. split; [now right|auto].
        -- intros [Hx|(r & s & Hr & Hp & Hm)]; [auto|].
           apply elem_of_cons in Hr as [->|Hr].
           ++ exfalso. rewrite Hp in Er. injection Er as _ <-. tauto.
           ++ right. exists r, s. auto.
      * intros pre r post s x Hrows Hp Hm Hlast.
        destruct pre as [|r0 pre]; simpl in Hrows.
        -- injection Hrows as <- <-. rewrite Hp in Er. injection Er as _ <-.
           tauto.
        -- injection Hrows as <- ->. eapply C; eauto.
      * intros x Hx. apply D. intros r s y Hr. apply Hx. now right.
Qed.

Lemma parse_rows_failure (models header : list string)
  (rows : list (list string)) (d0 : gmap string state) (e : batch_error) :
  parse_rows models header rows d0 = Failed e -> exists e', e = RowError e'.
Proof.
  revert d0. induction rows as [|row rows IH]; intros d0 H; simpl in H;
    [discriminate|].
  destruct (row_hp row header) as [[st name]|e0].
  - destruct (_ && _); eapply IH; exact H.
  - injection H as <-. eauto.
Qed.

Lemma check_rows_failure (shown : string) (models : list string) (i : nat)
  (rows : list (list string)) (v0 : list string) (e : batch_error) :
  check_rows shown models i rows v0 = Failed e -> exists e', e = RowError e'.
Proof.
  revert v0. induction rows as [|row rows IH]; intros v0 H; simpl in H;
    [discriminate|].
  destruct (getitem row (Z.of_nat i)) as [name|e0].
  - destruct (bool_decide (name ∈ models)); [|eapply IH; exact H].
    destruct (bool_decide (name ∈ v0)); [|eapply IH; exact H].
    injection H as <-. eauto.
  - injection H as <-. eauto.
Qed.

(** X3. With a list of models, the call fails with the 'Duplicate model
    names provided.' error exactly when listing the set of the names does
    not give the list back: always when a name is repeated, and also when
    the names are distinct but the set lists them in another order. *)
Theorem batch_model_order (shown : string) (file : list (list string))
  (l : list string) :
  (get_hp_from_batch_file fresh_hp _get_args py_int py_float set_list
     shown file (Some l)
     = Failed (UserError "Duplicate model names provided.")
   <-> set_list l <> l) /\
  (NoDup (set_list l) -> ~ NoDup l ->
   get_hp_from_batch_file fresh_hp _get_args py_int py_float set_list
     shown file (Some l)
     = Failed (UserError "Duplicate model names provided.")).
Proof.
  assert (Hiff : batch shown file (Some l)
                   = Failed (UserError "Duplicate model names provided.")
                 <-> set_list l <> l).
  { unfold ModelUtils.get_hp_from_batch_file.
    destruct (decide (set_list l = l)) as [He|Hne].
    - rewrite (bool_decide_eq_true_2 _ He). simpl negb. cbv iota.
      split; [|tauto]. intros H. exfalso. simpl default in H.
      assert (Hparse : forall rows header,
                parse_rows l header rows ∅
                <> Failed (UserError "Duplicate model names provided.")).
      { intros rows header Hp.
        apply parse_rows_failure in Hp as [? ?]. discriminate. }
      destruct (negb (bool_decide (l = []))).
      + destruct file as [|header rows]; [discriminate|].
        destruct (list_index "model_name" header) as [i|]; [|discriminate].
        destruct (check_rows shown l i rows []) as [v|e] eqn:Ec.
        * destruct (negb _); [discriminate|]. exact (Hparse _ _ H).
        * apply check_rows_failure in Ec as [? ->]. discriminate.
      + destruct file as [|header rows]; [discriminate|].
        exact (Hparse _ _ H).
    - rewrite (bool_decide_eq_false_2 _ Hne). simpl. tauto. }
  split; [exact Hiff|].
  intros Hnd Hdup. apply Hiff. intros He. apply Hdup. rewrite <- He. exact Hnd.
Qed.

(** X4. When a non-empty list of models is given and a dictionary is
    returned, its keys are exactly the requested models. *)
Theorem batch_keys_requested (shown : string) (file : list (list string))
  (l : list string) (d : gmap string state) :
  l <> [] ->
  get_hp_from_batch_file fresh_hp _get_args py_int py_float set_list
     shown file (Some l) = Returned d ->
  forall x, is_Some (d !! x) <-> x ∈ l.
Proof.
  intros Hl H x. unfold ModelUtils.get_hp_from_batch_file in H.
  destruct (negb (bool_decide (set_list l = l))); [discriminate|].
  simpl default in H.
  rewrite (bool_decide_eq_false_2 _ Hl) in H. simpl negb in H. cbv iota in H.
  destruct file as [|header rows]; [discriminate|].
  destruct (list_index "model_name" header) as [i|] eqn:Ei; [|discriminate].
  destruct (check_rows shown l i rows []) as [v|] eqn:Ec; [|discriminate].
  destruct (bool_decide (filter (fun m => m ∉ v) l = [])) eqn:Em;
    [|discriminate].
  apply bool_decide_eq_true in Em. simpl in H.
  destruct (parse_rows_spec _ _ _ _ _ H) as (Hall & Hdom & _ & _).
  rewrite Hdom, lookup_empty. split.
  - intros [[? ?]|(row & st & _ & _ & [?|?])];
      [discriminate | contradiction | assumption].
  - intros Hx. right.
    assert (Hv : x ∈ v).
    { destruct (decide (x ∈ v)) as [?|Hn]; [assumption|].
      assert (Hf : x ∈ filter (fun m => m ∉ v) l)
        by (apply list_elem_of_filter; split; assumption).
      rewrite Em in Hf. inversion Hf. }
    apply (check_rows_spec _ _ _ _ _ _ Ec) in Hv
      as [Hv|(_ & row & Hr & Hg)]; [inversion Hv|].
    destruct (Hall row Hr) as (st & y & Hp).
    exists row, st. split; [assumption|]. split; [|now right].
    destruct (row_hp_name _ _ _ _ Hp) as (i' & Hi' & Hg').
    rewrite Ei in Hi'. injection Hi' as <-.
    rewrite Hg in Hg'. injection Hg' as <-. exact Hp.
Qed.

(** X5. A returned dictionary means that every row of the file was parsed,
    requested or not; and the entry of a name is the object parsed from the
    last row that carries it. *)
Theorem batch_last_row_wins (shown : string) (header : list string)
  (rows : list (list string)) (models : option (list string))
  (d : gmap string state) :
  get_hp_from_batch_file fresh_hp _get_args py_int py_float set_list
     shown (header :: rows) models = Returned d ->
  (forall row, row ∈ rows ->
     exists st x,
       get_hp_from_row fresh_hp _get_args py_int py_float row header
       = Ok (st, x)) /\
  (forall pre row post st x,
     rows = pre ++ row :: post ->
     get_hp_from_row fresh_hp _get_args py_int py_float row header
     = Ok (st, x) ->
     default [] models = [] \/ x ∈ default [] models ->
     (forall r st' y,
        r ∈ post ->
        get_hp_from_row fresh_hp _get_args py_int py_float r header
        = Ok (st', y) ->
        y <> x) ->
     d !! x = Some st).
Proof.
  intros H. unfold ModelUtils.get_hp_from_batch_file in H.
  destruct (match models with Some _ => _ | None => _ end); [discriminate|].
  match type of H with
  | match ?v with Returned _ => _ | Failed _ => _ end = _ =>
      destruct v; [|discriminate]
  end.
  destruct (parse_rows_spec _ _ _ _ _ H) as (Hall & _ & Hlast & _).
  split; [exact Hall|exact Hlast].
Qed.

End Batch.

(** Two rows for the same model: the second one decides. *)
Lemma batch_last_row_wins_witness :
  exists d st,
    get_hp_from_batch_file sample_hp ["early_stop"] no_int no_float
      remove_dups "batch.tsv"
      [sample_header; ["yes"; "m1"]; ["no"; "m1"]] None = Returned d /\
    get_hp_from_row sample_hp ["early_stop"] no_int no_float
      ["no"; "m1"] sample_header = Ok (st, "m1") /\
    d !! "m1" = Some st.
Proof.
  eexists _, _. split; [vm_compute; reflexivity|].
  split; [vm_compute; reflexivity|].
  refine (proj2 (batch_last_row_wins sample_hp ["early_stop"] no_int no_float
                   remove_dups "batch.tsv" sample_header
                   [["yes"; "m1"]; ["no"; "m1"]] None _ _)
                [["yes"; "m1"]] ["no"; "m1"] [] _ "m1" _ _ _ _).
  - vm_compute. reflexivity.
  - reflexivity.
  - vm_compute. reflexivity.
  - left. reflexivity.
  - intros r st' y Hr. inversion Hr.
Defined.

Lemma batch_keys_requested_witness :
  exists d,
    get_hp_from_batch_file sample_hp ["early_stop"] no_int no_float
      remove_dups "batch.tsv"
      [sample_header; ["yes"; "m1"]; ["no"; "m2"]] (Some ["m2"])
      = Returned d /\
    (is_Some (d !! "m2") <-> "m2" ∈ ["m2"]) /\
    (is_Some (d !! "m1") <-> "m1" ∈ ["m2"]).
Proof.
  eexists. split; [vm_compute; reflexivity|].
  split;
    apply (batch_keys_requested sample_hp ["early_stop"] no_int no_float
             remove_dups "batch.tsv"
             [sample_header; ["yes"; "m1"]; ["no"; "m2"]] ["m2"]);
    (discriminate || (vm_compute; reflexivity)).
Defined.

Lemma batch_model_order_witness :
  get_hp_from_batch_file sample_hp ["early_stop"] no_int no_float
    remove_dups "batch.tsv" [] (Some ["m1"; "m1"])
  = Failed (UserError "Duplicate model names provided.").
Proof.
  apply (batch_model_order sample_hp ["early_stop"] no_int no_float
           remove_dups "batch.tsv" [] ["m1"; "m1"]).
  - apply NoDup_remove_dups.
  - intros H. apply NoDup_cons in H as [H _]. apply H. left.
Defined.

(** *** Repeated column names *)

Lemma list_index_first (y : string) (l : list string) :
  forall k, list_index y l = Ok k ->
            l !! k = Some y /\ forall k', (k' < k)%nat -> l !! k' <> Some y.
Proof.
  induction l as [|z l IH]; intros k H; simpl in H; [discriminate|].
  destruct (decide (z = y)) as [-> | Hne].
  - injection H as <-. split; [reflexivity | lia].
  - destruct (list_index y l) as [k0|] eqn:Hk; simpl in H; [|discriminate].
    injection H as <-. destruct (IH k0 eq_refl) as [H1 H2].
    split; [exact H1|]. intros [|k'] Hlt; simpl; [congruence|].
    apply H2. lia.
Qed.

Lemma getitem_insert_ne {A} (l : list A) (j k : nat) (v : A) :
  k <> j -> getitem (<[j := v]> l) (Z.of_nat k) = getitem l (Z.of_nat k).
Proof.
  intros Hne. unfold getitem. rewrite length_insert.
  destruct (Z.ltb_spec (Z.of_nat k) 0) as [?|_]; [lia|].
  destruct (_ || _); [reflexivity|].
  rewrite Nat2Z.id, list_lookup_insert_ne by congruence. reflexivity.
Qed.

Section Duplicates.

Variable fresh_hp : gmap string attr.
Variable _get_args : list string.
Variable py_int : string -> result Z.
Variable py_float : string -> result Q.

Variables (row header : list string) (i j : nat) (x v : string).
Hypothesis first_column : header !! i = Some x.
Hypothesis later_column : header !! j = Some x.
Hypothesis before : (i < j)%nat.

Lemma first_index_not_later (y : string) (k : nat) :
  list_index y header = Ok k -> k <> j.
Proof.
  intros Hk ->. apply list_index_first in Hk as [Hy Hfirst].
  assert (y = x) by congruence. subst y.
  apply (Hfirst i before first_column).
Qed.

Lemma cell_ignores_later (arg : string) :
  cell (<[j := v]> row) header arg = cell row header arg.
Proof.
  unfold cell. destruct (list_index arg header) as [k|] eqn:Hk; simpl;
    [|reflexivity].
  apply getitem_insert_ne. apply (first_index_not_later _ _ Hk).
Qed.

Lemma set_args_ignores_later (args : list string) :
  forall st,
  set_args _get_args py_int py_float (<[j := v]> row) header st args
  = set_args _get_args py_int py_float row header st args.
Proof.
  induction args as [|arg args IH]; intros st; simpl; [reflexivity|].
  rewrite cell_ignores_later.
  destruct (cell row header arg) as [value|]; simpl; [|reflexivity].
  destruct (set_arg _ _ _ st arg value); simpl; [apply IH | reflexivity].
Qed.

Lemma row_ignores_later :
  get_hp_from_row fresh_hp _get_args py_int py_float (<[j := v]> row) header
  = get_hp_from_row fresh_hp _get_args py_int py_float row header.
Proof.
  unfold get_hp_from_row.
  destruct (list_index "model_name" header) as [m|] eqn:Hm; simpl;
    [|reflexivity].
  rewrite (getitem_insert_ne _ _ _ _ (first_index_not_later _ _ Hm)).
  destruct (getitem row (Z.of_nat m)); simpl; [|reflexivity].
  rewrite set_args_ignores_later. reflexivity.
Qed.

End Duplicates.

(** X29. When a column name occurs twice in the header, only the first of
    the two columns is read: whatever stands in a row under the later one
    has no influence on what [get_hp_from_row] returns or raises. *)
Theorem repeated_column_reads_first (fresh_hp : gmap string attr)
  (_get_args : list string) (py_int : string -> result Z)
  (py_float : string -> result Q) (row header : list string) (i j : nat)
  (x v : string) :
  header !! i = Some x -> header !! j = Some x -> (i < j)%nat ->
  get_hp_from_row fresh_hp _get_args py_int py_float (<[j := v]> row) header
  = get_hp_from_row fresh_hp _get_args py_int py_float row header.
Proof. apply row_ignores_later. Qed.

Lemma repeated_column_reads_first_witness :
  get_hp_from_row sample_hp ["early_stop"] no_int no_float
    (<[2%nat := "no"]> ["yes"; "m1"; "maybe"])
    ["early_stop"; "model_name"; "early_stop"]
  = get_hp_from_row sample_hp ["early_stop"] no_int no_float
      ["yes"; "m1"; "maybe"] ["early_stop"; "model_name"; "early_stop"].
Proof.
  apply (repeated_column_reads_first sample_hp ["early_stop"] no_int no_float
           ["yes"; "m1"; "maybe"] ["early_stop"; "model_name"; "early_stop"]
           0 2 "early_stop" "no");
    [reflexivity | reflexivity | lia].
Defined.

End ModelUtilsProps.

(** ** The TFRecord reader *)

Module TFRecordProps.
Import PyProps.
Import TFRecord.

(** *** Reading well-formed records *)

Lemma frame_bytes_length (fr : frame) :
  frame_ok fr ->
  length (frame_bytes fr) = (16 + length (payload fr))%nat.
Proof.
  intros (H8 & H4 & H4' & _). unfold frame_bytes.
  rewrite !length_app. lia.
Qed.

Lemma encode_app (a b : list frame) : encode (a ++ b) = encode a ++ encode b.
Proof. apply flat_map_app. Qed.

Lemma encode_length_ge (frs : list frame) :
  Forall frame_ok frs -> (length frs <= length (encode frs))%nat.
Proof.
  induction 1 as [|fr frs Hfr _ IH]; simpl; [lia|].
  rewrite length_app, frame_bytes_length by assumption. lia.
Qed.

Lemma readinto_at (f : data_file) (p x rest : list byte) (pos k : nat) :
  contents f = p ++ x ++ rest -> pos = length p -> k = length x ->
  readinto f pos k = x.
Proof.
  intros Hc -> ->. unfold readinto. rewrite Hc.
  rewrite drop_app_length. apply take_app_length.
Qed.

Lemma read_loop_unfold (fuel : nat) (f : data_file) (pos : nat)
  (end_offset : Z) (buf : N) :
  read_loop (S fuel) f pos end_offset buf =
    if Z.of_nat pos <? end_offset then
      let length_bytes := readinto f pos 8 in
      if negb (length length_bytes =? 8)%nat
      then fail (RuntimeError "Failed to read the record size.")
      else
      let pos := (pos + 8)%nat in
      let crc_bytes := readinto f pos 4 in
      if negb (length crc_bytes =? 4)%nat
      then fail (RuntimeError "Failed to read the start token.")
      else
      let pos := (pos + 4)%nat in
      let len := le64 length_bytes in
      if (buf <? len)%N && (ssize_max <? grown len)%N
      then fail (OverflowError
             "Error reading tfrecords; please try regenerating index files")
      else
      let buf := if (buf <? len)%N then N.max buf (grown len) else buf in
      let datum_bytes_view := readinto f pos (N.to_nat len) in
      if negb (length datum_bytes_view =? N.to_nat len)%nat
      then fail (RuntimeError "Failed to read the record.")
      else
      let pos := (pos + N.to_nat len)%nat in
      let crc_bytes := readinto f pos 4 in
      if negb (length crc_bytes =? 4)%nat
      then fail (RuntimeError "Failed to read the end token.")
      else
      let pos := (pos + 4)%nat in
      yield datum_bytes_view (read_loop fuel f pos end_offset buf)
    else mkStream [] Done.
Proof. reflexivity. Qed.

(** One round of the loop on a well-formed record. *)
Lemma read_loop_frame (fuel : nat) (f : data_file) (pre rest : list byte)
  (fr : frame) (end_offset : Z) (buf : N) :
  contents f = pre ++ frame_bytes fr ++ rest -> frame_ok fr ->
  Z.of_nat (length pre) < end_offset ->
  exists buf',
    read_loop (S fuel) f (length pre) end_offset buf
    = yield (payload fr)
        (read_loop fuel f (length (pre ++ frame_bytes fr)) end_offset buf').
Proof.
  intros Hc (H8 & H4 & H4' & Hlen & Hgrow) Hlt.
  unfold frame_bytes in Hc.
  eexists. rewrite read_loop_unfold.
  destruct (Z.ltb_spec (Z.of_nat (length pre)) end_offset) as [_|?]; [|lia].
  rewrite (readinto_at f pre (hdr fr)
             (crc1 fr ++ payload fr ++ crc2 fr ++ rest) _ 8)
    by (rewrite ?H8; try reflexivity; rewrite Hc, <- ?app_assoc; reflexivity).
  cbv zeta. rewrite H8. simpl negb. cbv iota.
  rewrite (readinto_at f (pre ++ hdr fr) (crc1 fr)
             (payload fr ++ crc2 fr ++ rest) _ 4)
    by (rewrite ?length_app, ?H8, ?H4; try reflexivity;
        rewrite Hc, <- ?app_assoc; reflexivity).
  rewrite H4. simpl negb. cbv iota.
  rewrite Hlen, Nat2N.id.
  assert (Hov : (buf <? N.of_nat (length (payload fr)))%N
                && (ssize_max <? grown (N.of_nat (length (payload fr))))%N
                = false).
  { rewrite Hlen in Hgrow. apply andb_false_iff. right.
    apply N.ltb_ge. exact Hgrow. }
  rewrite Hov.
  rewrite (readinto_at f (pre ++ hdr fr ++ crc1 fr) (payload fr)
             (crc2 fr ++ rest) _ (length (payload fr)))
    by (rewrite ?length_app, ?H8, ?H4; try reflexivity; try lia;
        rewrite Hc, <- ?app_assoc; reflexivity).
  rewrite Nat.eqb_refl. simpl negb. cbv iota.
  rewrite (readinto_at f (pre ++ hdr fr ++ crc1 fr ++ payload fr) (crc2 fr)
             rest _ 4)
    by (rewrite ?length_app, ?H8, ?H4, ?H4'; try reflexivity; try lia;
        rewrite Hc, <- ?app_assoc; reflexivity).
  rewrite H4'. simpl negb. cbv iota.
  do 2 f_equal.
  unfold frame_bytes. rewrite !length_app. lia.
Qed.

(** Reading a run of well-formed records that ends at [end_offset]. *)
Lemma read_loop_frames (frs : list frame) :
  forall (fuel : nat) (f : data_file) (pre rest : list byte) (buf : N),
  contents f = pre ++ encode frs ++ rest ->
  Forall frame_ok frs ->
  (length frs < fuel)%nat ->
  read_loop fuel f (length pre)
            (Z.of_nat (length pre + length (encode frs))) buf
  = mkStream (map payload frs) Done.
Proof.
  induction frs as [|fr frs IH]; intros fuel f pre rest buf Hc Hok Hfuel.
  - destruct fuel as [|fuel]; [simpl in Hfuel; lia|].
    rewrite read_loop_unfold. simpl.
    destruct (Z.ltb_spec (Z.of_nat (length pre))
                         (Z.of_nat (length pre + 0))); [lia|reflexivity].
  - destruct fuel as [|fuel]; [simpl in Hfuel; lia|].
    inversion Hok as [|? ? Hfr Hok']; subst.
    simpl encode in *. rewrite <- app_assoc in Hc.
    destruct (read_loop_frame fuel f pre (encode frs ++ rest) fr
                (Z.of_nat (length pre
                           + length (frame_bytes fr ++ encode frs))) buf)
      as [buf' ->]; [exact Hc|exact Hfr| |].
    { rewrite length_app, frame_bytes_length by assumption. lia. }
    replace (length pre + length (frame_bytes fr ++ encode frs))%nat
      with (length (pre ++ frame_bytes fr) + length (encode frs))%nat
      by (rewrite !length_app; lia).
    rewrite (IH fuel f (pre ++ frame_bytes fr) rest buf').
    + reflexivity.
    + rewrite Hc, <- app_assoc. reflexivity.
    + exact Hok'.
    + simpl in Hfuel. lia.
Qed.

(** *** Offsets, chunks and [array_split] *)

Lemma offsets_length (frs : list frame) (base : nat) :
  length (offsets base frs) = length frs.
Proof.
  revert base. induction frs as [|fr frs IH]; intros base; simpl;
    [reflexivity | now rewrite IH].
Qed.

Lemma offsets_take (frs : list frame) (base k : nat) :
  take k (offsets base frs) = offsets base (take k frs).
Proof.
  revert base k. induction frs as [|fr frs IH]; intros base [|k]; simpl;
    try reflexivity.
  now rewrite IH.
Qed.

Lemma offsets_drop (frs : list frame) (base k : nat) :
  drop k (offsets base frs)
  = offsets (base + length (encode (take k frs))) (drop k frs).
Proof.
  revert base k. induction frs as [|fr frs IH]; intros base [|k]; simpl;
    rewrite ?Nat.add_0_r; try reflexivity.
  rewrite IH, length_app. f_equal. lia.
Qed.

Lemma offsets_head (frs : list frame) (base : nat) :
  (0 < length frs)%nat -> offsets base frs !! 0%nat = Some (Z.of_nat base).
Proof. destruct frs; simpl; [lia | reflexivity]. Qed.

Lemma offsets_lookup (frs : list frame) (base k : nat) :
  (k < length frs)%nat ->
  offsets base frs !! k
  = Some (Z.of_nat (base + length (encode (take k frs)))).
Proof.
  intros Hk.
  assert (H : drop k (offsets base frs) !! 0%nat
              = Some (Z.of_nat (base + length (encode (take k frs))))).
  { rewrite offsets_drop. apply offsets_head. rewrite length_drop. lia. }
  rewrite lookup_drop, Nat.add_0_r in H. exact H.
Qed.

Lemma chunks_length {A} (l : list A) (sizes : list nat) :
  length (chunks l sizes) = length sizes.
Proof.
  revert l. induction sizes as [|s sizes IH]; intros l; simpl;
    [reflexivity | now rewrite IH].
Qed.

(** Chunk [i] starts after the chunks before it. *)
Lemma chunks_lookup {A} (sizes : list nat) :
  forall (l : list A) (i s : nat),
  sizes !! i = Some s ->
  chunks l sizes !! i = Some (take s (drop (sum_list (take i sizes)) l)).
Proof.
  induction sizes as [|s0 sizes IH]; intros l i s Hi; [discriminate|].
  destruct i as [|i]; simpl in *.
  - injection Hi as ->. reflexivity.
  - rewrite (IH _ _ _ Hi), drop_drop. reflexivity.
Qed.

Lemma concat_chunks {A} (sizes : list nat) :
  forall l : list A, concat (chunks l sizes) = take (sum_list sizes) l.
Proof.
  induction sizes as [|s sizes IH]; intros l; simpl.
  - now rewrite take_0.
  - rewrite IH. apply take_take_drop.
Qed.

Lemma section_sizes_length (total n : nat) :
  (0 < n)%nat -> length (section_sizes total n) = n.
Proof.
  intros Hn. unfold section_sizes.
  rewrite length_app, !length_replicate.
  pose proof (Nat.mod_upper_bound total n). lia.
Qed.

Lemma section_sizes_sum (total n : nat) :
  (0 < n)%nat -> sum_list (section_sizes total n) = total.
Proof.
  intros Hn. unfold section_sizes.
  rewrite sum_list_with_app, !sum_list_replicate.
  pose proof (Nat.mod_upper_bound total n).
  pose proof (Nat.div_mod_eq total n). nia.
Qed.

(** With at least as many entries as sections, no section is empty. *)
Lemma section_sizes_pos (total n i s : nat) :
  (0 < n <= total)%nat -> section_sizes total n !! i = Some s -> (0 < s)%nat.
Proof.
  intros Hn. unfold section_sizes. intros Hi.
  assert (0 < total / n)%nat by (apply Nat.div_str_pos; lia).
  apply lookup_app_Some in Hi as [Hi|[_ Hi]];
    apply lookup_replicate in Hi as [-> _]; lia.
Qed.

Lemma sum_list_take_le (l : list nat) (i : nat) :
  (sum_list (take i l) <= sum_list l)%nat.
Proof.
  rewrite <- (take_drop i l) at 2. rewrite sum_list_with_app. lia.
Qed.

Lemma sum_list_take_S (l : list nat) (i s : nat) :
  l !! i = Some s -> sum_list (take (S i) l) = (sum_list (take i l) + s)%nat.
Proof.
  intros Hi. rewrite (take_S_r _ _ _ Hi), sum_list_with_app. simpl. lia.
Qed.

(** *** Sharded and unsharded iteration over one file *)

Section Sharding.

Variable random_choice : list Z -> result Z.
Variable frs : list frame.
Hypothesis Hok : Forall frame_ok frs.

(** Reading from the first byte of [mid] up to an end that falls right
    after it yields the payloads of [mid]. *)
Lemma read_span (pre mid post : list frame) (buf : N) (eo : option Z) :
  frs = pre ++ mid ++ post ->
  default (Z.of_nat (getsize (file_of frs))) eo
    = Z.of_nat (length (encode (pre ++ mid))) ->
  read_records (file_of frs) buf (Some (Z.of_nat (length (encode pre)))) eo
  = mkStream (map payload mid) Done.
Proof.
  intros Hfrs He. unfold read_records.
  destruct (Z.ltb_spec (Z.of_nat (length (encode pre))) 0) as [?|_]; [lia|].
  rewrite He, Nat2Z.id, encode_app, length_app.
  apply (read_loop_frames mid _ _ (encode pre) (encode post)).
  - simpl. rewrite Hfrs, !encode_app. reflexivity.
  - rewrite Hfrs in Hok. apply Forall_app in Hok as [_ Hok'].
    apply Forall_app in Hok' as [Hmid _]. exact Hmid.
  - simpl. pose proof (encode_length_ge frs Hok) as Hle.
    assert (length mid <= length frs)%nat
      by (rewrite Hfrs, !length_app; lia).
    lia.
Qed.

Lemma kept_le (clip : option Z) (kept_entries : nat) :
  kept (length frs) clip = Some kept_entries ->
  (kept_entries <= length frs)%nat.
Proof.
  intros Hkept. unfold kept in Hkept. destruct clip as [c|]; [|injection Hkept; lia].
  destruct (Z.eqb_spec c 0); [injection Hkept; lia|].
  destruct (Z.ltb_spec 0 c), (Z.leb_spec c (Z.of_nat (length frs)));
    simpl in Hkept; try (injection Hkept; lia);
    destruct (Z.ltb_spec c 0), (Z.leb_spec (- Z.of_nat (length frs)) c);
    simpl in Hkept; try discriminate; injection Hkept; lia.
Qed.

(** The [if clip:] block keeps the first [kept_entries] offsets and stops
    reading right after the last record kept. *)
Lemma clip_index_kept (clip : option Z) (kept_entries : nat) :
  kept (length frs) clip = Some kept_entries ->
  exists clip_offset,
    clip_index (offsets 0 frs) clip
      = Ok (clip_offset, offsets 0 (take kept_entries frs)) /\
    default (Z.of_nat (getsize (file_of frs))) clip_offset
      = Z.of_nat (length (encode (take kept_entries frs))).
Proof.
  intros Hkept. pose proof (kept_le _ _ Hkept) as Hle.
  unfold clip_index, kept in *. rewrite offsets_length.
  destruct clip as [c|]; simpl default.
  2:{ injection Hkept as <-. exists None. rewrite take_ge by lia.
      split; reflexivity. }
  destruct (Z.eqb_spec c 0) as [->|Hc0]; simpl negb; cbv iota.
  { injection Hkept as <-. exists None. rewrite take_ge by lia.
    split; reflexivity. }
  destruct (Z.eqb_spec c (Z.of_nat (length frs))) as [->|HcM].
  { destruct (Z.ltb_spec 0 (Z.of_nat (length frs))); [|lia].
    rewrite Z.leb_refl in Hkept. simpl in Hkept. injection Hkept as <-.
    exists None. simpl. rewrite slice_to_nonneg, <- offsets_take by lia.
    rewrite Nat2Z.id, !take_ge by (rewrite ?offsets_length; lia).
    split; reflexivity. }
  destruct (Z.ltb_spec 0 c) as [Hpos|Hneg].
  - destruct (Z.leb_spec c (Z.of_nat (length frs))) as [Hcle|?];
      simpl in Hkept.
    + injection Hkept as <-.
      exists (Some (Z.of_nat (0 + length (encode (take (Z.to_nat c) frs))))).
      rewrite <- (Z2Nat.id c) at 1 by lia.
      rewrite (np_getitem_Ok _ _ _
                 (getitem_nat _ _ _
                    (offsets_lookup frs 0 (Z.to_nat c) ltac:(lia)))).
      simpl. rewrite slice_to_nonneg, offsets_take by lia.
      split; reflexivity.
    + destruct (Z.ltb_spec c 0); [lia|]. simpl in Hkept. discriminate.
  - simpl in Hkept.
    destruct (Z.ltb_spec c 0) as [Hlt|?]; [|lia].
    destruct (Z.leb_spec (- Z.of_nat (length frs)) c) as [Hge|?];
      simpl in Hkept; [|discriminate].
    injection Hkept as <-.
    exists (Some (Z.of_nat
              (0 + length (encode
                     (take (Z.to_nat (Z.of_nat (length frs) + c)) frs))))).
    split; [|reflexivity].
    assert (Hg : getitem (offsets 0 frs) c
                 = Ok (Z.of_nat
                         (0 + length (encode
                            (take (Z.to_nat (Z.of_nat (length frs) + c)) frs))))).
    { unfold getitem. rewrite offsets_length.
      destruct (Z.ltb_spec c 0); [|lia].
      destruct (Z.ltb_spec (c + Z.of_nat (length frs)) 0); [lia|].
      destruct (Z.leb_spec (Z.of_nat (length frs))
                           (c + Z.of_nat (length frs))); [lia|].
      simpl. rewrite Z.add_comm.
      rewrite (offsets_lookup frs 0) by lia. reflexivity. }
    rewrite (np_getitem_Ok _ _ _ Hg). simpl. unfold slice_to.
    destruct (Z.ltb_spec c 0); [|lia].
    rewrite offsets_length, offsets_take. do 4 f_equal. lia.
Qed.

(** The head of a chunk of the offsets is the byte offset of the first
    record of that chunk. *)
Lemma chunk_head (kept_frs : list frame) (sizes : list nat) (i s : nat) :
  sizes !! i = Some s -> (0 < s)%nat ->
  (sum_list (take i sizes) + s <= length kept_frs)%nat ->
  (own ← getitem (chunks (offsets 0 kept_frs) sizes) (Z.of_nat i);
   getitem own 0)
  = Ok (Z.of_nat (length (encode (take (sum_list (take i sizes)) kept_frs)))).
Proof.
  intros Hi Hs Hb.
  rewrite (getitem_nat _ _ _ (chunks_lookup sizes (offsets 0 kept_frs) i s Hi)).
  simpl. rewrite offsets_drop, offsets_take.
  apply (getitem_nat _ 0). rewrite offsets_head; [reflexivity|].
  rewrite length_take, length_drop. lia.
Qed.

(** The byte range of worker [i] among [C] workers. *)
Lemma shard_range_kept (kept_frs : list frame) (clip_offset : option Z)
  (C : Z) (i s : nat) :
  1 <= C <= Z.of_nat (length kept_frs) ->
  section_sizes (length kept_frs) (Z.to_nat C) !! i = Some s ->
  let b := sum_list (take i (section_sizes (length kept_frs) (Z.to_nat C))) in
  shard_range (offsets 0 kept_frs) clip_offset (Z.of_nat i) C
    = Ok (Z.of_nat (length (encode (take b kept_frs))),
          if Z.of_nat i <? C - 1
          then Some (Z.of_nat (length (encode (take (b + s) kept_frs))))
          else clip_offset) /\
  (b + s <= length kept_frs)%nat /\
  (C - 1 <= Z.of_nat i -> (b + s)%nat = length kept_frs).
Proof.
  intros HC Hi b. subst b.
  set (sizes := section_sizes (length kept_frs) (Z.to_nat C)) in *.
  assert (Hlen : length sizes = Z.to_nat C)
    by (apply section_sizes_length; lia).
  assert (Hsum : sum_list sizes = length kept_frs)
    by (apply section_sizes_sum; lia).
  assert (Hs : (0 < s)%nat)
    by (apply (section_sizes_pos (length kept_frs) (Z.to_nat C) i); [lia|exact Hi]).
  assert (HSi : sum_list (take (S i) sizes) = (sum_list (take i sizes) + s)%nat)
    by (apply sum_list_take_S, Hi).
  assert (Hb : (sum_list (take i sizes) + s <= length kept_frs)%nat).
  { rewrite <- HSi, <- Hsum. apply sum_list_take_le. }
  assert (Hilt : (i < Z.to_nat C)%nat).
  { rewrite <- Hlen. eapply lookup_lt_Some, Hi. }
  split; [|split; [exact Hb|]].
  - unfold shard_range, array_split. rewrite offsets_length.
    destruct (Z.leb_spec C 0) as [?|_]; [lia|]. fold sizes.
    change (Ok (chunks (offsets 0 kept_frs) sizes) ≫= ?k)
      with (k (chunks (offsets 0 kept_frs) sizes)).
    cbv beta.
    pose proof (chunk_head kept_frs sizes i s Hi Hs Hb) as Hh.
    destruct (getitem (chunks (offsets 0 kept_frs) sizes) (Z.of_nat i))
      as [own|] eqn:Eown; [|discriminate].
    simpl in Hh. simpl. rewrite Hh. simpl.
    destruct (Z.ltb_spec (Z.of_nat i) (C - 1)) as [Hlt|Hge]; [|reflexivity].
    destruct (lookup_lt_is_Some_2 sizes (S i)) as [s' Hi']; [lia|].
    assert (Hs' : (0 < s')%nat)
      by (apply (section_sizes_pos (length kept_frs) (Z.to_nat C) (S i));
          [lia|exact Hi']).
    assert (Hb' : (sum_list (take (S i) sizes) + s' <= length kept_frs)%nat).
    { rewrite <- (sum_list_take_S sizes (S i) s' Hi'), <- Hsum.
      apply sum_list_take_le. }
    pose proof (chunk_head kept_frs sizes (S i) s' Hi' Hs' Hb') as Hh'.
    replace (Z.of_nat i + 1) with (Z.of_nat (S i)) by lia.
    destruct (getitem (chunks (offsets 0 kept_frs) sizes) (Z.of_nat (S i)))
      as [nxt|] eqn:Enxt; [|discriminate].
    simpl in Hh'. simpl. rewrite Hh', HSi. reflexivity.
  - intros Hge. rewrite <- HSi, take_ge by lia. exact Hsum.
Qed.

End Sharding.

(** A family of lists that agrees chunk by chunk with [h] is [h] mapped over
    the chunks. *)
Lemma map_seq_chunks {A B} (h : list A -> list B) (sizes : list nat) :
  forall (g : nat -> list B) (l : list A),
  (forall i s, sizes !! i = Some s ->
     g i = h (take s (drop (sum_list (take i sizes)) l))) ->
  map g (seq 0 (length sizes)) = map h (chunks l sizes).
Proof.
  induction sizes as [|s0 sizes IH]; intros g l Hg; [reflexivity|].
  simpl. f_equal.
  - apply (Hg 0%nat s0 eq_refl).
  - rewrite <- seq_shift, map_map. apply IH.
    intros i s Hi. rewrite (Hg (S i) s Hi). simpl.
    rewrite drop_drop. reflexivity.
Qed.

(** C5, amended. Take an uncompressed file of well-formed records, its
    index, a clip value that leaves [kept_entries] index entries, and a shard
    count C with 1 <= C <= kept_entries.  The unsharded clipped iteration
    yields the first [kept_entries] records and stops normally.  Shard i,
    for i < C, yields the records of the i-th contiguous chunk of the kept
    entries (chunk sizes as [np.array_split] gives them) and stops normally;
    the last chunk ends at the clip boundary or at the end of the file.  The
    shards' outputs, concatenated in shard order, are exactly the unsharded
    output: no record is missing and none is read twice. *)
Theorem sharding_covers (random_choice : list Z -> result Z)
  (frs : list frame) (index : index_array) (clip : option Z)
  (kept_entries : nat) (C : Z) (buf : N) (random_start : bool) :
  Forall frame_ok frs -> index_of frs index ->
  kept (length frs) clip = Some kept_entries ->
  1 <= C <= Z.of_nat kept_entries ->
  tfrecord_iterator random_choice (file_of frs) (Some index) None clip None
                    false buf
    = mkStream (map payload (take kept_entries frs)) Done /\
  (forall i, (i < Z.to_nat C)%nat ->
     exists s,
       section_sizes kept_entries (Z.to_nat C) !! i = Some s /\
       tfrecord_iterator random_choice (file_of frs) (Some index)
                         (Some (Z.of_nat i, C)) clip None random_start buf
       = mkStream
           (map payload
              (take s (drop (sum_list
                               (take i (section_sizes kept_entries
                                                      (Z.to_nat C))))
                            (take kept_entries frs))))
           Done) /\
  concat (map (fun i =>
                 yielded (tfrecord_iterator random_choice (file_of frs)
                            (Some index) (Some (Z.of_nat i, C)) clip None
                            random_start buf))
              (seq 0 (Z.to_nat C)))
    = yielded (tfrecord_iterator random_choice (file_of frs) (Some index)
                 None clip None false buf).
Proof.
  intros Hok Hidx Hkept HC.
  pose proof (kept_le frs clip kept_entries Hkept) as Hle.
  destruct (clip_index_kept frs clip kept_entries Hkept)
    as (co & Hclip & Hdef).
  set (K := take kept_entries frs) in *.
  assert (HK : length K = kept_entries)
    by (unfold K; rewrite length_take; lia).
  assert (Hnorm : map fst (match index with
                           | Index1D r => [r]
                           | Index2D rs => rs
                           end) = offsets 0 frs).
  { destruct index; simpl in *; exact Hidx. }
  assert (Hun : tfrecord_iterator random_choice (file_of frs) (Some index)
                  None clip None false buf
                = mkStream (map payload K) Done).
  { unfold tfrecord_iterator. simpl negb. cbv iota.
    rewrite Hnorm, Hclip. simpl lift.
    apply (read_span frs Hok [] K (drop kept_entries frs)).
    - unfold K. simpl. now rewrite take_drop.
    - exact Hdef. }
  assert (Hsh : forall i, (i < Z.to_nat C)%nat ->
     exists s,
       section_sizes kept_entries (Z.to_nat C) !! i = Some s /\
       tfrecord_iterator random_choice (file_of frs) (Some index)
                         (Some (Z.of_nat i, C)) clip None random_start buf
       = mkStream
           (map payload
              (take s (drop (sum_list
                               (take i (section_sizes kept_entries
                                                      (Z.to_nat C))))
                            K)))
           Done).
  { intros i Hi.
    destruct (lookup_lt_is_Some_2 (section_sizes kept_entries (Z.to_nat C)) i)
      as [s Hs]; [rewrite section_sizes_length; lia|].
    exists s. split; [exact Hs|].
    destruct (shard_range_kept K co C i s) as (Hr & Hb & Hlast);
      [lia | rewrite HK; exact Hs |].
    rewrite HK in Hr, Hb, Hlast.
    set (b := sum_list (take i (section_sizes kept_entries (Z.to_nat C)))) in *.
    unfold tfrecord_iterator. simpl negb. cbv iota.
    rewrite Hnorm, Hclip. simpl lift. fold K. rewrite Hr. simpl lift.
    apply (read_span frs Hok (take b K) (take s (drop b K))
             (drop s (drop b K) ++ drop kept_entries frs)).
    - rewrite !app_assoc, <- (app_assoc (take b K)), !take_drop.
      unfold K. now rewrite take_drop.
    - rewrite take_take_drop.
      destruct (Z.ltb_spec (Z.of_nat i) (C - 1)) as [Hlt|Hge];
        [reflexivity|].
      rewrite Hdef, (Hlast Hge), take_ge by lia. reflexivity. }
  split; [exact Hun|]. split; [exact Hsh|].
  rewrite Hun. simpl yielded.
  rewrite <- (section_sizes_length kept_entries (Z.to_nat C)) by lia.
  rewrite (map_seq_chunks (map payload) _ _ K).
  - rewrite <- concat_map, concat_chunks, section_sizes_sum by lia.
    rewrite take_ge by lia. reflexivity.
  - intros i s Hs.
    destruct (Hsh i) as (s' & Hs' & ->).
    + rewrite <- (section_sizes_length kept_entries (Z.to_nat C)) by lia.
      eapply lookup_lt_Some, Hs.
    + rewrite Hs in Hs'. injection Hs' as <-. reflexivity.
Qed.

Lemma two_records_ok : Forall frame_ok two_records.
Proof.
  repeat constructor; try reflexivity; vm_compute; discriminate.
Qed.

(** Two records split between two workers, without clipping. *)
Lemma sharding_covers_witness :
  tfrecord_iterator first_choice (file_of two_records)
    (Some two_records_index) None None None false 1024
    = mkStream (map payload (take 2 two_records)) Done /\
  (forall i, (i < Z.to_nat 2)%nat ->
     exists s,
       section_sizes 2 (Z.to_nat 2) !! i = Some s /\
       tfrecord_iterator first_choice (file_of two_records)
         (Some two_records_index) (Some (Z.of_nat i, 2)) None None false 1024
       = mkStream
           (map payload
              (take s (drop (sum_list (take i (section_sizes 2 (Z.to_nat 2))))
                            (take 2 two_records))))
           Done) /\
  concat (map (fun i =>
                 yielded (tfrecord_iterator first_choice (file_of two_records)
                            (Some two_records_index) (Some (Z.of_nat i, 2))
                            None None false 1024))
              (seq 0 (Z.to_nat 2)))
    = yielded (tfrecord_iterator first_choice (file_of two_records)
                 (Some two_records_index) None None None false 1024).
Proof.
  apply (sharding_covers first_choice two_records two_records_index None 2 2
           1024 false).
  - exact two_records_ok.
  - reflexivity.
  - reflexivity.
  - lia.
Defined.

(** C5 as stated fails when the clip leaves fewer entries than there are
    shards: with two records, two index entries, clip = 1 and two workers,
    the unsharded iteration yields the first record while worker 0 raises
    IndexError before reading anything (its successor's chunk is empty). *)
Lemma clip_below_shard_count :
  Forall frame_ok two_records /\
  index_of two_records two_records_index /\
  (2 <= length two_records)%nat /\
  tfrecord_iterator first_choice (file_of two_records)
    (Some two_records_index) None (Some 1) None false 1024
    = mkStream [[Byte.x0a]] Done /\
  tfrecord_iterator first_choice (file_of two_records)
    (Some two_records_index) (Some (0, 2)) (Some 1) None false 1024
    = mkStream [] (Raised IndexError) /\
  tfrecord_iterator first_choice (file_of two_records)
    (Some two_records_index) (Some (1, 2)) (Some 1) None false 1024
    = mkStream [] (Raised IndexError).
Proof.
  split; [exact two_records_ok|].
  repeat split; vm_compute; reflexivity || lia.
Qed.

(** *** Termination of the reading loop *)

(** Every round of the loop that yields a record has consumed at least 16
    bytes that lie inside the file. *)
Lemma read_loop_bound (fuel : nat) :
  forall (f : data_file) (pos : nat) (end_offset : Z) (buf : N),
  (length (contents f) - pos < fuel)%nat ->
  ended (read_loop fuel f pos end_offset buf) <> OutOfFuel /\
  (16 * length (yielded (read_loop fuel f pos end_offset buf))
   <= length (contents f) - pos)%nat.
Proof.
  induction fuel as [|fuel IH]; intros f pos e buf Hfuel; [lia|].
  rewrite read_loop_unfold.
  destruct (Z.of_nat pos <? e); [|simpl; split; [discriminate|lia]].
  cbv zeta. unfold readinto.
  repeat match goal with
         | |- context [negb (?a =? ?b)%nat] =>
             destruct (Nat.eqb_spec a b); simpl negb; cbv iota;
             [|simpl; split; [discriminate|lia]]
         | |- context [?a && ?b] =>
             destruct (a && b); [simpl; split; [discriminate|lia]|]
         end.
  repeat match goal with
         | H : length (take _ (drop _ _)) = _ |- _ =>
             rewrite length_take, length_drop in H
         end.
  match goal with
  | |- context [read_loop fuel f ?p e ?b] =>
      destruct (IH f p e b) as [Hend Hlen]; [lia|]
  end.
  simpl. split; [exact Hend|]. lia.
Qed.

(** Whatever the file, the offsets and the buffer, [read_records] stops,
    normally or with an exception, and it yields at most one record per 16
    bytes of the file. *)
Lemma read_records_stops (f : data_file) (buf : N)
  (start_offset end_offset : option Z) :
  ended (read_records f buf start_offset end_offset) <> OutOfFuel /\
  (16 * length (yielded (read_records f buf start_offset end_offset))
   <= length (contents f))%nat.
Proof.
  unfold read_records. destruct start_offset as [s|].
  - destruct (s <? 0); [simpl; split; [discriminate|lia]|].
    match goal with
    | |- context [read_loop ?fu f ?p ?e buf] =>
        destruct (read_loop_bound fu f p e buf) as [H1 H2]; [lia|]
    end.
    split; [exact H1|lia].
  - match goal with
    | |- context [read_loop ?fu f ?p ?e buf] =>
        destruct (read_loop_bound fu f p e buf) as [H1 H2]; [lia|]
    end.
    split; [exact H1|lia].
Qed.

Lemma then_stops (a b : stream) :
  ended a <> OutOfFuel -> ended b <> OutOfFuel ->
  ended (then_ a b) <> OutOfFuel.
Proof.
  intros Ha Hb. unfold then_. destruct (ended a) eqn:E; simpl;
    congruence.
Qed.

(** X6. Whatever its arguments, [tfrecord_iterator] stops, normally or with
    an exception: every round of the reading loop consumes at least 16
    bytes of the file or raises. *)
Theorem tfrecord_iterator_stops (random_choice : list Z -> result Z)
  (f : data_file) (index : option index_array) (shard : option (Z * Z))
  (clip : option Z) (compression_type : option string)
  (random_start : bool) (buf : N) :
  ended (tfrecord_iterator random_choice f index shard clip compression_type
           random_start buf) <> OutOfFuel.
Proof.
  unfold tfrecord_iterator.
  destruct (negb _); [discriminate|].
  destruct index as [index|]; [|apply (proj1 (read_records_stops _ _ _ _))].
  destruct (clip_index _ clip) as [[co idx]|]; unfold lift at 1;
    cbv beta iota; [|discriminate].
  destruct shard as [[i c]|].
  - destruct (shard_range idx co i c) as [[s e]|]; unfold lift;
      cbv beta iota; [|discriminate].
    apply (proj1 (read_records_stops _ _ _ _)).
  - destruct random_start; [|apply (proj1 (read_records_stops _ _ _ _))].
    destruct (random_choice idx); unfold lift; cbv beta iota; [|discriminate].
    apply then_stops; apply (proj1 (read_records_stops _ _ _ _)).
Qed.

(** *** Files read without an index, and files cut short *)

(** The growth of the buffer is computed in doubles: for a length of
    0x5555555555555555 the exact product is 2^63 - 1, the double is 2^63,
    and [zfill] refuses it. *)
Lemma grown_is_rounded :
  (6148914691236517205 * 3 / 2 = ssize_max)%N /\
  (ssize_max < grown 6148914691236517205)%N.
Proof. split; vm_compute; reflexivity. Qed.

Lemma one_byte_frame_ok (b : byte) : frame_ok (one_byte_frame b).
Proof.
  repeat split; try reflexivity. vm_compute. discriminate.
Qed.

(** Reading a run of well-formed records that ends before [end_offset]:
    the records are yielded and the loop goes on behind them. *)
Lemma read_loop_prefix (frs : list frame) :
  forall (fuel : nat) (f : data_file) (pre rest : list byte)
         (end_offset : Z) (buf : N),
  contents f = pre ++ encode frs ++ rest ->
  Forall frame_ok frs ->
  Z.of_nat (length pre + length (encode frs)) <= end_offset ->
  exists buf',
    read_loop (length frs + fuel) f (length pre) end_offset buf
    = prepend (map payload frs)
        (read_loop fuel f (length pre + length (encode frs)) end_offset buf').
Proof.
  induction frs as [|fr frs IH]; intros fuel f pre rest e buf Hc Hok He.
  - exists buf. simpl. rewrite Nat.add_0_r.
    destruct (read_loop fuel f (length pre) e buf). reflexivity.
  - inversion Hok as [|? ? Hfr Hok']; subst.
    simpl encode in *. rewrite <- app_assoc in Hc.
    rewrite length_app in He.
    pose proof (frame_bytes_length fr Hfr) as Hlen.
    destruct (read_loop_frame (length frs + fuel) f pre (encode frs ++ rest)
                fr e buf Hc Hfr) as [buf1 H1]; [lia|].
    destruct (IH fuel f (pre ++ frame_bytes fr) rest e buf1) as [buf2 H2].
    + rewrite Hc, <- app_assoc. reflexivity.
    + exact Hok'.
    + rewrite length_app. lia.
    + exists buf2.
      change (length (fr :: frs) + fuel)%nat with (S (length frs + fuel)).
      rewrite H1, H2. unfold prepend, yield. simpl.
      rewrite !length_app, Nat.add_assoc. reflexivity.
Qed.

(** X7. Without an index, sharding and clipping are not applied: on a raw
    file of well-formed records every worker yields all the records, in
    file order, whatever [shard], [clip] and [random_start] are. *)
Theorem no_index_reads_everything (random_choice : list Z -> result Z)
  (frs : list frame) (shard : option (Z * Z)) (clip : option Z)
  (random_start : bool) (buf : N) :
  Forall frame_ok frs ->
  tfrecord_iterator random_choice (file_of frs) None shard clip None
                    random_start buf
  = mkStream (map payload frs) Done.
Proof.
  intros Hok. unfold tfrecord_iterator. simpl negb. cbv iota.
  unfold read_records. simpl default.
  apply (read_loop_frames frs _ (file_of frs) [] []).
  - simpl. now rewrite app_nil_r.
  - exact Hok.
  - simpl. pose proof (encode_length_ge frs Hok). lia.
Qed.

Lemma no_index_reads_everything_witness :
  tfrecord_iterator first_choice (file_of two_records) None (Some (1, 2))
                    (Some 1) None true 1024
  = mkStream (map payload two_records) Done.
Proof.
  apply (no_index_reads_everything first_choice two_records).
  exact two_records_ok.
Defined.



(** *** Random start, shard sizes and clip bounds *)

(** X9. With [random_start] and no sharding, reading starts at the record
    whose offset was drawn, runs to the clip boundary or the end of the
    file, and then covers the records before the one drawn: every kept
    record is yielded exactly once, in rotated order. *)
Theorem random_start_rotates (random_choice : list Z -> result Z)
  (frs : list frame) (index : index_array) (clip : option Z)
  (kept_entries : nat) (buf : N) (o : Z) :
  Forall frame_ok frs -> index_of frs index ->
  kept (length frs) clip = Some kept_entries ->
  random_choice (offsets 0 (take kept_entries frs)) = Ok o ->
  o ∈ offsets 0 (take kept_entries frs) ->
  exists k,
    (k < kept_entries)%nat /\
    offsets 0 frs !! k = Some o /\
    tfrecord_iterator random_choice (file_of frs) (Some index) None clip None
                      true buf
    = mkStream (map payload (drop k (take kept_entries frs)
                             ++ take k (take kept_entries frs))) Done /\
    yielded (tfrecord_iterator random_choice (file_of frs) (Some index) None
               clip None true buf)
    ≡ₚ map payload (take kept_entries frs).
Proof.
  intros Hok Hidx Hkept Hrc Ho.
  pose proof (kept_le frs clip kept_entries Hkept) as Hle.
  destruct (clip_index_kept frs clip kept_entries Hkept)
    as (co & Hclip & Hdef).
  set (K := take kept_entries frs) in *.
  assert (HK : length K = kept_entries)
    by (unfold K; rewrite length_take; lia).
  apply list_elem_of_lookup in Ho as [k Hk].
  assert (Hklt : (k < kept_entries)%nat).
  { apply lookup_lt_Some in Hk. rewrite offsets_length in Hk. lia. }
  rewrite offsets_lookup in Hk by lia. injection Hk as Hk. simpl in Hk.
  assert (HkK : take k K = take k frs)
    by (unfold K; rewrite take_take; f_equal; lia).
  assert (Hst : tfrecord_iterator random_choice (file_of frs) (Some index)
                  None clip None true buf
                = mkStream (map payload (drop k K ++ take k K)) Done).
  { unfold tfrecord_iterator. simpl negb. cbv iota.
    replace (map fst match index with
                     | Index1D r => [r]
                     | Index2D rs => rs
                     end) with (offsets 0 frs)
      by (destruct index; simpl in *; symmetry; exact Hidx).
    rewrite Hclip. unfold lift at 1. cbv beta iota. fold K.
    rewrite Hrc. unfold lift. cbv beta iota. rewrite <- Hk.
    rewrite (read_span frs Hok (take k K) (drop k K)
               (drop kept_entries frs)).
    - change (Some 0) with (Some (Z.of_nat (length (encode (@nil frame))))).
      rewrite (read_span frs Hok [] (take k K)
                 (drop k K ++ drop kept_entries frs)).
      + unfold then_. simpl. now rewrite map_app.
      + simpl. rewrite app_assoc, take_drop. unfold K. now rewrite take_drop.
      + reflexivity.
    - rewrite app_assoc, take_drop. unfold K. now rewrite take_drop.
    - rewrite take_drop. exact Hdef. }
  exists k. split; [exact Hklt|]. split.
  { rewrite offsets_lookup by lia. simpl. rewrite <- HkK, Hk. reflexivity. }
  split; [exact Hst|].
  rewrite Hst. simpl.
  rewrite <- (take_drop k K) at 3. rewrite !map_app. apply Permutation_app_comm.
Qed.

Lemma random_start_rotates_witness :
  exists k,
    (k < 2)%nat /\
    offsets 0 two_records !! k = Some 0 /\
    tfrecord_iterator first_choice (file_of two_records)
      (Some two_records_index) None None None true 1024
    = mkStream (map payload (drop k (take 2 two_records)
                             ++ take k (take 2 two_records))) Done /\
    yielded (tfrecord_iterator first_choice (file_of two_records)
               (Some two_records_index) None None None true 1024)
    ≡ₚ map payload (take 2 two_records).
Proof.
  apply (random_start_rotates first_choice two_records two_records_index
           None 2 1024 0).
  - exact two_records_ok.
  - reflexivity.
  - reflexivity.
  - reflexivity.
  - left.
Defined.

(** The stream of one worker. *)
Lemma shard_stream (random_choice : list Z -> result Z)
  (frs : list frame) (index : index_array) (clip : option Z)
  (kept_entries : nat) (C : Z) (buf : N) (random_start : bool) (i s : nat) :
  Forall frame_ok frs -> index_of frs index ->
  kept (length frs) clip = Some kept_entries ->
  1 <= C <= Z.of_nat kept_entries ->
  section_sizes kept_entries (Z.to_nat C) !! i = Some s ->
  tfrecord_iterator random_choice (file_of frs) (Some index)
                    (Some (Z.of_nat i, C)) clip None random_start buf
  = mkStream
      (map payload
         (take s (drop (sum_list (take i (section_sizes kept_entries
                                                        (Z.to_nat C))))
                       (take kept_entries frs))))
      Done /\
  (sum_list (take i (section_sizes kept_entries (Z.to_nat C))) + s
   <= kept_entries)%nat.
Proof.
  intros Hok Hidx Hkept HC Hs.
  pose proof (kept_le frs clip kept_entries Hkept) as Hle.
  destruct (clip_index_kept frs clip kept_entries Hkept)
    as (co & Hclip & Hdef).
  set (K := take kept_entries frs) in *.
  assert (HK : length K = kept_entries)
    by (unfold K; rewrite length_take; lia).
  destruct (shard_range_kept K co C i s) as (Hr & Hb & Hlast);
    [lia | rewrite HK; exact Hs |].
  rewrite HK in Hr, Hb, Hlast.
  set (b := sum_list (take i (section_sizes kept_entries (Z.to_nat C)))) in *.
  split; [|exact Hb].
  unfold tfrecord_iterator. simpl negb. cbv iota.
  replace (map fst match index with
                   | Index1D r => [r]
                   | Index2D rs => rs
                   end) with (offsets 0 frs)
    by (destruct index; simpl in *; symmetry; exact Hidx).
  rewrite Hclip. simpl lift. fold K. rewrite Hr. simpl lift.
  apply (read_span frs Hok (take b K) (take s (drop b K))
           (drop s (drop b K) ++ drop kept_entries frs)).
  - rewrite !app_assoc, <- (app_assoc (take b K)), !take_drop.
    unfold K. now rewrite take_drop.
  - rewrite take_take_drop.
    destruct (Z.ltb_spec (Z.of_nat i) (C - 1)) as [Hlt|Hge];
      [reflexivity|].
    rewrite Hdef, (Hlast Hge), take_ge by lia. reflexivity.
Qed.

Lemma section_sizes_lookup (total n i : nat) :
  (i < n)%nat ->
  section_sizes total n !! i
  = Some (if (i <? total mod n)%nat then S (total / n) else (total / n)%nat).
Proof.
  intros Hi. unfold section_sizes.
  pose proof (Nat.mod_upper_bound total n).
  destruct (Nat.ltb_spec i (total mod n)).
  - rewrite lookup_app_l by (rewrite length_replicate; lia).
    apply lookup_replicate. split; [reflexivity|lia].
  - rewrite lookup_app_r by (rewrite length_replicate; lia).
    apply lookup_replicate. split; [reflexivity|].
    rewrite length_replicate. lia.
Qed.

(** X10. The shards are balanced: with K kept entries and C workers,
    1 <= C <= K, worker i yields K / C records, and one more when
    i < K mod C. *)
Theorem shard_sizes_balanced (random_choice : list Z -> result Z)
  (frs : list frame) (index : index_array) (clip : option Z)
  (kept_entries : nat) (C : Z) (buf : N) (random_start : bool) (i : nat) :
  Forall frame_ok frs -> index_of frs index ->
  kept (length frs) clip = Some kept_entries ->
  1 <= C <= Z.of_nat kept_entries ->
  (i < Z.to_nat C)%nat ->
  length (yielded (tfrecord_iterator random_choice (file_of frs) (Some index)
                     (Some (Z.of_nat i, C)) clip None random_start buf))
  = (kept_entries / Z.to_nat C
     + if (i <? kept_entries mod Z.to_nat C)%nat then 1 else 0)%nat.
Proof.
  intros Hok Hidx Hkept HC Hi.
  pose proof (kept_le frs clip kept_entries Hkept) as Hle.
  pose proof (section_sizes_lookup kept_entries (Z.to_nat C) i Hi) as Hs.
  destruct (shard_stream random_choice frs index clip kept_entries C buf
              random_start i _ Hok Hidx Hkept HC Hs) as [-> Hb].
  simpl. rewrite length_map, length_take, length_drop, length_take.
  destruct (i <? kept_entries mod Z.to_nat C)%nat; lia.
Qed.

Lemma shard_sizes_balanced_witness :
  length (yielded (tfrecord_iterator first_choice (file_of two_records)
                     (Some two_records_index) (Some (Z.of_nat 1, 2)) None
                     None false 1024))
  = (2 / Z.to_nat 2 + if (1 <? 2 mod Z.to_nat 2)%nat then 1 else 0)%nat.
Proof.
  apply (shard_sizes_balanced first_choice two_records two_records_index
           None 2 2 1024 false 1).
  - exact two_records_ok.
  - reflexivity.
  - reflexivity.
  - lia.
  - simpl. lia.
Defined.



(** *** Decoding records *)

Lemma fromkeys_elem (keys : list string) :
  forall (seen : list string) (k : string),
  k ∈ (fromkeys keys seen).*1 <-> k ∈ keys /\ k ∉ seen.
Proof.
  induction keys as [|x keys IH]; intros seen k; simpl.
  - rewrite elem_of_nil. split; [tauto|]. intros [H _]. inversion H.
  - case_bool_decide as Hx; simpl.
    + rewrite IH, elem_of_cons. split.
      * intros [? ?]. tauto.
      * intros [[-> | ?] ?]; [contradiction | tauto].
    + rewrite !elem_of_cons, IH, elem_of_cons. split.
      * intros [-> | [? ?]]; [tauto|]. split; [tauto|]. tauto.
      * intros [[-> | ?] ?]; [tauto|].
        destruct (decide (k = x)) as [-> | Hne]; [tauto|].
        right. split; [assumption|]. intros [? | ?]; tauto.
Qed.

Lemma fromkeys_NoDup (keys : list string) :
  forall seen : list string, NoDup (fromkeys keys seen).*1.
Proof.
  induction keys as [|x keys IH]; intros seen; cbn [fromkeys].
  - constructor.
  - case_bool_decide as Hx; [apply IH|].
    rewrite fmap_cons. constructor; [|apply IH].
    rewrite fromkeys_elem, elem_of_cons. tauto.
Qed.

Lemma described_requested (m : message) (d : description) (k : string) :
  k ∈ (described (message_keys m) d).*1 <-> k ∈ requested m d.
Proof.
  assert (Hall : k ∈ (fromkeys (message_keys m) []).*1 <-> k ∈ message_keys m).
  { rewrite fromkeys_elem, elem_of_nil. tauto. }
  destruct d as [|[|x keys]|[|x items]]; cbn [described requested];
    try exact Hall; try reflexivity.
  rewrite fromkeys_elem, elem_of_nil. tauto.
Qed.

(** The loop of [extract_feature_dict]: what the dictionary holds when the
    loop ends without an exception. *)
Lemma extract_items_spec (m : message) (mapping : list (string * string))
  (all_keys : list string) (items : list (string * option string)) :
  forall (acc res : gmap string entry),
  extract_items m mapping all_keys items acc = Ok res ->
  Forall (fun kt => kt.1 ∈ all_keys) items /\
  (forall k, is_Some (res !! k) <-> k ∈ items.*1 \/ is_Some (acc !! k)) /\
  (NoDup items.*1 ->
   forall k t v, (k, t) ∈ items -> res !! k = Some v ->
                 get_value m mapping t k = Ok v).
Proof.
  induction items as [|[key typename] items IH]; intros acc res H; simpl in H.
  - injection H as <-. split; [constructor|]. split.
    + intros k. simpl. rewrite elem_of_nil. tauto.
    + intros _ k t v Hin. inversion Hin.
  - case_bool_decide as Hk; simpl in H; [|discriminate].
    destruct (get_value m mapping typename key) as [v0|e] eqn:Hv;
      simpl in H; [|discriminate].
    destruct (IH _ _ H) as (Hall & Hdom & Hval).
    split; [constructor; assumption|]. split.
    + intros k. rewrite Hdom. simpl. rewrite elem_of_cons.
      destruct (decide (k = key)) as [-> | Hne].
      * rewrite lookup_insert_eq. split; [tauto|]. intros _. right. eauto.
      * rewrite lookup_insert_ne by congruence. tauto.
    + intros Hnd k t v Hin Hres. simpl in Hnd.
      apply NoDup_cons in Hnd as [Hnot Hnd].
      apply elem_of_cons in Hin as [Heq | Hin].
      * injection Heq as -> ->.
        assert (Hkeep : res !! key = Some v0).
        { clear - H Hnot. revert acc v0 H.
          induction items as [|[k' t'] items IH']; intros acc v0 H;
            simpl in H.
          - injection H as <-. apply lookup_insert_eq.
          - case_bool_decide; simpl in H; [|discriminate].
            destruct (get_value m mapping t' k'); simpl in H;
              [|discriminate].
            simpl in Hnot. apply not_elem_of_cons in Hnot as [Hne Hnot].
            rewrite insert_insert_ne in H by congruence.
            apply (IH' Hnot _ _ H). }
        congruence.
      * apply (Hval Hnd k t v Hin Hres).
Qed.

(** X12. A call of [extract_feature_dict] that succeeds returns exactly the
    keys the description asks for (all keys of the record when the
    description is [None] or empty), and each of them is a key of the
    record: asking for a key the record does not have never succeeds. *)
Theorem extract_feature_dict_keys (m : message) (d : description)
  (mapping : list (string * string)) (res : gmap string entry) :
  extract_feature_dict m d mapping = Ok res ->
  forall k : string,
    (is_Some (res !! k) <-> k ∈ requested m d) /\
    (k ∈ requested m d -> k ∈ message_keys m).
Proof.
  intros H k.
  assert (Hloop : extract_items m mapping (message_keys m)
                    (described (message_keys m) d) ∅ = Ok res).
  { destruct m; [exact H | exact H | discriminate]. }
  destruct (extract_items_spec _ _ _ _ _ _ Hloop) as (Hall & Hdom & _).
  split.
  - rewrite Hdom, described_requested, lookup_empty.
    split; [intros [? | [? ?]]; [assumption | discriminate] | tauto].
  - intros Hin. apply described_requested in Hin.
    apply list_elem_of_fmap in Hin as ([k' t] & -> & Hin).
    rewrite Forall_forall in Hall. apply (Hall _ Hin).
Qed.

Lemma extract_feature_dict_keys_witness :
  (is_Some (({[ "label" := Single (Int64Array [3]) ]} : gmap string entry)
              !! "label")
   <-> "label" ∈ requested (Features sample_features) (KeyList ["label"])) /\
  ("label" ∈ requested (Features sample_features) (KeyList ["label"]) ->
   "label" ∈ message_keys (Features sample_features)).
Proof.
  apply (extract_feature_dict_keys (Features sample_features)
           (KeyList ["label"]) typename_mapping).
  vm_compute. reflexivity.
Defined.

Lemma process_feature_dtype (f : Feature) (t key : string) (a : ndarray) :
  process_feature f (Some t) typename_mapping key = Ok a ->
  dtype_name a = t.
Proof.
  unfold process_feature, typename_mapping, reversed_lookup. simpl assoc.
  destruct f as [value | value | value |]; simpl;
    repeat (destruct (decide (_ = t)) as [<- | ?]; simpl);
    try discriminate;
    try (intros H; injection H as <-; reflexivity).
  destruct (getitem value 0); simpl; [|discriminate].
  intros H; injection H as <-; reflexivity.
Qed.

Lemma mapM_Forall {A B} (g : A -> result B) (P : B -> Prop) (l : list A) :
  (forall x y, g x = Ok y -> P y) ->
  forall r, mapM g l = Ok r -> Forall P r.
Proof.
  intros Hg. induction l as [|x l IH]; intros r H; simpl in H.
  - injection H as <-. constructor.
  - destruct (g x) as [y|e] eqn:Hx; simpl in H; [|discriminate].
    destruct (mapM g l) as [ys|e]; simpl in H; [|discriminate].
    injection H as <-. constructor; [apply (Hg _ _ Hx) | apply IH; reflexivity].
Qed.

(** X13. With the loaders' type names, a declared type is enforced: when
    [extract_feature_dict] succeeds on a dictionary description, the entry
    returned for a key declared as ["byte"], ["float"] or ["int"] is an
    array (or a list of arrays) of that type. *)
Theorem declared_type_respected (m : message)
  (items : list (string * option string)) (res : gmap string entry)
  (k t : string) (v : entry) :
  NoDup items.*1 ->
  extract_feature_dict m (TypedKeys items) typename_mapping = Ok res ->
  (k, Some t) ∈ items ->
  res !! k = Some v ->
  has_dtype t v.
Proof.
  intros Hnd H Hin Hres.
  assert (Hloop : extract_items m typename_mapping (message_keys m)
                    items ∅ = Ok res).
  { destruct items; [inversion Hin|].
    destruct m; [exact H | exact H | discriminate]. }
  destruct (extract_items_spec _ _ _ _ _ _ Hloop) as (_ & _ & Hval).
  specialize (Hval Hnd k (Some t) v Hin Hres).
  destruct m as [fs | fl |]; simpl in Hval.
  - destruct (fs !! k) as [f|]; [|discriminate].
    destruct (process_feature f (Some t) typename_mapping k) as [a|e] eqn:Hp;
      simpl in Hval; [|discriminate].
    injection Hval as <-. apply (process_feature_dtype _ _ _ _ Hp).
  - destruct (fl !! k) as [l|]; [|discriminate].
    destruct (mapM _ l) as [r|e] eqn:Hm; simpl in Hval; [|discriminate].
    injection Hval as <-. simpl.
    apply (mapM_Forall _ _ _ (fun x y => process_feature_dtype x t k y) _ Hm).
  - discriminate.
Qed.

Lemma declared_type_respected_witness :
  has_dtype "int" (Single (Int64Array [3])).
Proof.
  apply (declared_type_respected (Features sample_features)
           [("label", Some "int"); ("image", None)]
           (<["image" := Single (Uint8Array [Byte.x0a; Byte.x0b])]>
              (<["label" := Single (Int64Array [3])]> ∅))
           "label" "int").
  - apply (bool_decide_unpack _). vm_compute. reflexivity.
  - vm_compute. reflexivity.
  - apply elem_of_cons. left. reflexivity.
  - vm_compute. reflexivity.
Defined.

(** *** The loaders *)

Lemma decode_each_all {A} (decode : list byte -> result A)
  (last : outcome) (records : list (list byte)) :
  forall ds : list A,
  Forall2 (fun r d => decode r = Ok d) records ds ->
  decode_each decode records last = mkDecoded ds last.
Proof.
  induction records as [|r records IH]; intros ds H; inversion H; subst.
  - reflexivity.
  - simpl. rewrite H2, (IH _ H4). reflexivity.
Qed.

Lemma decode_each_failure {A} (decode : list byte -> result A)
  (last : outcome) (good : list (list byte)) (bad : list byte)
  (rest : list (list byte)) (e : exn) :
  forall ds : list A,
  Forall2 (fun r d => decode r = Ok d) good ds ->
  decode bad = Raise e ->
  decode_each decode (good ++ bad :: rest) last = mkDecoded ds (Raised e).
Proof.
  induction good as [|r good IH]; intros ds H Hbad; inversion H; subst.
  - simpl. rewrite Hbad. reflexivity.
  - simpl. rewrite H2, (IH _ H4 Hbad). reflexivity.
Qed.

Lemma raw_file_stream (random_choice : list Z -> result Z)
  (frs : list frame) (shard : option (Z * Z)) (clip : option Z) (buf : N) :
  Forall frame_ok frs ->
  tfrecord_iterator random_choice (file_of frs) None shard clip None false buf
  = mkStream (map payload frs) Done.
Proof.
  intros Hok. unfold tfrecord_iterator. simpl negb. cbv iota.
  unfold read_records. simpl default.
  apply (read_loop_frames frs _ (file_of frs) [] []).
  - simpl. now rewrite app_nil_r.
  - exact Hok.
  - simpl. pose proof (encode_length_ge frs Hok). lia.
Qed.

(** X14. [tfrecord_loader] with a sequence description never yields a
    record: [sequence_loader] passes its index to [tfrecord_iterator] under
    the keyword [index_path], which is not one of its parameters, so the
    generator raises [TypeError] when it is first advanced, whatever the
    file, the index and the descriptions are. *)
Theorem sequence_description_always_fails
  (random_choice : list Z -> result Z)
  (parse_example : list byte -> result (gmap string Feature))
  (parse_sequence :
     list byte -> result (gmap string Feature * gmap string (list Feature)))
  (f : data_file) (index : option index_array)
  (desc sequence_description : description)
  (shard : option (Z * Z)) (clip : option Z)
  (compression_type : option string) (datum_bytes : option N) :
  tfrecord_loader random_choice parse_example parse_sequence f index desc
                  shard clip (Some sequence_description) compression_type
                  datum_bytes
  = Sequences (mkDecoded [] (Raised TypeError)).
Proof. reflexivity. Qed.

(** X15. [example_loader] on a raw file of well-formed records without an
    index: when every record parses and decodes, one dictionary is yielded
    per record, in file order, and the generator then ends normally;
    [shard] and [clip] change nothing. *)
Theorem example_loader_decodes_all (random_choice : list Z -> result Z)
  (parse_example : list byte -> result (gmap string Feature))
  (frs : list frame) (desc : description) (shard : option (Z * Z))
  (clip : option Z) (datum_bytes : option N)
  (ds : list (gmap string entry)) :
  Forall frame_ok frs ->
  Forall2 (fun fr d => decode_example parse_example desc (payload fr) = Ok d)
          frs ds ->
  example_loader random_choice parse_example (file_of frs) None desc shard
                 clip None datum_bytes
  = mkDecoded ds Done.
Proof.
  intros Hok Hds. unfold example_loader. simpl accepts. cbv iota.
  rewrite raw_file_stream by exact Hok. simpl yielded. simpl ended.
  apply (decode_each_all (decode_example parse_example desc)).
  apply Forall2_fmap_l. exact Hds.
Qed.

Lemma example_loader_decodes_all_witness :
  example_loader first_choice sample_parse
                 (file_of [one_byte_frame Byte.x0a; one_byte_frame Byte.x0a])
                 None (KeyList ["label"]) (Some (0, 2)) (Some 1) None None
  = mkDecoded [ {[ "label" := Single (Int64Array [3]) ]};
                {[ "label" := Single (Int64Array [3]) ]} ] Done.
Proof.
  apply (example_loader_decodes_all first_choice sample_parse
           [one_byte_frame Byte.x0a; one_byte_frame Byte.x0a]).
  - repeat constructor; apply one_byte_frame_ok.
  - repeat constructor; vm_compute; reflexivity.
Defined.

(** The records at the head of a raw file are yielded first, whatever
    bytes follow them. *)
Lemma raw_prefix_stream (random_choice : list Z -> result Z)
  (frs : list frame) (junk : list byte) (shard : option (Z * Z))
  (clip : option Z) (random_start : bool) (buf : N) :
  Forall frame_ok frs ->
  exists s,
    tfrecord_iterator random_choice (file_of_bytes (encode frs ++ junk))
                      None shard clip None random_start buf
    = prepend (map payload frs) s.
Proof.
  intros Hok. unfold tfrecord_iterator. simpl negb. cbv iota.
  destruct (read_loop_prefix frs (S (length (encode frs ++ junk)) - length frs)
              (file_of_bytes (encode frs ++ junk)) [] junk
              (Z.of_nat (length (encode frs ++ junk))) buf)
    as [buf' Hpre]; [reflexivity|exact Hok|simpl; rewrite length_app; lia|].
  change (length (@nil byte)) with 0%nat in Hpre.
  replace (length frs + (S (length (encode frs ++ junk)) - length frs))%nat
    with (S (length (encode frs ++ junk))) in Hpre
    by (pose proof (encode_length_ge frs Hok); rewrite length_app; lia).
  unfold read_records, file_of_bytes at 1 2. simpl default. simpl contents.
  fold (file_of_bytes (encode frs ++ junk)). rewrite Hpre. eauto.
Qed.

(** X16. [example_loader] stops at the first record that cannot be parsed
    or decoded: the dictionaries of the records before it are yielded and
    the exception of that record is raised.  Nothing behind that record is
    looked at: the bytes that follow it in the file may be anything, further
    records, a record cut short or no record at all. *)
Theorem example_loader_stops_at_bad_record
  (random_choice : list Z -> result Z)
  (parse_example : list byte -> result (gmap string Feature))
  (good : list frame) (bad : frame) (behind : list byte)
  (desc : description) (shard : option (Z * Z))
  (clip : option Z) (datum_bytes : option N)
  (ds : list (gmap string entry)) (e : exn) :
  Forall frame_ok good -> frame_ok bad ->
  Forall2 (fun fr d => decode_example parse_example desc (payload fr) = Ok d)
          good ds ->
  decode_example parse_example desc (payload bad) = Raise e ->
  example_loader random_choice parse_example
                 (file_of_bytes (encode (good ++ [bad]) ++ behind))
                 None desc shard clip None datum_bytes
  = mkDecoded ds (Raised e).
Proof.
  intros Hgood Hok Hds Hbad. unfold example_loader. simpl accepts. cbv iota.
  destruct (raw_prefix_stream random_choice (good ++ [bad]) behind shard clip
              false (default (1024 * 1024)%N datum_bytes)) as [s Hs].
  { apply Forall_app. split; [exact Hgood | now constructor]. }
  rewrite Hs. unfold prepend. simpl yielded. simpl ended.
  rewrite map_app, <- app_assoc. simpl app.
  apply (decode_each_failure (decode_example parse_example desc)).
  - apply Forall2_fmap_l. exact Hds.
  - exact Hbad.
Qed.

Lemma example_loader_stops_at_bad_record_witness :
  example_loader first_choice sample_parse
                 (file_of_bytes
                    (encode ([one_byte_frame Byte.x0a]
                             ++ [one_byte_frame Byte.x0b])
                     ++ [Byte.xff; Byte.xff; Byte.xff]))
                 None NoDescription None None None None
  = mkDecoded [ <["image" := Single (Uint8Array [Byte.x0a; Byte.x0b])]>
                  (<["label" := Single (Int64Array [3])]> ∅) ]
              (Raised (ValueError "truncated")).
Proof.
  apply (example_loader_stops_at_bad_record first_choice sample_parse
           [one_byte_frame Byte.x0a] (one_byte_frame Byte.x0b)
           [Byte.xff; Byte.xff; Byte.xff]).
  - repeat constructor; apply one_byte_frame_ok.
  - apply one_byte_frame_ok.
  - repeat constructor; vm_compute; reflexivity.
  - vm_compute; reflexivity.
Defined.

End TFRecordProps.
